(** * Voxel Conquest: the simulation core, embedded and verified

    A shallow embedding of the game's core (core/types.ts, utils/random.ts,
    world/worldGenerator.ts and store/gameStore.ts) together with the
    properties its specification states about it.

    Conventions of the embedding.

    - A JavaScript [number] that only ever holds integers (stack counts,
      resources, coordinates, turn numbers) is a [Z]; one that can hold a
      fraction (unit stats after [defend], movement costs and movement
      points, PRNG draws, noise) is an exact rational [Q].  The store's
      arithmetic on amounts that grow with its callers' arguments
      (resources, stack counts, recruit pools, experience, the turn
      number) rounds as doubles do, see [Double]; the arithmetic on
      rationals and on the small numbers of the generator is exact.
    - The store is created with zustand's [immer] middleware.  [get()]
      yields the committed state, which immer has frozen; [set(recipe)]
      runs [recipe] on a draft of it and commits the result.  A draft is a
      tree: an object reachable along two paths is drafted once per path,
      so records with value semantics are the exact model of a committed
      state, and a recipe becomes a function from state to state.  An
      assignment through an object taken from [get()] instead of the draft
      hits a frozen object and raises a [TypeError]; commands that can
      raise return a [Completion].
    - [seedrandom], [Math.random] and [Date.now] are the environment: the
      first is a function from the seed to its stream of draws, the other
      two are streams the commands that read them take as arguments. *)

From Stdlib Require Import ZArith QArith Qround Lia Lqa Sorted.
From stdpp Require Import base numbers list strings pretty.

Local Open Scope Z_scope.

(** ** Comparisons of JavaScript numbers *)

(** [a < b] *)
Definition Qltb (a b : Q) : bool :=
  match (a ?= b)%Q with Lt => true | _ => false end.

(** [a <= b] *)
Definition Qleb (a b : Q) : bool :=
  match (a ?= b)%Q with Gt => false | _ => true end.

(** ** Arithmetic of numbers that hold integers

    Every integer of magnitude up to [2^53] is a double, and the sum, the
    difference and the product of two doubles are the double nearest to the
    exact result, the one with the even significand where two are as near.
    An integer beyond [2^53] is a double when it has at most 53 significant
    bits.  (A magnitude of [2^1024] or more would be [Infinity]; the
    embedding has no such value.) *)
Module Double.
(** The double nearest to the integer [x] *)
Definition round (x : Z) : Z :=
  let m := Z.abs x in
  if m <=? 2 ^ 53 then x
  else
    let ulp := 2 ^ (Z.log2 m - 52) in
    let q := m / ulp in
    let r := m mod ulp in
    let q' :=
      if 2 * r <? ulp then q
      else if ulp <? 2 * r then q + 1
      else if Z.even q then q else q + 1 in
    Z.sgn x * (q' * ulp).
(** An integer every double arithmetic gives exactly: its magnitude is at
    most [2^53]. *)
Definition exact (x : Z) : Prop := Z.abs x <= 2 ^ 53.
(** [a + b], [a - b] and [a * b] *)
Definition add (a b : Z) : Z := round (a + b).
Definition sub (a b : Z) : Z := round (a - b).
Definition mul (a b : Z) : Z := round (a * b).
End Double.

(** ** core/types.ts *)

Module TerrainType.
Inductive t := grass | water | mountain | forest | desert | road.
#[global] Instance eq_dec : EqDecision t.
Proof. solve_decision. Defined.
End TerrainType.

Module PointOfInterestType.
Inductive t := town | enemy_camp | resource_node | neutral_encounter.
#[global] Instance eq_dec : EqDecision t.
Proof. solve_decision. Defined.
End PointOfInterestType.

Module ResourceType.
Inductive t := gold | wood | stone | crystals.
#[global] Instance eq_dec : EqDecision t.
Proof. solve_decision. Defined.
End ResourceType.

Module UnitType.
Inductive t := warrior | archer | cavalry | mage | healer.
#[global] Instance eq_dec : EqDecision t.
Proof. solve_decision. Defined.
End UnitType.

Module FactionId.
Inductive t := player | enemy_1 | enemy_2 | neutral.
#[global] Instance eq_dec : EqDecision t.
Proof. solve_decision. Defined.
End FactionId.

Module Position.
Record t := mk { x : Z; y : Z }.
#[global] Instance eq_dec : EqDecision t.
Proof. solve_decision. Defined.
End Position.

Module UnitStats.
Record t := mk {
    maxHp : Q; hp : Q; attack : Q; defense : Q; speed : Q; range : Q }.
Definition set_hp (v : Q) (s : t) : t :=
    mk (maxHp s) v (attack s) (defense s) (speed s) (range s).
Definition set_defense (v : Q) (s : t) : t :=
    mk (maxHp s) (hp s) (attack s) v (speed s) (range s).
End UnitStats.

Module Unit.
Record t := mk {
    id : string; type : UnitType.t; name : string;
    stats : UnitStats.t; count : Z; experience : Z }.
Definition set_id (v : string) (u : t) : t :=
    mk v (type u) (name u) (stats u) (count u) (experience u).
Definition set_stats (v : UnitStats.t) (u : t) : t :=
    mk (id u) (type u) (name u) v (count u) (experience u).
Definition set_count (v : Z) (u : t) : t :=
    mk (id u) (type u) (name u) (stats u) v (experience u).
End Unit.

Module HeroBonuses.
Record t := mk {
    attackBonus : Z; defenseBonus : Z; movementBonus : Z; moraleBonus : Z }.
End HeroBonuses.

Module Hero.
Record t := mk {
    id : string; name : string; level : Z;
    experience : Z; experienceToNext : Z;
    position : Position.t;
    movementPoints : Q; maxMovementPoints : Q;
    crew : list Unit.t; bonuses : HeroBonuses.t; factionId : FactionId.t }.
Definition set_position (v : Position.t) (h : t) : t :=
    mk (id h) (name h) (level h) (experience h) (experienceToNext h) v
       (movementPoints h) (maxMovementPoints h) (crew h) (bonuses h)
       (factionId h).
Definition set_movementPoints (v : Q) (h : t) : t :=
    mk (id h) (name h) (level h) (experience h) (experienceToNext h)
       (position h) v (maxMovementPoints h) (crew h) (bonuses h)
       (factionId h).
Definition set_crew (v : list Unit.t) (h : t) : t :=
    mk (id h) (name h) (level h) (experience h) (experienceToNext h)
       (position h) (movementPoints h) (maxMovementPoints h) v (bonuses h)
       (factionId h).
Definition set_progress (lvl xp next : Z) (b : HeroBonuses.t) (h : t) : t :=
    mk (id h) (name h) lvl xp next (position h) (movementPoints h)
       (maxMovementPoints h) (crew h) b (factionId h).
End Hero.

Module Resources.
Record t := mk { gold : Z; wood : Z; stone : Z; crystals : Z }.
(** [resources[kind]] *)
Definition get (r : t) (k : ResourceType.t) : Z :=
    match k with
    | ResourceType.gold => gold r
    | ResourceType.wood => wood r
    | ResourceType.stone => stone r
    | ResourceType.crystals => crystals r
    end.
(** [resources[kind] += v] *)
Definition add (k : ResourceType.t) (v : Z) (r : t) : t :=
    match k with
    | ResourceType.gold =>
        mk (Double.add (gold r) v) (wood r) (stone r) (crystals r)
    | ResourceType.wood =>
        mk (gold r) (Double.add (wood r) v) (stone r) (crystals r)
    | ResourceType.stone =>
        mk (gold r) (wood r) (Double.add (stone r) v) (crystals r)
    | ResourceType.crystals =>
        mk (gold r) (wood r) (stone r) (Double.add (crystals r) v)
    end.
End Resources.


(** [Partial<Resources>]: a kind that is absent (or [undefined]) is [None]. *)
Module PartialResources.
Record t := mk {
  gold : option Z; wood : option Z; stone : option Z; crystals : option Z }.
Definition get (r : t) (k : ResourceType.t) : option Z :=
  match k with
  | ResourceType.gold => gold r
  | ResourceType.wood => wood r
  | ResourceType.stone => stone r
  | ResourceType.crystals => crystals r
  end.
Definition ofResources (r : Resources.t) : t :=
  mk (Some (Resources.gold r)) (Some (Resources.wood r))
     (Some (Resources.stone r)) (Some (Resources.crystals r)).
End PartialResources.

Module UnitRecruitOption.
Record t := mk {
  unitType : UnitType.t; cost : Resources.t; available : Z; maxPerWeek : Z }.
Definition set_available (v : Z) (r : t) : t :=
  mk (unitType r) (cost r) v (maxPerWeek r).
End UnitRecruitOption.

Module BuildingEffect.
Inductive kind := recruit_bonus | resource_bonus | defense_bonus.
Record t := mk { type : kind; value : Z }.
End BuildingEffect.

Module Building.
Record t := mk {
  id : string; name : string; level : Z; effects : list BuildingEffect.t }.
End Building.

(** [Town] and [EnemyCamp] extend [PointOfInterest]; the [type] field is the
    discriminant, so the extension is the payload of a tagged union and
    [type] is read off the tag. *)
Module PoiVariant.
Inductive t :=
| Town (recruitPool : list UnitRecruitOption.t)
       (buildings : list Building.t) (resources : Resources.t)
| EnemyCamp (difficulty : Z) (rewards : Resources.t)
| NeutralEncounter.
End PoiVariant.

Module PointOfInterest.
Record t := mk {
  id : string; name : string; position : Position.t;
  factionId : FactionId.t; garrison : option (list Unit.t);
  isDiscovered : bool; variant : PoiVariant.t }.
Definition type (p : t) : PointOfInterestType.t :=
  match variant p with
  | PoiVariant.Town _ _ _ => PointOfInterestType.town
  | PoiVariant.EnemyCamp _ _ => PointOfInterestType.enemy_camp
  | PoiVariant.NeutralEncounter => PointOfInterestType.neutral_encounter
  end.
Definition set_variant (v : PoiVariant.t) (p : t) : t :=
  mk (id p) (name p) (position p) (factionId p) (garrison p)
     (isDiscovered p) v.
End PointOfInterest.

Module ResourceNode.
Record t := mk {
  id : string; resourceType : ResourceType.t; position : Position.t;
  amountPerTurn : Z; isOwned : bool; ownedBy : option FactionId.t }.
End ResourceNode.

(** A movement cost is a number or [Infinity] ([TERRAIN_COSTS.water]). *)
Module Cost.
Inductive t := Finite (q : Q) | Infinity.
End Cost.

Module Tile.
Record t := mk {
  position : Position.t; terrain : TerrainType.t; elevation : Q;
  movementCost : Cost.t; isPassable : bool;
  pointOfInterest : option PointOfInterest.t;
  resourceNode : option ResourceNode.t }.
Definition set_pointOfInterest (v : option PointOfInterest.t) (c : t) : t :=
  mk (position c) (terrain c) (elevation c) (movementCost c) (isPassable c)
     v (resourceNode c).
Definition set_resourceNode (v : option ResourceNode.t) (c : t) : t :=
  mk (position c) (terrain c) (elevation c) (movementCost c) (isPassable c)
     (pointOfInterest c) v.
Definition set_road (cost : Cost.t) (c : t) : t :=
  mk (position c) TerrainType.road (elevation c) cost (isPassable c)
     (pointOfInterest c) (resourceNode c).
End Tile.

Module Faction.
Record t := mk {
  id : FactionId.t; name : string; color : string;
  resources : Resources.t; heroes : list Hero.t;
  ownedTowns : list string; isAI : bool }.
Definition set_resources (v : Resources.t) (f : t) : t :=
  mk (id f) (name f) (color f) v (heroes f) (ownedTowns f) (isAI f).
Definition set_heroes (v : list Hero.t) (f : t) : t :=
  mk (id f) (name f) (color f) (resources f) v (ownedTowns f) (isAI f).
End Faction.

Module WorldMap.
Record t := mk {
  width : Z; height : Z; tiles : list (list Tile.t);
  pointsOfInterest : list PointOfInterest.t;
  resourceNodes : list ResourceNode.t; seed : string }.
Definition set_pointsOfInterest (v : list PointOfInterest.t) (w : t) : t :=
  mk (width w) (height w) (tiles w) v (resourceNodes w) (seed w).
End WorldMap.

Module StatusEffect.
Inductive kind := poison | stun | boost | shield.
Record t := mk { type : kind; duration : Z; value : Z }.
End StatusEffect.

(** [CombatUnit extends Unit]: the inherited fields are kept together in
    [unit]. *)
Module CombatUnit.
Record t := mk {
  unit : Unit.t; combatPosition : Position.t;
  hasActed : bool; isDefending : bool;
  statusEffects : list StatusEffect.t }.
Definition id (c : t) : string := Unit.id (unit c).
Definition type (c : t) : UnitType.t := Unit.type (unit c).
Definition name (c : t) : string := Unit.name (unit c).
Definition stats (c : t) : UnitStats.t := Unit.stats (unit c).
Definition count (c : t) : Z := Unit.count (unit c).
Definition experience (c : t) : Z := Unit.experience (unit c).
Definition set_unit (v : Unit.t) (c : t) : t :=
  mk v (combatPosition c) (hasActed c) (isDefending c) (statusEffects c).
Definition set_combatPosition (v : Position.t) (c : t) : t :=
  mk (unit c) v (hasActed c) (isDefending c) (statusEffects c).
Definition set_hasActed (v : bool) (c : t) : t :=
  mk (unit c) (combatPosition c) v (isDefending c) (statusEffects c).
Definition set_isDefending (v : bool) (c : t) : t :=
  mk (unit c) (combatPosition c) (hasActed c) v (statusEffects c).
End CombatUnit.

(** The log message is the template
    [`${source.name} deals ${damage} damage to ${target.name}`]; its three
    holes are kept as data. *)
Module CombatLogEntry.
Record message := deals { attackerName : string; damage : Q; targetName : string }.
Record t := mk { turn : Z; msg : message; timestamp : Z }.
End CombatLogEntry.

Module Side.
Inductive t := attacker | defender.
#[global] Instance eq_dec : EqDecision t.
Proof. solve_decision. Defined.
End Side.

Module CombatState.
Record t := mk {
  isActive : bool; attacker : Hero.t;
  defender : Hero.t + PointOfInterest.t;
  attackerUnits : list CombatUnit.t; defenderUnits : list CombatUnit.t;
  currentTurn : Side.t; currentUnitIndex : Z;
  turnOrder : list CombatUnit.t; combatLog : list CombatLogEntry.t;
  gridWidth : Z; gridHeight : Z }.
Definition set_attackerUnits (v : list CombatUnit.t) (c : t) : t :=
  mk (isActive c) (attacker c) (defender c) v (defenderUnits c)
     (currentTurn c) (currentUnitIndex c) (turnOrder c) (combatLog c)
     (gridWidth c) (gridHeight c).
Definition set_defenderUnits (v : list CombatUnit.t) (c : t) : t :=
  mk (isActive c) (attacker c) (defender c) (attackerUnits c) v
     (currentTurn c) (currentUnitIndex c) (turnOrder c) (combatLog c)
     (gridWidth c) (gridHeight c).
Definition set_currentUnitIndex (v : Z) (c : t) : t :=
  mk (isActive c) (attacker c) (defender c) (attackerUnits c)
     (defenderUnits c) (currentTurn c) v (turnOrder c) (combatLog c)
     (gridWidth c) (gridHeight c).
Definition set_turnOrder (v : list CombatUnit.t) (c : t) : t :=
  mk (isActive c) (attacker c) (defender c) (attackerUnits c)
     (defenderUnits c) (currentTurn c) (currentUnitIndex c) v (combatLog c)
     (gridWidth c) (gridHeight c).
Definition set_combatLog (v : list CombatLogEntry.t) (c : t) : t :=
  mk (isActive c) (attacker c) (defender c) (attackerUnits c)
     (defenderUnits c) (currentTurn c) (currentUnitIndex c) (turnOrder c) v
     (gridWidth c) (gridHeight c).
End CombatState.

Module ActionType.
Inductive t := move | attack | defend | wait | ability.
End ActionType.

Module CombatAction.
Record t := mk {
  type : ActionType.t; sourceUnit : string;
  targetPosition : option Position.t; targetUnit : option string }.
End CombatAction.

Module CombatResult.
Record t := mk {
  winner : Side.t;
  attackerLosses : list (string * Z); defenderLosses : list (string * Z);
  experienceGained : Z; resourcesLooted : Resources.t }.
End CombatResult.

Module VictoryCondition.
Inductive kind := conquest | elimination | turns.
Record t := mk { type : kind; targetValue : option Z }.
End VictoryCondition.

Module GamePhase.
Inductive t := world_map | combat | town | menu.
#[global] Instance eq_dec : EqDecision t.
Proof. solve_decision. Defined.
End GamePhase.

Module GameState.
Record t := mk {
  turn : Z; currentFaction : FactionId.t; worldMap : WorldMap.t;
  factions : list Faction.t; combatState : option CombatState.t;
  selectedHeroId : option string; gamePhase : GamePhase.t;
  victoryCondition : VictoryCondition.t; isGameOver : bool;
  winner : option FactionId.t }.
Definition set_turn (v : Z) (s : t) : t :=
  mk v (currentFaction s) (worldMap s) (factions s) (combatState s)
     (selectedHeroId s) (gamePhase s) (victoryCondition s) (isGameOver s)
     (winner s).
Definition set_currentFaction (v : FactionId.t) (s : t) : t :=
  mk (turn s) v (worldMap s) (factions s) (combatState s)
     (selectedHeroId s) (gamePhase s) (victoryCondition s) (isGameOver s)
     (winner s).
Definition set_worldMap (v : WorldMap.t) (s : t) : t :=
  mk (turn s) (currentFaction s) v (factions s) (combatState s)
     (selectedHeroId s) (gamePhase s) (victoryCondition s) (isGameOver s)
     (winner s).
Definition set_factions (v : list Faction.t) (s : t) : t :=
  mk (turn s) (currentFaction s) (worldMap s) v (combatState s)
     (selectedHeroId s) (gamePhase s) (victoryCondition s) (isGameOver s)
     (winner s).
Definition set_combatState (v : option CombatState.t) (s : t) : t :=
  mk (turn s) (currentFaction s) (worldMap s) (factions s) v
     (selectedHeroId s) (gamePhase s) (victoryCondition s) (isGameOver s)
     (winner s).
Definition set_selectedHeroId (v : option string) (s : t) : t :=
  mk (turn s) (currentFaction s) (worldMap s) (factions s) (combatState s)
     v (gamePhase s) (victoryCondition s) (isGameOver s) (winner s).
Definition set_gamePhase (v : GamePhase.t) (s : t) : t :=
  mk (turn s) (currentFaction s) (worldMap s) (factions s) (combatState s)
     (selectedHeroId s) v (victoryCondition s) (isGameOver s) (winner s).
End GameState.

Module GameConfig.
Inductive difficultyTag := easy | normal | hard.
Record t := mk {
  mapWidth : Z; mapHeight : Z; seed : string;
  playerFactionId : FactionId.t; difficulty : difficultyTag;
  enableFogOfWar : bool }.
End GameConfig.

(** Unit templates for creating new units ([Omit<Unit, 'id'>]: the [id] of a
    template is empty and is always overwritten by the spread). *)
Definition UNIT_TEMPLATES (ty : UnitType.t) : Unit.t :=
  match ty with
  | UnitType.warrior =>
      Unit.mk EmptyString UnitType.warrior "Warrior"
        (UnitStats.mk 50 50 12 8 4 1) 1 0
  | UnitType.archer =>
      Unit.mk EmptyString UnitType.archer "Archer"
        (UnitStats.mk 30 30 10 4 5 4) 1 0
  | UnitType.cavalry =>
      Unit.mk EmptyString UnitType.cavalry "Cavalry"
        (UnitStats.mk 60 60 14 6 7 1) 1 0
  | UnitType.mage =>
      Unit.mk EmptyString UnitType.mage "Mage"
        (UnitStats.mk 25 25 18 3 4 3) 1 0
  | UnitType.healer =>
      Unit.mk EmptyString UnitType.healer "Healer"
        (UnitStats.mk 20 20 5 5 5 2) 1 0
  end.

(** Terrain movement costs *)
Definition TERRAIN_COSTS (t : TerrainType.t) : Cost.t :=
  match t with
  | TerrainType.grass => Cost.Finite 1
  | TerrainType.road => Cost.Finite (1 # 2)
  | TerrainType.forest => Cost.Finite 2
  | TerrainType.desert => Cost.Finite (3 # 2)
  | TerrainType.mountain => Cost.Finite 3
  | TerrainType.water => Cost.Infinity
  end.

Definition TERRAIN_PASSABLE (t : TerrainType.t) : bool :=
  match t with
  | TerrainType.grass | TerrainType.road
  | TerrainType.forest | TerrainType.desert => true
  | TerrainType.mountain | TerrainType.water => false
  end.


(** ** utils/random.ts

    [gaussian] (square root, logarithm and cosine of doubles) and
    [generateSeed] (a string made from [Math.random()]) are outside this
    embedding. *)

(** [seedrandom(seed)] is a generator: a stream of draws that depends on the
    seed only.  A [SeededRandom] is that stream and the number of draws
    taken from it so far. *)
Module SeededRandom.
Record t := mk { rng : nat -> Q; drawn : nat }.
End SeededRandom.

(** Code that draws from a generator: a state monad over [SeededRandom.t]. *)
Definition Rand (A : Type) : Type := SeededRandom.t -> A * SeededRandom.t.

#[global] Instance Rand_ret : MRet Rand := fun A a g => (a, g).

#[global] Instance Rand_bind : MBind Rand :=
  fun A B k m g => let (a, g') := m g in k a g'.

(** Returns a random float between 0 and 1 *)
Definition random : Rand Q :=
  fun g =>
    (SeededRandom.rng g (SeededRandom.drawn g),
     SeededRandom.mk (SeededRandom.rng g) (S (SeededRandom.drawn g))).

(** Returns a random integer between min (inclusive) and max (exclusive) *)
Definition randomInt (min max : Z) : Rand Z :=
  r ← random; mret (Qfloor (r * inject_Z (max - min)) + min).

(** Returns a random float between min and max.  This is the exact value of
    [r * (max - min) + min]; the code computes it in doubles, which round
    (so that a result can be [max] itself). *)
Definition randomFloat (min max : Q) : Rand Q :=
  r ← random; mret (r * (max - min) + min)%Q.

(** Returns a random element from an array; [undefined] stands for the value
    JavaScript yields when the index is not one of the array's. *)
Definition randomElement {A} (undefined : A) (array : list A) : Rand A :=
  i ← randomInt 0 (Z.of_nat (length array));
  mret (if i <? 0 then undefined else nth (Z.to_nat i) array undefined).

(** [[result[i], result[j]] = [result[j], result[i]]] for two indices of the
    array.  [randomInt(0, i + 1)] is one whenever the draw lies in [0, 1);
    were it not, the array is left as it is. *)
Definition swap {A} (i j : nat) (result : list A) : list A :=
  match result !! i, result !! j with
  | Some a, Some b => <[j := a]> (<[i := b]> result)
  | _, _ => result
  end.

(** The loop [for (let i = result.length - 1; i > 0; i--)], entered with
    [i = n]. *)
Fixpoint shuffleFrom {A} (n : nat) (result : list A) : Rand (list A) :=
  match n with
  | O => mret result
  | S n' =>
      j ← randomInt 0 (Z.of_nat n + 1);
      shuffleFrom n'
        (if j <? 0 then result else swap n (Z.to_nat j) result)
  end.

(** Shuffle an array using the Fisher-Yates algorithm (on a copy) *)
Definition shuffle {A} (array : list A) : Rand (list A) :=
  shuffleFrom (length array - 1)%nat array.

(** Returns true with the given probability (0-1) *)
Definition chance (probability : Q) : Rand bool :=
  r ← random; mret (Qltb r probability).

Definition chars : string := "abcdefghijklmnopqrstuvwxyz0123456789".

(** [chars.charAt(i)]: the empty string outside the string. *)
Definition charAt (s : string) (i : Z) : string :=
  if i <? 0 then EmptyString
  else match String.get (Z.to_nat i) s with
       | Some c => String c EmptyString
       | None => EmptyString
       end.

Fixpoint randomIdFrom (length : nat) (result : string) : Rand string :=
  match length with
  | O => mret result
  | S n =>
      i ← randomInt 0 (Z.of_nat (String.length chars));
      randomIdFrom n (result +:+ charAt chars i)
  end.

(** Generate a random string ID *)
Definition randomId : Rand string := randomIdFrom 8 EmptyString.

(** [array.slice(0, end)] for an integer [end]: a negative [end] counts
    from the end of the array, and one beyond the array stops at its end. *)
Definition sliceTo {A} (end_ : Z) (array : list A) : list A :=
  if end_ <? 0
  then take (Z.to_nat (Z.of_nat (length array) + end_)) array
  else take (Z.to_nat end_) array.

(** Pick multiple unique random elements from array *)
Definition pickMultiple {A} (array : list A) (count : Z) : Rand (list A) :=
  shuffled ← shuffle array;
  mret (sliceTo (Z.min count (Z.of_nat (length array))) shuffled).


(** ** world/worldGenerator.ts *)

Module WorldGenConfig.
Record t := mk {
  width : Z; height : Z; seed : string;
  numTowns : Z; numEnemyCamps : Z; numResourceNodes : Z;
  numNeutralEncounters : Z }.
Definition set_size (w h : Z) (c : t) : t :=
  mk w h (seed c) (numTowns c) (numEnemyCamps c) (numResourceNodes c)
     (numNeutralEncounters c).
End WorldGenConfig.

(** *** Simplex-like noise for terrain generation *)

Module SimplexNoise.
Record t := mk { permutation : list Z }.

(** [this.permutation[i]]; the table has 512 entries below 256, and every
    index the noise computes lies inside it. *)
Definition at_ (n : t) (i : Z) : Z := nth (Z.to_nat i) (permutation n) 0.

Definition fade (t : Q) : Q := (t * t * t * (t * (t * 6 - 15) + 10))%Q.

Definition lerp (a b t : Q) : Q := (a + t * (b - a))%Q.

Definition grad (hash : Z) (x y : Q) : Q :=
  let h := Z.land hash 3 in
  let u := if h <? 2 then x else y in
  let v := if h <? 2 then y else x in
  ((if Z.land h 1 =? 0 then u else - u) +
   (if Z.land h 2 =? 0 then v else - v))%Q.

Definition noise2D (n : t) (x y : Q) : Q :=
  let X := Z.land (Qfloor x) 255 in
  let Y := Z.land (Qfloor y) 255 in
  let x := (x - inject_Z (Qfloor x))%Q in
  let y := (y - inject_Z (Qfloor y))%Q in
  let u := fade x in
  let v := fade y in
  let A := at_ n X + Y in
  let B := at_ n (X + 1) + Y in
  lerp
    (lerp (grad (at_ n A) x y) (grad (at_ n B) (x - 1) y) u)
    (lerp (grad (at_ n (A + 1)) x (y - 1))
          (grad (at_ n (B + 1)) (x - 1) (y - 1)) u)
    v.

(** The loop of [octaveNoise], with [octaves] rounds still to run. *)
Fixpoint octaveLoop (n : t) (x y : Q) (octaves : nat) (persistence : Q)
    (total frequency amplitude maxValue : Q) : Q * Q :=
  match octaves with
  | O => (total, maxValue)
  | S k =>
      octaveLoop n x y k persistence
        (total + noise2D n (x * frequency) (y * frequency) * amplitude)%Q
        (frequency * 2)%Q (amplitude * persistence)%Q
        (maxValue + amplitude)%Q
  end.

(** Multi-octave noise for more natural terrain *)
Definition octaveNoise (n : t) (x y : Q) (octaves : nat) (persistence : Q) : Q :=
  let (total, maxValue) := octaveLoop n x y octaves persistence 0 1 1 0 in
  (total / maxValue)%Q.

(** [new SimplexNoise(rng)]: the permutation table, doubled. *)
Definition new : Rand t :=
  let p := seqZ 0 256 in
  permutation ← shuffle p;
  mret (mk (permutation ++ permutation)).
End SimplexNoise.

Definition determineTerrain (elevation moisture : Q) : TerrainType.t :=
  if Qltb elevation (3 # 10) then TerrainType.water
  else if Qltb (3 # 4) elevation then TerrainType.mountain
  else if Qltb moisture (3 # 10) && Qltb (7 # 20) elevation
       then TerrainType.desert
  else if Qltb (3 # 5) moisture && Qltb elevation (13 # 20)
       then TerrainType.forest
  else TerrainType.grass.

Definition generateTerrain (width height : Z) (noise : SimplexNoise.t)
    : Rand (list (list Tile.t)) :=
  let scale : Q := 1 # 20 in
  moistureOffset ← randomFloat 100 1000;
  mret
    (map (fun y : Z =>
       map (fun x : Z =>
         let elevation :=
           SimplexNoise.octaveNoise noise (inject_Z x * scale)
             (inject_Z y * scale) 4 (1 # 2) in
         let moisture :=
           SimplexNoise.octaveNoise noise
             ((inject_Z x + moistureOffset) * scale)
             ((inject_Z y + moistureOffset) * scale) 3 (3 # 5) in
         let normalizedElevation := ((elevation + 1) / 2)%Q in
         let normalizedMoisture := ((moisture + 1) / 2)%Q in
         let terrain := determineTerrain normalizedElevation normalizedMoisture in
         Tile.mk (Position.mk x y) terrain normalizedElevation
           (TERRAIN_COSTS terrain) (TERRAIN_PASSABLE terrain) None None)
         (seqZ 0 width))
       (seqZ 0 height)).

(** [tiles[p.y][p.x]] *)
Definition tileAt (tiles : list (list Tile.t)) (p : Position.t) : option Tile.t :=
  if (Position.y p <? 0) || (Position.x p <? 0) then None
  else row ← tiles !! Z.to_nat (Position.y p); row !! Z.to_nat (Position.x p).

(** [f(tiles[p.y][p.x])] for an [f] that updates the tile in place *)
Definition updateTile (p : Position.t) (f : Tile.t -> Tile.t)
    (tiles : list (list Tile.t)) : list (list Tile.t) :=
  if (Position.y p <? 0) || (Position.x p <? 0) then tiles
  else alter (alter f (Z.to_nat (Position.x p))) (Z.to_nat (Position.y p)) tiles.

(** [tiles[0].length], read only when there is a first row *)
Definition rowLength (tiles : list (list Tile.t)) : Z :=
  match tiles with
  | row :: _ => Z.of_nat (length row)
  | [] => 0
  end.

Definition findValidPositions (tiles : list (list Tile.t))
    (validTerrains : list TerrainType.t) : list Position.t :=
  flat_map (fun y : Z =>
    flat_map (fun x : Z =>
      match tileAt tiles (Position.mk x y) with
      | Some tile =>
          if bool_decide (Tile.terrain tile ∈ validTerrains)
             && Tile.isPassable tile
          then [Position.mk x y] else []
      | None => []
      end)
      (seqZ 1 (rowLength tiles - 2)))
    (seqZ 1 (Z.of_nat (length tiles) - 2)).

Definition manhattanDistance (a b : Position.t) : Z :=
  Z.abs (Position.x a - Position.x b) + Z.abs (Position.y a - Position.y b).

Definition generateRecruitPool : Rand (list UnitRecruitOption.t) :=
  a1 ← randomInt 5 15;
  a2 ← randomInt 3 10;
  a3 ← randomInt 2 6;
  a4 ← randomInt 1 4;
  a5 ← randomInt 2 5;
  mret
    [ UnitRecruitOption.mk UnitType.warrior (Resources.mk 100 0 0 0) a1 10;
      UnitRecruitOption.mk UnitType.archer (Resources.mk 80 20 0 0) a2 8;
      UnitRecruitOption.mk UnitType.cavalry (Resources.mk 200 0 0 0) a3 4;
      UnitRecruitOption.mk UnitType.mage (Resources.mk 250 0 0 20) a4 2;
      UnitRecruitOption.mk UnitType.healer (Resources.mk 150 0 0 10) a5 3 ].

(** The loop of [generateGarrison], with [n] stacks still to create. *)
Fixpoint garrisonLoop (n : nat) (difficulty : Z) (garrison : list Unit.t)
    : Rand (list Unit.t) :=
  match n with
  | O => mret garrison
  | S k =>
      unitType ← randomElement UnitType.warrior
                   [UnitType.warrior; UnitType.archer; UnitType.cavalry];
      id ← randomId;
      c ← randomInt 2 8;
      garrisonLoop k difficulty
        (garrison ++
         [Unit.set_count (difficulty * 3 + c)
            (Unit.set_id ("unit_" +:+ id) (UNIT_TEMPLATES unitType))])
  end.

Definition generateGarrison (difficulty : Z) : Rand (list Unit.t) :=
  k ← randomInt 1 3;
  let unitCount := difficulty * 2 + k in
  garrisonLoop (Z.to_nat unitCount) difficulty [].

Definition townNames : list string :=
  [ "Ironhold"; "Silverdale"; "Goldcrest"; "Stonehaven"; "Oakshire";
    "Riverwatch"; "Hillcrest"; "Meadowbrook"; "Thornfield"; "Crystalvale";
    "Frostgate"; "Sunhaven"; "Shadowmere"; "Brightwater"; "Stormwind" ].

Definition createTown (position : Position.t) (isPlayerStart : bool)
    : Rand PointOfInterest.t :=
  id ← randomId;
  name ← randomElement "undefined" townNames;
  garrison ← (if isPlayerStart then mret [] else generateGarrison 1);
  recruitPool ← generateRecruitPool;
  g ← randomInt 100 500;
  w ← randomInt 50 200;
  s ← randomInt 30 150;
  c ← randomInt 10 50;
  mret
    (PointOfInterest.mk ("town_" +:+ id) name position
       (if isPlayerStart then FactionId.player else FactionId.neutral)
       (Some garrison) isPlayerStart
       (PoiVariant.Town recruitPool [] (Resources.mk g w s c))).

(** The loop of [generateTowns] over the shuffled positions. *)
Fixpoint townsLoop (count : Z) (positions : list Position.t)
    (towns : list PointOfInterest.t) : Rand (list PointOfInterest.t) :=
  match positions with
  | [] => mret towns
  | pos :: rest =>
      if Z.of_nat (length towns) >=? count then mret towns
      else
        let minDistance := 8 in
        let tooClose :=
          existsb (fun town =>
            manhattanDistance pos (PointOfInterest.position town) <? minDistance)
            towns in
        if negb tooClose then
          t ← createTown pos (bool_decide (length towns = 0%nat));
          townsLoop count rest (towns ++ [t])
        else townsLoop count rest towns
  end.

Definition generateTowns (tiles : list (list Tile.t)) (count : Z)
    : Rand (list PointOfInterest.t) :=
  let validPositions :=
    findValidPositions tiles [TerrainType.grass; TerrainType.desert] in
  shuffledPositions ← shuffle validPositions;
  townsLoop count shuffledPositions [].

Definition createCamp (pos : Position.t) : Rand PointOfInterest.t :=
  difficulty ← randomInt 1 5;
  id ← randomId;
  kind ← randomElement "undefined"
           ["Goblin"; "Bandit"; "Orc"; "Skeleton"; "Troll"];
  factionId ← randomElement FactionId.enemy_1
                [FactionId.enemy_1; FactionId.enemy_2];
  garrison ← generateGarrison difficulty;
  g ← randomInt 50 200;
  w ← randomInt 10 50;
  s ← randomInt 5 30;
  c ← randomInt 0 20;
  mret
    (PointOfInterest.mk ("camp_" +:+ id) (kind +:+ " Camp") pos factionId
       (Some garrison) false
       (PoiVariant.EnemyCamp difficulty
          (Resources.mk (difficulty * 100 + g) (difficulty * 20 + w)
             (difficulty * 15 + s) (difficulty * 5 + c)))).

Fixpoint campsLoop (count : Z) (towns : list PointOfInterest.t)
    (positions : list Position.t) (camps : list PointOfInterest.t)
    : Rand (list PointOfInterest.t) :=
  match positions with
  | [] => mret camps
  | pos :: rest =>
      if Z.of_nat (length camps) >=? count then mret camps
      else
        let minDistanceFromTowns := 5 in
        let minDistanceFromCamps := 4 in
        let tooCloseToTown :=
          existsb (fun town =>
            manhattanDistance pos (PointOfInterest.position town)
              <? minDistanceFromTowns) towns in
        let tooCloseToCamp :=
          existsb (fun camp =>
            manhattanDistance pos (PointOfInterest.position camp)
              <? minDistanceFromCamps) camps in
        if negb tooCloseToTown && negb tooCloseToCamp then
          camp ← createCamp pos;
          campsLoop count towns rest (camps ++ [camp])
        else campsLoop count towns rest camps
  end.

Definition generateEnemyCamps (tiles : list (list Tile.t)) (count : Z)
    (towns : list PointOfInterest.t) : Rand (list PointOfInterest.t) :=
  let validPositions :=
    findValidPositions tiles
      [TerrainType.grass; TerrainType.forest; TerrainType.desert] in
  shuffledPositions ← shuffle validPositions;
  campsLoop count towns shuffledPositions [].

Definition resourceTypes : list ResourceType.t :=
  [ResourceType.gold; ResourceType.wood; ResourceType.stone;
   ResourceType.crystals].

(** Terrain-appropriate resources; [terrain] is what [tiles[pos.y][pos.x]]
    holds ([None] only off the grid, where no valid position lies). *)
Definition pickResourceType (terrain : option TerrainType.t)
    : Rand ResourceType.t :=
  match terrain with
  | Some TerrainType.forest =>
      lucky ← chance (7 # 10);
      if lucky : bool then mret ResourceType.wood
      else randomElement ResourceType.gold resourceTypes
  | Some TerrainType.mountain =>
      lucky ← chance (7 # 10);
      if lucky : bool then mret ResourceType.stone
      else randomElement ResourceType.gold resourceTypes
  | _ => randomElement ResourceType.gold resourceTypes
  end.

Fixpoint nodesLoop (tiles : list (list Tile.t)) (count : Z)
    (towns camps : list PointOfInterest.t)
    (positions : list Position.t) (nodes : list ResourceNode.t)
    : Rand (list ResourceNode.t) :=
  match positions with
  | [] => mret nodes
  | pos :: rest =>
      if Z.of_nat (length nodes) >=? count then mret nodes
      else
        let minDistance := 3 in
        let tooClose :=
          existsb (fun t =>
            manhattanDistance pos (PointOfInterest.position t) <? minDistance)
            towns
          || existsb (fun c =>
            manhattanDistance pos (PointOfInterest.position c) <? minDistance)
            camps
          || existsb (fun n =>
            manhattanDistance pos (ResourceNode.position n) <? minDistance)
            nodes in
        if negb tooClose then
          resourceType ← pickResourceType (Tile.terrain <$> tileAt tiles pos);
          id ← randomId;
          amountPerTurn ← randomInt 5 20;
          nodesLoop tiles count towns camps rest
            (nodes ++
             [ResourceNode.mk ("resource_" +:+ id) resourceType pos
                amountPerTurn false None])
        else nodesLoop tiles count towns camps rest nodes
  end.

Definition generateResourceNodes (tiles : list (list Tile.t)) (count : Z)
    (towns camps : list PointOfInterest.t) : Rand (list ResourceNode.t) :=
  let validPositions :=
    findValidPositions tiles
      [TerrainType.grass; TerrainType.forest; TerrainType.desert;
       TerrainType.mountain] in
  shuffledPositions ← shuffle validPositions;
  nodesLoop tiles count towns camps shuffledPositions [].

Definition encounterTypes : list string :=
  [ "Ancient Shrine"; "Wandering Merchant"; "Lost Treasure";
    "Hermit's Hut"; "Mystic Well"; "Abandoned Wagon" ].

Fixpoint encountersLoop (count : Z)
    (towns camps : list PointOfInterest.t) (resources : list ResourceNode.t)
    (positions : list Position.t) (encounters : list PointOfInterest.t)
    : Rand (list PointOfInterest.t) :=
  match positions with
  | [] => mret encounters
  | pos :: rest =>
      if Z.of_nat (length encounters) >=? count then mret encounters
      else
        let minDistance := 3 in
        let tooClose :=
          existsb (fun t =>
            manhattanDistance pos (PointOfInterest.position t) <? minDistance)
            towns
          || existsb (fun c =>
            manhattanDistance pos (PointOfInterest.position c) <? minDistance)
            camps
          || existsb (fun r =>
            manhattanDistance pos (ResourceNode.position r) <? minDistance)
            resources
          || existsb (fun e =>
            manhattanDistance pos (PointOfInterest.position e) <? minDistance)
            encounters in
        if negb tooClose then
          id ← randomId;
          name ← randomElement "undefined" encounterTypes;
          encountersLoop count towns camps resources rest
            (encounters ++
             [PointOfInterest.mk ("encounter_" +:+ id) name pos
                FactionId.neutral None false PoiVariant.NeutralEncounter])
        else encountersLoop count towns camps resources rest encounters
  end.

Definition generateNeutralEncounters (tiles : list (list Tile.t)) (count : Z)
    (towns camps : list PointOfInterest.t) (resources : list ResourceNode.t)
    : Rand (list PointOfInterest.t) :=
  let validPositions :=
    findValidPositions tiles [TerrainType.grass; TerrainType.forest] in
  shuffledPositions ← shuffle validPositions;
  encountersLoop count towns camps resources shuffledPositions [].

(** Only place roads on passable terrain that isn't water *)
Definition carveRoad (tile : Tile.t) : Tile.t :=
  if Tile.isPassable tile
     && negb (bool_decide (Tile.terrain tile = TerrainType.water))
  then Tile.set_road (TERRAIN_COSTS TerrainType.road) tile
  else tile.

(** One step of the walk from [current] towards [end_]. *)
Definition roadStep (primary : bool) (tiles : list (list Tile.t))
    (end_ current : Position.t) : Position.t :=
  let dx := Position.x end_ - Position.x current in
  let dy := Position.y end_ - Position.y current in
  let moved :=
    if primary then
      if Z.abs dx >? Z.abs dy
      then Position.mk (Position.x current + Z.sgn dx) (Position.y current)
      else Position.mk (Position.x current) (Position.y current + Z.sgn dy)
    else
      if (Z.abs dx <=? Z.abs dy) && negb (dx =? 0)
      then Position.mk (Position.x current + Z.sgn dx) (Position.y current)
      else if negb (dy =? 0)
      then Position.mk (Position.x current) (Position.y current + Z.sgn dy)
      else Position.mk (Position.x current + Z.sgn dx) (Position.y current) in
  Position.mk
    (Z.max 0 (Z.min (rowLength tiles - 1) (Position.x moved)))
    (Z.max 0 (Z.min (Z.of_nat (length tiles) - 1) (Position.y moved))).

(** The loop [while (current.x !== end.x || current.y !== end.y)].  Between
    two positions of the grid every step brings [current] one tile closer to
    [end_], so the loop runs [manhattanDistance start end_] times; [steps]
    counts them down (see [roadWalk_ends]). *)
Fixpoint roadWalk (steps : nat) (end_ current : Position.t)
    (tiles : list (list Tile.t)) : Rand (list (list Tile.t)) :=
  match steps with
  | O => mret tiles
  | S k =>
      if (Position.x current =? Position.x end_)
         && (Position.y current =? Position.y end_)
      then mret tiles
      else
        let tiles := updateTile current carveRoad tiles in
        primary ← chance (3 # 5);
        roadWalk k end_ (roadStep primary tiles end_ current) tiles
  end.

(** The loop [for (let i = 0; i < towns.length - 1; i++)] over consecutive
    towns. *)
Fixpoint generateRoads (tiles : list (list Tile.t))
    (towns : list PointOfInterest.t) : Rand (list (list Tile.t)) :=
  match towns with
  | t1 :: ((t2 :: _) as rest) =>
      let start := PointOfInterest.position t1 in
      let end_ := PointOfInterest.position t2 in
      tiles ← roadWalk (Z.to_nat (manhattanDistance start end_)) end_ start tiles;
      generateRoads tiles rest
  | _ => mret tiles
  end.

Section Seeded.

(** The [seedrandom] package: the stream of draws of a seed. *)
Variable seedrandom : string -> nat -> Q.

(** [new SeededRandom(seed)] *)
Definition newSeededRandom (seed : string) : SeededRandom.t :=
  SeededRandom.mk (seedrandom seed) 0.

Definition generateWorld (config : WorldGenConfig.t) : WorldMap.t :=
  fst
    ((noise ← SimplexNoise.new;
      tiles ← generateTerrain (WorldGenConfig.width config)
                (WorldGenConfig.height config) noise;
      towns ← generateTowns tiles (WorldGenConfig.numTowns config);
      enemyCamps ← generateEnemyCamps tiles
                     (WorldGenConfig.numEnemyCamps config) towns;
      resourceNodes ← generateResourceNodes tiles
                        (WorldGenConfig.numResourceNodes config)
                        towns enemyCamps;
      neutralEncounters ← generateNeutralEncounters tiles
                            (WorldGenConfig.numNeutralEncounters config)
                            towns enemyCamps resourceNodes;
      let allPOIs := towns ++ enemyCamps ++ neutralEncounters in
      let tiles :=
        foldl (fun tiles poi =>
                 updateTile (PointOfInterest.position poi)
                   (Tile.set_pointOfInterest (Some poi)) tiles)
              tiles allPOIs in
      let tiles :=
        foldl (fun tiles node =>
                 updateTile (ResourceNode.position node)
                   (Tile.set_resourceNode (Some node)) tiles)
              tiles resourceNodes in
      tiles ← generateRoads tiles towns;
      mret
        (WorldMap.mk (WorldGenConfig.width config)
           (WorldGenConfig.height config) tiles allPOIs resourceNodes
           (WorldGenConfig.seed config)))
     (newSeededRandom (WorldGenConfig.seed config))).

End Seeded.

(** [getDefaultWorldGenConfig(seed)] for a given, non-empty seed (the
    fallback [Date.now().toString()] is the caller's to supply). *)
Definition getDefaultWorldGenConfig (seed : string) : WorldGenConfig.t :=
  WorldGenConfig.mk 64 64 seed 6 12 20 8.


(** ** store/gameStore.ts *)

(** How a command ends: it returns a value, or a [TypeError] is raised.  In
    both cases [state] is the committed state afterwards; a recipe that
    raises commits nothing. *)
Inductive Completion (A : Type) : Type :=
| Returns (value : A) (state : GameState.t)
| TypeError (state : GameState.t).
Arguments Returns {A} value state.
Arguments TypeError {A} state.

Definition stateAfter {A} (c : Completion A) : GameState.t :=
  match c with
  | Returns _ s => s
  | TypeError s => s
  end.

(** What the commands read from the environment: the draws of
    [Math.random()] and the readings of [Date.now()], in the order they are
    asked for. *)
Module Ambient.
Record t := mk { mathRandom : nat -> Q; dateNow : nat -> Z }.
End Ambient.

(** [Math.max(a, b)] *)
Definition maxQ (a b : Q) : Q := if Qltb a b then b else a.

Definition heroNames : list string :=
  ["Alaric"; "Seraphina"; "Magnus"; "Elena"; "Theron"; "Lyra"].

Definition createInitialHero (factionId : FactionId.t) (position : Position.t)
    : Rand Hero.t :=
  id ← randomId;
  name ← randomElement "undefined" heroNames;
  warriorId ← randomId;
  archerId ← randomId;
  mret
    (Hero.mk ("hero_" +:+ id) name 1 0 100 position 10 10
       [ Unit.set_count 10
           (Unit.set_id ("unit_" +:+ warriorId) (UNIT_TEMPLATES UnitType.warrior));
         Unit.set_count 5
           (Unit.set_id ("unit_" +:+ archerId) (UNIT_TEMPLATES UnitType.archer)) ]
       (HeroBonuses.mk 0 0 0 0) factionId).

Definition isTownOf (f : FactionId.t) (poi : PointOfInterest.t) : bool :=
  bool_decide (PointOfInterest.type poi = PointOfInterestType.town)
  && bool_decide (PointOfInterest.factionId poi = f).

Definition createInitialFactions (worldMap : WorldMap.t) : Rand (list Faction.t) :=
  (* Find player start town *)
  let playerTown :=
    find (isTownOf FactionId.player) (WorldMap.pointsOfInterest worldMap) in
  let playerStartPos :=
    from_option PointOfInterest.position (Position.mk 10 10) playerTown in
  (* Find a position for enemy hero *)
  let enemyTowns :=
    filter (fun poi => isTownOf FactionId.neutral poi = true)
      (WorldMap.pointsOfInterest worldMap) in
  let enemyStartPos :=
    from_option PointOfInterest.position (Position.mk 50 50) (head enemyTowns) in
  playerHero ← createInitialHero FactionId.player playerStartPos;
  enemyHero ← createInitialHero FactionId.enemy_1 enemyStartPos;
  mret
    [ Faction.mk FactionId.player "Kingdom of Light" "#4a90d9"
        (Resources.mk 1000 200 100 50) [playerHero]
        (from_option (fun t => [PointOfInterest.id t]) [] playerTown) false;
      Faction.mk FactionId.enemy_1 "Dark Legion" "#d94a4a"
        (Resources.mk 800 150 80 30) [enemyHero] [] true ].

(** The state the store is created with. *)
Definition initialState : GameState.t :=
  GameState.mk 1 FactionId.player
    (WorldMap.mk 0 0 [] [] [] EmptyString)
    [] None None GamePhase.menu
    (VictoryCondition.mk VictoryCondition.conquest None) false None.

(** [Partial<GameConfig>] *)
Module PartialGameConfig.
Record t := mk {
  mapWidth : option Z; mapHeight : option Z; seed : option string;
  playerFactionId : option FactionId.t;
  difficulty : option GameConfig.difficultyTag;
  enableFogOfWar : option bool }.
End PartialGameConfig.

(** [v || d] for a number: [undefined] and [0] give [d]. *)
Definition orNumber (v : option Z) (d : Z) : Z :=
  match v with
  | Some n => if n =? 0 then d else n
  | None => d
  end.

(** [v || d] for a string: [undefined] and the empty string give [d]. *)
Definition orString (v : option string) (d : string) : string :=
  match v with
  | Some EmptyString | None => d
  | Some s => s
  end.

Section Store.

Variable seedrandom : string -> nat -> Q.

(** Initialize game; [now] is the reading of [Date.now()]. *)
Definition initGame (now : Z) (config : PartialGameConfig.t)
    (state : GameState.t) : GameState.t :=
  let fullConfig :=
    GameConfig.mk
      (orNumber (PartialGameConfig.mapWidth config) 64)
      (orNumber (PartialGameConfig.mapHeight config) 64)
      (orString (PartialGameConfig.seed config) (pretty now))
      (default FactionId.player (PartialGameConfig.playerFactionId config))
      (default GameConfig.normal (PartialGameConfig.difficulty config))
      (default true (PartialGameConfig.enableFogOfWar config)) in
  let worldGenConfig :=
    WorldGenConfig.set_size (GameConfig.mapWidth fullConfig)
      (GameConfig.mapHeight fullConfig)
      (getDefaultWorldGenConfig (GameConfig.seed fullConfig)) in
  let worldMap := generateWorld seedrandom worldGenConfig in
  let rng := newSeededRandom seedrandom (GameConfig.seed fullConfig) in
  let factions := fst (createInitialFactions worldMap rng) in
  GameState.mk 1 FactionId.player worldMap factions
    (GameState.combatState state)
    (match factions with
     | f :: _ => Hero.id <$> head (Faction.heroes f)
     | [] => None
     end)
    GamePhase.world_map (GameState.victoryCondition state) false None.

End Store.

(** Select hero *)
Definition selectHero (heroId : option string) (state : GameState.t)
    : GameState.t :=
  GameState.set_selectedHeroId heroId state.

(** Utility: Get hero by ID *)
Definition getHero (state : GameState.t) (heroId : string) : option Hero.t :=
  snd <$> list_find (fun h => Hero.id h = heroId)
            (flat_map Faction.heroes (GameState.factions state)).

(** Where the hero [getHero] finds sits in a faction list: the index of its
    faction and its index among that faction's heroes. *)
Fixpoint heroPath (heroId : string) (factions : list Faction.t)
    : option (nat * nat * Hero.t) :=
  match factions with
  | [] => None
  | f :: rest =>
      match list_find (fun h => Hero.id h = heroId) (Faction.heroes f) with
      | Some (hi, h) => Some (O, hi, h)
      | None =>
          match heroPath heroId rest with
          | Some (fi, hi, h) => Some (S fi, hi, h)
          | None => None
          end
      end
  end.

(** Utility: Get faction by ID *)
Definition getFaction (state : GameState.t) (factionId : FactionId.t)
    : option Faction.t :=
  snd <$> list_find (fun f => Faction.id f = factionId)
            (GameState.factions state).

(** Utility: Get tile at position *)
Definition getTileAt (state : GameState.t) (position : Position.t)
    : option Tile.t :=
  let worldMap := GameState.worldMap state in
  if (Position.x position <? 0)
     || (Position.x position >=? WorldMap.width worldMap)
     || (Position.y position <? 0)
     || (Position.y position >=? WorldMap.height worldMap)
  then None
  else
    row ← WorldMap.tiles worldMap !! Z.to_nat (Position.y position);
    row !! Z.to_nat (Position.x position).

Definition neighbors (pos : Position.t) : list Position.t :=
  [ Position.mk (Position.x pos + 1) (Position.y pos);
    Position.mk (Position.x pos - 1) (Position.y pos);
    Position.mk (Position.x pos) (Position.y pos + 1);
    Position.mk (Position.x pos) (Position.y pos - 1) ].

(** What one neighbour adds to the queue: [newCost <= hero.movementPoints]
    never holds for an infinite cost. *)
Definition enqueue (state : GameState.t) (movementPoints cost : Q)
    (neighbor : Position.t) : list (Position.t * Q) :=
  match getTileAt state neighbor with
  | Some tile =>
      if Tile.isPassable tile then
        match Tile.movementCost tile with
        | Cost.Finite c =>
            let newCost := (cost + c)%Q in
            if Qleb newCost movementPoints then [(neighbor, newCost)] else []
        | Cost.Infinity => []
        end
      else []
  | None => []
  end.

(** The loop [while (queue.length > 0)] of [getMovementRange]; [visited] is
    the set of ["x,y"] keys, kept as the positions themselves.  [fuel] bounds
    the number of iterations; [None] means it ran out. *)
Fixpoint searchLoop (fuel : nat) (state : GameState.t) (hero : Hero.t)
    (queue : list (Position.t * Q)) (visited reachable : list Position.t)
    : option (list Position.t) :=
  match queue with
  | [] => Some reachable
  | (pos, cost) :: queue =>
      match fuel with
      | O => None
      | S fuel =>
          if bool_decide (pos ∈ visited)
          then searchLoop fuel state hero queue visited reachable
          else
            let visited := pos :: visited in
            if Qleb cost (Hero.movementPoints hero) then
              let reachable :=
                if negb (Position.x pos =? Position.x (Hero.position hero))
                   || negb (Position.y pos =? Position.y (Hero.position hero))
                then reachable ++ [pos] else reachable in
              (* Check neighbors *)
              searchLoop fuel state hero
                (queue ++
                 flat_map (enqueue state (Hero.movementPoints hero) cost)
                   (neighbors pos))
                visited reachable
            else searchLoop fuel state hero queue visited reachable
      end
  end.

(** Enough iterations for any search on this map (see
    [searchLoop_terminates]). *)
Definition searchFuel (state : GameState.t) : nat :=
  let worldMap := GameState.worldMap state in
  (5 * (Z.to_nat (WorldMap.width worldMap)
        * Z.to_nat (WorldMap.height worldMap) + 1) + 2)%nat.

(** Utility: Get movement range for hero *)
Definition getMovementRange (state : GameState.t) (heroId : string)
    : list Position.t :=
  match getHero state heroId with
  | None => []
  | Some hero =>
      default []
        (searchLoop (searchFuel state) state hero
           [(Hero.position hero, 0%Q)] [] [])
  end.

(** Utility: Check if hero can move to position *)
Definition canMoveTo (state : GameState.t) (heroId : string)
    (position : Position.t) : bool :=
  existsb (fun p =>
    (Position.x p =? Position.x position)
    && (Position.y p =? Position.y position))
    (getMovementRange state heroId).

(** [points >= cost] *)
Definition affordsMove (points : Q) (cost : Cost.t) : bool :=
  match cost with
  | Cost.Finite c => Qleb c points
  | Cost.Infinity => false
  end.

(** [points - cost], for a cost that [affordsMove] accepted *)
Definition payMove (points : Q) (cost : Cost.t) : Q :=
  match cost with
  | Cost.Finite c => (points - c)%Q
  | Cost.Infinity => points
  end.

(** [f] applied to the hero at index [hi] of the faction at index [fi] *)
Definition updateHero (fi hi : nat) (f : Hero.t -> Hero.t)
    (factions : list Faction.t) : list Faction.t :=
  alter (fun faction =>
           Faction.set_heroes (alter f hi (Faction.heroes faction)) faction)
        fi factions.

(** Move hero.  [hero] and [tile] are read from [get()], the committed
    state; the recipe looks the hero up again in the draft and moves that
    one, but marks the point of interest through [tile]: the assignment
    [poi.isDiscovered = true] is to a frozen object, it raises and the
    draft is dropped. *)
Definition moveHero (heroId : string) (targetPosition : Position.t)
    (state : GameState.t) : Completion bool :=
  match getHero state heroId with
  | None => Returns false state
  | Some hero =>
      if negb (canMoveTo state heroId targetPosition)
      then Returns false state
      else
        match getTileAt state targetPosition with
        | None => Returns false state
        | Some tile =>
            let movementCost := Tile.movementCost tile in
            match
              '(fi, faction) ←
                 list_find (fun f => Faction.id f = Hero.factionId hero)
                   (GameState.factions state);
              '(hi, heroToMove) ←
                 list_find (fun h => Hero.id h = heroId)
                   (Faction.heroes faction);
              Some (fi, hi, heroToMove)
            with
            | Some (fi, hi, heroToMove) =>
                if affordsMove (Hero.movementPoints heroToMove) movementCost
                then
                  let draft :=
                    GameState.set_factions
                      (updateHero fi hi
                         (fun h =>
                            Hero.set_movementPoints
                              (payMove (Hero.movementPoints h) movementCost)
                              (Hero.set_position targetPosition h))
                         (GameState.factions state))
                      state in
                  (* Check for POI interaction *)
                  match Tile.pointOfInterest tile with
                  | Some poi => TypeError state
                  | None => Returns true draft
                  end
                else Returns true state
            | None => Returns true state
            end
        end
  end.

(** Collect resources from owned nodes *)
Definition collect (nodes : list ResourceNode.t) (faction : Faction.t)
    : Faction.t :=
  Faction.set_resources
    (foldl (fun resources node =>
              if ResourceNode.isOwned node
                 && bool_decide (ResourceNode.ownedBy node = Some (Faction.id faction))
              then Resources.add (ResourceNode.resourceType node)
                     (ResourceNode.amountPerTurn node) resources
              else resources)
           (Faction.resources faction) nodes)
    faction.

(** Reset movement points for next faction's heroes *)
Definition resetMovement (faction : Faction.t) : Faction.t :=
  Faction.set_heroes
    (map (fun hero =>
            Hero.set_movementPoints (Hero.maxMovementPoints hero) hero)
         (Faction.heroes faction))
    faction.

(** [factions.findIndex(f => f.id === id)] *)
Definition findIndex (factionId : FactionId.t) (factions : list Faction.t) : Z :=
  match list_find (fun f => Faction.id f = factionId) factions with
  | Some (i, _) => Z.of_nat i
  | None => -1
  end.

(** [(currentIndex + 1) % factions.length]; with no faction the remainder is
    [NaN], which indexes nothing, as does the [0] used for it here. *)
Definition nextIndex (state : GameState.t) : nat :=
  Z.to_nat
    ((findIndex (GameState.currentFaction state) (GameState.factions state) + 1)
     mod Z.of_nat (length (GameState.factions state))).

(** End turn: the recipe.  With an empty roster [nextFaction] is
    [undefined] and [nextFaction.id] raises.  What follows the recipe only
    schedules a later [endTurn] when an AI faction is to act; it changes
    nothing now. *)
Definition endTurn (state : GameState.t) : Completion unit :=
  match GameState.factions state !! nextIndex state with
  | None => TypeError state
  | Some nextFaction =>
      let cycled := bool_decide (Faction.id nextFaction = FactionId.player) in
      (* If we've cycled back to player, increment turn *)
      let turn :=
        if cycled then Double.add (GameState.turn state) 1
        else GameState.turn state in
      let factions :=
        if cycled
        then map (collect (WorldMap.resourceNodes (GameState.worldMap state)))
               (GameState.factions state)
        else GameState.factions state in
      let factions := alter resetMovement (nextIndex state) factions in
      Returns tt
        (GameState.set_selectedHeroId
           (match Faction.heroes nextFaction with
            | hero :: _ => Some (Hero.id hero)
            | [] => GameState.selectedHeroId state
            end)
           (GameState.set_currentFaction (Faction.id nextFaction)
              (GameState.set_factions factions
                 (GameState.set_turn turn state))))
  end.

(** Convert units to combat units *)
Definition toCombatUnits (column : Z) (units : list Unit.t) : list CombatUnit.t :=
  imap (fun i unit =>
          CombatUnit.mk unit (Position.mk column (Z.of_nat i)) false false [])
       units.

(** [sort((a, b) => b.stats.speed - a.stats.speed)]: a stable sort, fastest
    first. *)
Fixpoint insertBySpeed (u : CombatUnit.t) (sorted : list CombatUnit.t)
    : list CombatUnit.t :=
  match sorted with
  | [] => [u]
  | v :: rest =>
      if Qleb (UnitStats.speed (CombatUnit.stats v))
              (UnitStats.speed (CombatUnit.stats u))
      then u :: v :: rest
      else v :: insertBySpeed u rest
  end.

Definition sortBySpeed (units : list CombatUnit.t) : list CombatUnit.t :=
  foldr insertBySpeed [] units.

(** Start combat *)
Definition startCombat (attackerId : string)
    (defenderId : string + PointOfInterest.t) (state : GameState.t)
    : GameState.t :=
  match getHero state attackerId with
  | None => state
  | Some attacker =>
      let found : option ((Hero.t + PointOfInterest.t) * list Unit.t) :=
        match defenderId with
        | inl heroId =>
            (fun h => (inl h, Hero.crew h)) <$> getHero state heroId
        | inr poi => Some (inr poi, default [] (PointOfInterest.garrison poi))
        end in
      match found with
      | None => state
      | Some (defender, defenderUnits) =>
          let attackerCombatUnits := toCombatUnits 0 (Hero.crew attacker) in
          let defenderCombatUnits := toCombatUnits 7 defenderUnits in
          (* Create turn order based on speed *)
          let allUnits := attackerCombatUnits ++ defenderCombatUnits in
          let turnOrder := sortBySpeed allUnits in
          GameState.set_gamePhase GamePhase.combat
            (GameState.set_combatState
               (Some
                  (CombatState.mk true attacker defender attackerCombatUnits
                     defenderCombatUnits Side.attacker 0 turnOrder [] 8 6))
               state)
      end
  end.

(** [[...combatState.attackerUnits, ...combatState.defenderUnits]] *)
Definition allUnits (combatState : CombatState.t) : list CombatUnit.t :=
  CombatState.attackerUnits combatState ++ CombatState.defenderUnits combatState.

(** [[...attackerUnits, ...defenderUnits].find((u) => u.id === id)].  The
    unit found is a draft of a roster entry; it is known by its index in the
    concatenation of the rosters. *)
Definition findUnit (combatState : CombatState.t) (id : string)
    : option (nat * CombatUnit.t) :=
  list_find (fun u => CombatUnit.id u = id) (allUnits combatState).

(** An assignment through the draft of the roster entry at index [i] *)
Definition updateUnit (i : nat) (f : CombatUnit.t -> CombatUnit.t)
    (combatState : CombatState.t) : CombatState.t :=
  let n := length (CombatState.attackerUnits combatState) in
  if (i <? n)%nat
  then CombatState.set_attackerUnits
         (alter f i (CombatState.attackerUnits combatState)) combatState
  else CombatState.set_defenderUnits
         (alter f (i - n)%nat (CombatState.defenderUnits combatState))
         combatState.

(** Remove dead units: [includes] tells the roster, [splice(index, 1)]
    removes the entry. *)
Definition removeUnit (i : nat) (combatState : CombatState.t) : CombatState.t :=
  let n := length (CombatState.attackerUnits combatState) in
  if (i <? n)%nat
  then CombatState.set_attackerUnits
         (delete i (CombatState.attackerUnits combatState)) combatState
  else CombatState.set_defenderUnits
         (delete (i - n)%nat (CombatState.defenderUnits combatState))
         combatState.

(** Where the roster entry of index [i] is once the entry of index [k] has
    been spliced out: nowhere if it was that entry. *)
Definition afterSplice (k i : nat) : option nat :=
  if (i <? k)%nat then Some i
  else if (i =? k)%nat then None
  else Some (i - 1)%nat.

Definition damageOf (sourceUnit targetUnit : CombatUnit.t) : Q :=
  maxQ 1
    (UnitStats.attack (CombatUnit.stats sourceUnit)
       * inject_Z (CombatUnit.count sourceUnit)
     - UnitStats.defense (CombatUnit.stats targetUnit))%Q.

Definition unitsKilledBy (damage : Q) (targetUnit : CombatUnit.t) : Z :=
  let hpPerUnit :=
    UnitStats.maxHp (Unit.stats (UNIT_TEMPLATES (CombatUnit.type targetUnit))) in
  Qfloor (damage / hpPerUnit).

(** [targetUnit.stats.hp -= damage] and
    [targetUnit.count = Math.max(0, targetUnit.count - unitsKilled)] *)
Definition hit (damage : Q) (targetUnit : CombatUnit.t) : CombatUnit.t :=
  let u := CombatUnit.unit targetUnit in
  let stats := UnitStats.set_hp (UnitStats.hp (Unit.stats u) - damage)%Q (Unit.stats u) in
  CombatUnit.set_unit
    (Unit.set_count
       (Z.max 0 (Unit.count u - unitsKilledBy damage targetUnit))
       (Unit.set_stats stats u))
    targetUnit.

Definition isDead (u : CombatUnit.t) : bool :=
  (CombatUnit.count u <=? 0) || Qleb (UnitStats.hp (CombatUnit.stats u)) 0.

(** The case ['attack'] for the source at index [i].  Returns the combat
    state and where the source's roster entry is afterwards.  In the log
    entry, [turnOrder.indexOf(sourceUnit)] compares the drafts of the queue's
    entries with the draft of a roster entry, and finds none. *)
Definition attack (now : Z) (action : CombatAction.t) (i : nat)
    (sourceUnit : CombatUnit.t) (combatState : CombatState.t)
    : CombatState.t * option nat :=
  match CombatAction.targetUnit action with
  | None | Some EmptyString => (combatState, Some i)
  | Some targetId =>
      match findUnit combatState targetId with
      | None => (combatState, Some i)
      | Some (k, targetUnit) =>
          (* Calculate damage *)
          let damage := damageOf sourceUnit targetUnit in
          (* Apply damage, calculate casualties *)
          let combatState := updateUnit k (hit damage) combatState in
          (* Log combat *)
          let combatState :=
            CombatState.set_combatLog
              (CombatState.combatLog combatState ++
               [CombatLogEntry.mk (-1)
                  (CombatLogEntry.deals (CombatUnit.name sourceUnit) damage
                     (CombatUnit.name targetUnit))
                  now])
              combatState in
          (* Remove dead units *)
          if isDead (hit damage targetUnit)
          then (removeUnit k combatState, afterSplice k i)
          else (combatState, Some i)
      end
  end.

(** The case ['defend'] *)
Definition defend (u : CombatUnit.t) : CombatUnit.t :=
  let unit := CombatUnit.unit u in
  CombatUnit.set_unit
    (Unit.set_stats
       (UnitStats.set_defense
          (UnitStats.defense (Unit.stats unit) * (3 # 2))%Q (Unit.stats unit))
       unit)
    (CombatUnit.set_isDefending true u).

(** If all units have acted, reset for next round *)
Definition resetRound (u : CombatUnit.t) : CombatUnit.t :=
  CombatUnit.set_isDefending false (CombatUnit.set_hasActed false u).

(** What follows the [switch]: the source is marked, the index advances and
    the round may be reset.  ([x % 0] is [NaN] in JavaScript; a queue built by
    [startCombat] is empty only if both rosters are.) *)
Definition finishAction (source : option nat) (combatState : CombatState.t)
    : CombatState.t :=
  let combatState :=
    match source with
    | Some i => updateUnit i (CombatUnit.set_hasActed true) combatState
    | None => combatState
    end in
  (* Check for combat end *)
  if bool_decide (length (CombatState.attackerUnits combatState) = 0%nat)
     || bool_decide (length (CombatState.defenderUnits combatState) = 0%nat)
  then combatState
  else
    (* Next unit *)
    let combatState :=
      CombatState.set_currentUnitIndex
        ((CombatState.currentUnitIndex combatState + 1)
         mod Z.of_nat (length (CombatState.turnOrder combatState)))
        combatState in
    let allActed := forallb CombatUnit.hasActed (CombatState.turnOrder combatState) in
    if allActed
    then CombatState.set_turnOrder
           (map resetRound (CombatState.turnOrder combatState)) combatState
    else combatState.

(** The recipe of [executeCombatAction] on the combat state *)
Definition combatStep (now : Z) (action : CombatAction.t)
    (combatState : CombatState.t) : CombatState.t :=
  match findUnit combatState (CombatAction.sourceUnit action) with
  | None => combatState
  | Some (i, sourceUnit) =>
      if CombatUnit.hasActed sourceUnit then combatState
      else
        let '(combatState, source) :=
          match CombatAction.type action with
          | ActionType.move =>
              match CombatAction.targetPosition action with
              | Some p =>
                  (updateUnit i (CombatUnit.set_combatPosition p) combatState,
                   Some i)
              | None => (combatState, Some i)
              end
          | ActionType.attack => attack now action i sourceUnit combatState
          | ActionType.defend => (updateUnit i defend combatState, Some i)
          | ActionType.wait => (combatState, Some i)
          | ActionType.ability => (combatState, Some i)
          end in
        finishAction source combatState
  end.

(** Execute combat action; [now] is the reading of [Date.now()]. *)
Definition executeCombatAction (now : Z) (action : CombatAction.t)
    (state : GameState.t) : GameState.t :=
  match GameState.combatState state with
  | None => state
  | Some combatState =>
      GameState.set_combatState (Some (combatStep now action combatState)) state
  end.

(** The number of entries in the combat log *)
Definition logged (state : GameState.t) : nat :=
  match GameState.combatState state with
  | Some combatState => length (CombatState.combatLog combatState)
  | None => 0%nat
  end.

(** One [for] loop of [runAutoBattle]: every unit of [units] attacks a random
    member of [enemies].  Both lists were read from the committed state
    before the loop and do not change.  [n] counts the calls of
    [Math.random()] so far and [k] those of [Date.now()], which
    [executeCombatAction] reads when it pushes a log entry and only then;
    the flag is [false] when [target.id] raised for a missing target. *)
Fixpoint attackAll (env : Ambient.t) (enemies units : list CombatUnit.t)
    (n k : nat) (state : GameState.t) : nat * nat * GameState.t * bool :=
  match units with
  | [] => (n, k, state, true)
  | unit :: rest =>
      if bool_decide (length enemies = 0%nat) then (n, k, state, true)
      else
        let index :=
          Qfloor (Ambient.mathRandom env n * inject_Z (Z.of_nat (length enemies))) in
        match (if index <? 0 then None else enemies !! Z.to_nat index) with
        | None => (S n, k, state, false)
        | Some target =>
            let after :=
              executeCombatAction (Ambient.dateNow env k)
                (CombatAction.mk ActionType.attack (CombatUnit.id unit) None
                   (Some (CombatUnit.id target)))
                state in
            attackAll env enemies rest (S n)
              (if (logged state <? logged after)%nat then S k else k) after
        end
  end.

(** The loop [while (maxRounds > 0)].  The result is the numbers of draws
    and of clock readings, the state, and whether the loop ended without
    raising. *)
Fixpoint autoRounds (env : Ambient.t) (maxRounds : nat) (n k : nat)
    (state : GameState.t) : nat * nat * GameState.t * bool :=
  match maxRounds with
  | O => (n, k, state, true)
  | S maxRounds =>
      match GameState.combatState state with
      | None => (n, k, state, true)
      | Some combat =>
          if bool_decide (length (CombatState.attackerUnits combat) = 0%nat)
             || bool_decide (length (CombatState.defenderUnits combat) = 0%nat)
          then (n, k, state, true)
          else
            (* Each unit attacks *)
            match attackAll env (CombatState.defenderUnits combat)
                    (CombatState.attackerUnits combat) n k state with
            | (n, k, state, false) => (n, k, state, false)
            | (n, k, state, true) =>
                match GameState.combatState state with
                | None => (n, k, state, true)
                | Some combatAfterAttack =>
                    if bool_decide
                         (length (CombatState.defenderUnits combatAfterAttack) = 0%nat)
                    then (n, k, state, true)
                    else
                      match attackAll env
                              (CombatState.attackerUnits combatAfterAttack)
                              (CombatState.defenderUnits combatAfterAttack)
                              n k state with
                      | (n, k, state, false) => (n, k, state, false)
                      | (n, k, state, true) => autoRounds env maxRounds n k state
                      end
                end
            end
      end
  end.

(** Run auto battle *)
Definition runAutoBattle (env : Ambient.t) (state : GameState.t)
    : Completion (option CombatResult.t) :=
  match GameState.combatState state with
  | None => Returns None state
  | Some _ =>
      match autoRounds env 20 0 0 state with
      | (_, _, state, false) => TypeError state
      | (_, _, state, true) =>
          match GameState.combatState state with
          | None => Returns None state
          | Some finalCombat =>
              let winner :=
                if (0 <? length (CombatState.attackerUnits finalCombat))%nat
                then Side.attacker else Side.defender in
              Returns
                (Some
                   (CombatResult.mk winner [] []
                      (if bool_decide (winner = Side.attacker) then 50 else 0)
                      (if bool_decide (winner = Side.attacker)
                       then Resources.mk 100 20 10 5
                       else Resources.mk 0 0 0 0)))
                state
          end
      end
  end.

(** [Math.floor(n * 1.5)]: the product [3 n / 2] has the significand of
    [3 n], so the double nearest to it is half the one nearest to [3 n]. *)
Definition floorTimesOneAndAHalf (n : Z) : Z := Double.round (3 * n) / 2.

(** Add experience, level up check *)
Definition gainExperience (gained : Z) (attacker : Hero.t) : Hero.t :=
  let experience := Double.add (Hero.experience attacker) gained in
  if experience >=? Hero.experienceToNext attacker
  then
    Hero.set_progress (Double.add (Hero.level attacker) 1)
      (Double.sub experience (Hero.experienceToNext attacker))
      (floorTimesOneAndAHalf (Hero.experienceToNext attacker))
      (HeroBonuses.mk
         (Double.add (HeroBonuses.attackBonus (Hero.bonuses attacker)) 1)
         (Double.add (HeroBonuses.defenseBonus (Hero.bonuses attacker)) 1)
         (HeroBonuses.movementBonus (Hero.bonuses attacker))
         (HeroBonuses.moraleBonus (Hero.bonuses attacker)))
      attacker
  else
    Hero.set_progress (Hero.level attacker) experience
      (Hero.experienceToNext attacker) (Hero.bonuses attacker) attacker.

(** Add resources *)
Definition loot (looted : Resources.t) (faction : Faction.t) : Faction.t :=
  let r := Faction.resources faction in
  Faction.set_resources
    (Resources.mk
       (Double.add (Resources.gold r) (Resources.gold looted))
       (Double.add (Resources.wood r) (Resources.wood looted))
       (Double.add (Resources.stone r) (Resources.stone looted))
       (Double.add (Resources.crystals r) (Resources.crystals looted)))
    faction.

(** [f] applied to the first faction whose id is [factionId], if any *)
Definition updateFaction (factionId : FactionId.t) (f : Faction.t -> Faction.t)
    (factions : list Faction.t) : list Faction.t :=
  match list_find (fun g => Faction.id g = factionId) factions with
  | Some (i, _) => alter f i factions
  | None => factions
  end.

(** End combat *)
Definition endCombat (result : CombatResult.t) (state : GameState.t)
    : GameState.t :=
  match GameState.combatState state with
  | None => state
  | Some combatState =>
      let factions :=
        match heroPath (Hero.id (CombatState.attacker combatState))
                (GameState.factions state) with
        | Some (fi, hi, attacker) =>
            if bool_decide (CombatResult.winner result = Side.attacker) then
              let factions :=
                updateHero fi hi (gainExperience (CombatResult.experienceGained result))
                  (GameState.factions state) in
              let factions :=
                updateFaction (Hero.factionId attacker)
                  (loot (CombatResult.resourcesLooted result)) factions in
              (* Update crew with surviving units *)
              updateHero fi hi
                (Hero.set_crew
                   (map CombatUnit.unit (CombatState.attackerUnits combatState)))
                factions
            else GameState.factions state
        | None => GameState.factions state
        end in
      GameState.set_gamePhase GamePhase.world_map
        (GameState.set_combatState None
           (GameState.set_factions factions state))
  end.

(** Enter town *)
Definition enterTown (townId : string) (state : GameState.t) : GameState.t :=
  match
    find (fun poi =>
            bool_decide (PointOfInterest.id poi = townId)
            && bool_decide (PointOfInterest.type poi = PointOfInterestType.town))
         (WorldMap.pointsOfInterest (GameState.worldMap state))
  with
  | Some _ => GameState.set_gamePhase GamePhase.town state
  | None => state
  end.

(** Leave town *)
Definition leaveTown (state : GameState.t) : GameState.t :=
  GameState.set_gamePhase GamePhase.world_map state.

(** Add resources: [if (resources.gold)] skips a missing amount and [0]. *)
Definition addResources (factionId : FactionId.t)
    (resources : PartialResources.t) (state : GameState.t) : GameState.t :=
  let plus (have : Z) (amount : option Z) : Z :=
    match amount with
    | Some a => if a =? 0 then have else Double.add have a
    | None => have
    end in
  GameState.set_factions
    (updateFaction factionId
       (fun faction =>
          let r := Faction.resources faction in
          Faction.set_resources
            (Resources.mk
               (plus (Resources.gold r) (PartialResources.gold resources))
               (plus (Resources.wood r) (PartialResources.wood resources))
               (plus (Resources.stone r) (PartialResources.stone resources))
               (plus (Resources.crystals r) (PartialResources.crystals resources)))
            faction)
       (GameState.factions state))
    state.

(** [resources.kind === undefined || have >= resources.kind] *)
Definition covers (have : Z) (amount : option Z) : bool :=
  match amount with
  | None => true
  | Some a => have >=? a
  end.

Definition canAfford (have : Resources.t) (resources : PartialResources.t) : bool :=
  covers (Resources.gold have) (PartialResources.gold resources)
  && covers (Resources.wood have) (PartialResources.wood resources)
  && covers (Resources.stone have) (PartialResources.stone resources)
  && covers (Resources.crystals have) (PartialResources.crystals resources).

(** The recipe of [spendResources]: [if (resources.gold)] skips a missing
    amount and [0]. *)
Definition deduct (resources : PartialResources.t) (faction : Faction.t)
    : Faction.t :=
  let minus (have : Z) (amount : option Z) : Z :=
    match amount with
    | Some a => if a =? 0 then have else Double.sub have a
    | None => have
    end in
  let r := Faction.resources faction in
  Faction.set_resources
    (Resources.mk
       (minus (Resources.gold r) (PartialResources.gold resources))
       (minus (Resources.wood r) (PartialResources.wood resources))
       (minus (Resources.stone r) (PartialResources.stone resources))
       (minus (Resources.crystals r) (PartialResources.crystals resources)))
    faction.

(** Spend resources *)
Definition spendResources (factionId : FactionId.t)
    (resources : PartialResources.t) (state : GameState.t)
    : bool * GameState.t :=
  match getFaction state factionId with
  | None => (false, state)
  | Some faction =>
      if negb (canAfford (Faction.resources faction) resources)
      then (false, state)
      else
        (true,
         GameState.set_factions
           (updateFaction factionId (deduct resources)
              (GameState.factions state))
           state)
  end.

(** The unit type a string names, if any *)
Definition unitTypeOfString (s : string) : option UnitType.t :=
  if String.eqb s "warrior" then Some UnitType.warrior
  else if String.eqb s "archer" then Some UnitType.archer
  else if String.eqb s "cavalry" then Some UnitType.cavalry
  else if String.eqb s "mage" then Some UnitType.mage
  else if String.eqb s "healer" then Some UnitType.healer
  else None.

(** Find or create unit stack in hero's crew *)
Definition enlist (now : Z) (unitType : UnitType.t) (count : Z)
    (draftHero : Hero.t) : Hero.t :=
  match list_find (fun u => Unit.type u = unitType) (Hero.crew draftHero) with
  | Some (i, _) =>
      Hero.set_crew
        (alter (fun u => Unit.set_count (Double.add (Unit.count u) count) u) i
           (Hero.crew draftHero))
        draftHero
  | None =>
      Hero.set_crew
        (Hero.crew draftHero ++
         [Unit.set_count count
            (Unit.set_id ("unit_" +:+ pretty now) (UNIT_TEMPLATES unitType))])
        draftHero
  end.

(** Update recruit pool *)
Definition drawFromPool (unitType : UnitType.t) (count : Z)
    (draftTown : PointOfInterest.t) : PointOfInterest.t :=
  match PointOfInterest.variant draftTown with
  | PoiVariant.Town recruitPool buildings resources =>
      match list_find (fun r => UnitRecruitOption.unitType r = unitType)
              recruitPool with
      | Some (i, _) =>
          PointOfInterest.set_variant
            (PoiVariant.Town
               (alter (fun r =>
                         UnitRecruitOption.set_available
                           (Double.sub (UnitRecruitOption.available r) count)
                           r)
                      i recruitPool)
               buildings resources)
            draftTown
      | None => draftTown
      end
  | _ => draftTown
  end.

(** Recruit unit; [now] is the reading of [Date.now()]. *)
Definition recruitUnit (now : Z) (townId unitType : string) (count : Z)
    (state : GameState.t) : bool * GameState.t :=
  let hero :=
    match GameState.selectedHeroId state with
    | None | Some EmptyString => None
    | Some heroId => getHero state heroId
    end in
  let faction := h ← hero; getFaction state (Hero.factionId h) in
  match hero, faction with
  | Some hero, Some faction =>
      match
        list_find (fun poi => PointOfInterest.id poi = townId)
          (WorldMap.pointsOfInterest (GameState.worldMap state))
      with
      | Some (ti, town) =>
          match PointOfInterest.variant town, unitTypeOfString unitType with
          | PoiVariant.Town recruitPool _ _, Some ty =>
              match find (fun r => bool_decide (UnitRecruitOption.unitType r = ty))
                      recruitPool with
              | Some recruitOption =>
                  if UnitRecruitOption.available recruitOption <? count
                  then (false, state)
                  else
                    let cost := UnitRecruitOption.cost recruitOption in
                    let totalCost :=
                      Resources.mk
                        (Double.mul (Resources.gold cost) count)
                        (Double.mul (Resources.wood cost) count)
                        (Double.mul (Resources.stone cost) count)
                        (Double.mul (Resources.crystals cost) count) in
                    match spendResources (Faction.id faction)
                            (PartialResources.ofResources totalCost) state with
                    | (false, _) => (false, state)
                    | (true, state) =>
                        match heroPath (Hero.id hero) (GameState.factions state) with
                        | None => (true, state)
                        | Some (fi, hi, _) =>
                            let factions :=
                              updateHero fi hi (enlist now ty count)
                                (GameState.factions state) in
                            let worldMap := GameState.worldMap state in
                            (true,
                             GameState.set_worldMap
                               (WorldMap.set_pointsOfInterest
                                  (alter (drawFromPool ty count) ti
                                     (WorldMap.pointsOfInterest worldMap))
                                  worldMap)
                               (GameState.set_factions factions state))
                        end
                    end
              | None => (false, state)
              end
          | _, _ => (false, state)
          end
      | None => (false, state)
      end
  | _, _ => (false, state)
  end.

(** ** The command surface *)

Module Command.
Inductive t :=
| initGame (now : Z) (config : PartialGameConfig.t)
| selectHero (heroId : option string)
| moveHero (heroId : string) (targetPosition : Position.t)
| endTurn
| startCombat (attackerId : string) (defenderId : string + PointOfInterest.t)
| executeCombatAction (now : Z) (action : CombatAction.t)
| runAutoBattle (env : Ambient.t)
| endCombat (result : CombatResult.t)
| enterTown (townId : string)
| leaveTown
| recruitUnit (now : Z) (townId unitType : string) (count : Z)
| addResources (factionId : FactionId.t) (resources : PartialResources.t)
| spendResources (factionId : FactionId.t) (resources : PartialResources.t).
End Command.

Section Session.

Variable seedrandom : string -> nat -> Q.

(** The committed state after a command *)
Definition execute (command : Command.t) (state : GameState.t) : GameState.t :=
  match command with
  | Command.initGame now config => initGame seedrandom now config state
  | Command.selectHero heroId => selectHero heroId state
  | Command.moveHero heroId targetPosition =>
      stateAfter (moveHero heroId targetPosition state)
  | Command.endTurn => stateAfter (endTurn state)
  | Command.startCombat attackerId defenderId =>
      startCombat attackerId defenderId state
  | Command.executeCombatAction now action =>
      executeCombatAction now action state
  | Command.runAutoBattle env => stateAfter (runAutoBattle env state)
  | Command.endCombat result => endCombat result state
  | Command.enterTown townId => enterTown townId state
  | Command.leaveTown => leaveTown state
  | Command.recruitUnit now townId unitType count =>
      snd (recruitUnit now townId unitType count state)
  | Command.addResources factionId resources =>
      addResources factionId resources state
  | Command.spendResources factionId resources =>
      snd (spendResources factionId resources state)
  end.

(** The committed state after a sequence of commands *)
Definition executeAll (commands : list Command.t) (state : GameState.t)
    : GameState.t :=
  foldl (fun s c => execute c s) state commands.

End Session.


(** ** Example data

    A four by two map, a town on it, two factions with one hero each, and a
    stream of draws; the examples below run the code on them. *)

Definition demoTown : PointOfInterest.t :=
  PointOfInterest.mk "town_a" "Ironhold" (Position.mk 2 0) FactionId.neutral
    (Some []) false
    (PoiVariant.Town
       [UnitRecruitOption.mk UnitType.warrior (Resources.mk 100 0 0 0) 5 10]
       [] (Resources.mk 0 0 0 0)).

Definition demoTile (x y : Z) (terrain : TerrainType.t)
    (poi : option PointOfInterest.t) : Tile.t :=
  Tile.mk (Position.mk x y) terrain (1 # 2) (TERRAIN_COSTS terrain)
    (TERRAIN_PASSABLE terrain) poi None.

Definition demoWorld : WorldMap.t :=
  WorldMap.mk 4 2
    [ [ demoTile 0 0 TerrainType.grass None;
        demoTile 1 0 TerrainType.road None;
        demoTile 2 0 TerrainType.grass (Some demoTown);
        demoTile 3 0 TerrainType.water None ];
      [ demoTile 0 1 TerrainType.forest None;
        demoTile 1 1 TerrainType.mountain None;
        demoTile 2 1 TerrainType.desert None;
        demoTile 3 1 TerrainType.grass None ] ]
    [demoTown] [] "demo".

Definition demoUnit (id : string) (type : UnitType.t) (count : Z) : Unit.t :=
  Unit.set_count count (Unit.set_id id (UNIT_TEMPLATES type)).

Definition demoHero : Hero.t :=
  Hero.mk "hero_a" "Alaric" 1 0 100 (Position.mk 0 0) 2 10
    [demoUnit "unit_w" UnitType.warrior 10; demoUnit "unit_m" UnitType.mage 1]
    (HeroBonuses.mk 0 0 0 0) FactionId.player.

Definition demoEnemy : Hero.t :=
  Hero.mk "hero_b" "Lyra" 1 0 100 (Position.mk 3 1) 0 10
    [demoUnit "unit_a" UnitType.archer 5; demoUnit "unit_c" UnitType.cavalry 50]
    (HeroBonuses.mk 0 0 0 0) FactionId.enemy_1.

Definition demoState : GameState.t :=
  GameState.mk 1 FactionId.player demoWorld
    [ Faction.mk FactionId.player "Kingdom of Light" "#4a90d9"
        (Resources.mk 100 200 100 50) [demoHero] [] false;
      Faction.mk FactionId.enemy_1 "Dark Legion" "#d94a4a"
        (Resources.mk 800 150 80 30) [demoEnemy] [] true ]
    None (Some "hero_a") GamePhase.world_map
    (VictoryCondition.mk VictoryCondition.conquest None) false None.



(** The battle of the two heroes *)
Definition demoBattle : GameState.t :=
  startCombat "hero_a" (inl "hero_b") demoState.

(** A stream of draws in [0, 1) *)
Definition demoStream (seed : string) (n : nat) : Q :=
  Qmake ((Z.of_nat n * 7919 + 104729 * Z.of_nat (String.length seed)) mod 1009)
        1009.

(** The warriors of [hero_a] strike the archers of [hero_b]. *)
Definition demoStrike : CombatAction.t :=
  CombatAction.mk ActionType.attack "unit_w" None (Some "unit_a").

(** A small world with two towns, a camp, a node and an encounter *)
Definition demoConfig : WorldGenConfig.t :=
  WorldGenConfig.mk 11 5 "demo" 2 1 1 1.









(** ** Notions the specification speaks of *)

(** The per-turn yield, in resource [kind], of the nodes a faction owns *)
Definition yieldOf (nodes : list ResourceNode.t) (factionId : FactionId.t)
    (kind : ResourceType.t) : Z :=
  foldr (fun node total =>
           if ResourceNode.isOwned node
              && bool_decide (ResourceNode.ownedBy node = Some factionId)
              && bool_decide (ResourceNode.resourceType node = kind)
           then ResourceNode.amountPerTurn node + total
           else total)
        0 nodes.


(** The cost of walking [path] from [from], tile by tile, added to [cost]:
    every step goes to a 4-connected neighbour whose tile is passable, and
    costs that tile's movement cost.  [None] if [path] is no such walk. *)
Fixpoint pathCost (state : GameState.t) (from : Position.t) (cost : Q)
    (path : list Position.t) : option Q :=
  match path with
  | [] => Some cost
  | next :: rest =>
      if manhattanDistance from next =? 1 then
        match getTileAt state next with
        | Some tile =>
            if Tile.isPassable tile then
              match Tile.movementCost tile with
              | Cost.Finite c => pathCost state next (cost + c)%Q rest
              | Cost.Infinity => None
              end
            else None
        | None => None
        end
      else None
  end.

(** Every position that [getTileAt] can answer for *)
Definition gridCells (worldMap : WorldMap.t) : list Position.t :=
  flat_map (fun y => map (fun x => Position.mk x y)
                         (seqZ 0 (WorldMap.width worldMap)))
           (seqZ 0 (WorldMap.height worldMap)).

(** The towns among the points of interest of a world *)
Definition townsOf (worldMap : WorldMap.t) : list PointOfInterest.t :=
  filter (fun poi => PointOfInterest.type poi = PointOfInterestType.town)
         (WorldMap.pointsOfInterest worldMap).

(** Strictly inside the border of a [width] by [height] map *)
Definition insideBorder (width height : Z) (p : Position.t) : Prop :=
  1 <= Position.x p <= width - 2 /\ 1 <= Position.y p <= height - 2.

(** A resources quadruple with no negative entry *)
Definition NonNegative (r : Resources.t) : Prop :=
  0 <= Resources.gold r /\ 0 <= Resources.wood r
  /\ 0 <= Resources.stone r /\ 0 <= Resources.crystals r.



(** ** What the clock leaves in a state *)








(** ** Two runs of a session *)


(** ** Invariants used in the proofs *)

(** [q] is where some walk from [origin] ends, at cost [c] *)
Definition Reached (state : GameState.t) (origin q : Position.t) (c : Q) : Prop :=
  exists path,
    pathCost state origin 0 path = Some c
    /\ default origin (last path) = q.

(** What the search keeps true of its queue and of its result *)
Definition SearchInvariant (state : GameState.t) (hero : Hero.t)
    (queue : list (Position.t * Q)) (reachable : list Position.t) : Prop :=
  (forall q c, (q, c) ∈ queue -> Reached state (Hero.position hero) q c)
  /\ (forall r, r ∈ reachable ->
        r <> Hero.position hero
        /\ exists c, Reached state (Hero.position hero) r c
                     /\ (c <= Hero.movementPoints hero)%Q).

(** How many of [cells] the search has not visited yet *)
Definition unvisited (cells visited : list Position.t) : nat :=
  length (filter (fun p => p ∉ visited) cells).

(** Any two entries of [l] at distinct indices are at least [d] apart. *)
Definition Spaced (d : Z) (l : list PointOfInterest.t) : Prop :=
  forall i j a b,
    i <> j -> l !! i = Some a -> l !! j = Some b ->
    d <= manhattanDistance (PointOfInterest.position a)
                           (PointOfInterest.position b).

(** No resource node is owned.  Nothing in the store ever sets
    [ResourceNode.isOwned], so this holds of every state a session can
    reach, and [endTurn] credits nothing. *)
Definition NodesUnowned (state : GameState.t) : Prop :=
  Forall (fun n => ResourceNode.isOwned n = false)
         (WorldMap.resourceNodes (GameState.worldMap state)).



(** Runs the steps of a computation in [Rand] one by one. *)
Ltac run_rand :=
  unfold mbind, mret, Rand_bind, Rand_ret;
  repeat match goal with
         | |- context [match ?t with pair _ _ => _ end] =>
             destruct t as [? ?] eqn:?
         end;
  cbn [fst snd].


(** On the grid of [tiles] *)
Definition onGrid (tiles : list (list Tile.t)) (p : Position.t) : Prop :=
  0 <= Position.x p <= rowLength tiles - 1
  /\ 0 <= Position.y p <= Z.of_nat (length tiles) - 1.

(** ** Notions used for the generator *)

(** Every draw of the generator lies in [0, 1), as the draws of a
    [seedrandom] generator do. *)
Definition UnitDraws (g : SeededRandom.t) : Prop :=
  forall n, (0 <= SeededRandom.rng g n)%Q /\ (SeededRandom.rng g n < 1)%Q.

(** The generator [g] after [n] more draws *)
Definition advance (n : nat) (g : SeededRandom.t) : SeededRandom.t :=
  SeededRandom.mk (SeededRandom.rng g) (n + SeededRandom.drawn g).

(** The characters of a string, one string each *)
Fixpoint letters (s : string) : list string :=
  match s with
  | EmptyString => []
  | String c rest => String c EmptyString :: letters rest
  end.

(** The generator made from [demoStream] for the seed ["demo"] *)
Definition demoRandom : SeededRandom.t := newSeededRandom demoStream "demo".

(** ** Notions used for generated worlds *)

(** A computation that only draws from the generator it is given: the
    stream of the generator it hands back is the same. *)
Definition Steady {A} (m : Rand A) : Prop :=
  forall g, SeededRandom.rng (snd (m g)) = SeededRandom.rng g.

(** Any two entries of [l] at distinct indices are at least [d] apart. *)
Definition spread {A} (position : A -> Position.t) (d : Z) (l : list A) : Prop :=
  forall i j a b,
    i <> j -> l !! i = Some a -> l !! j = Some b ->
    d <= manhattanDistance (position a) (position b).

(** Every entry of [la] is at least [d] away from every entry of [lb]. *)
Definition apart {A B} (pa : A -> Position.t) (pb : B -> Position.t) (d : Z)
    (la : list A) (lb : list B) : Prop :=
  Forall (fun a => Forall (fun b => d <= manhattanDistance (pa a) (pb b)) lb) la.

(** The enemy camps among the points of interest of a world *)
Definition campsOf (worldMap : WorldMap.t) : list PointOfInterest.t :=
  filter (fun poi => PointOfInterest.type poi = PointOfInterestType.enemy_camp)
         (WorldMap.pointsOfInterest worldMap).

(** The neutral encounters among the points of interest of a world *)
Definition encountersOf (worldMap : WorldMap.t) : list PointOfInterest.t :=
  filter (fun poi =>
            PointOfInterest.type poi = PointOfInterestType.neutral_encounter)
         (WorldMap.pointsOfInterest worldMap).

(** [0 <= p.x < width] and [0 <= p.y < height] *)
Definition inBounds (width height : Z) (p : Position.t) : bool :=
  (0 <=? Position.x p) && (Position.x p <? width)
  && (0 <=? Position.y p) && (Position.y p <? height).

(** The tiles after [allPOIs] and [resourceNodes] have been put on them, as
    [generateWorld] does before it carves the roads *)
Definition placeFeatures (allPOIs : list PointOfInterest.t)
    (resourceNodes : list ResourceNode.t) (tiles : list (list Tile.t))
    : list (list Tile.t) :=
  foldl (fun tiles node =>
           updateTile (ResourceNode.position node)
             (Tile.set_resourceNode (Some node)) tiles)
        (foldl (fun tiles poi =>
                  updateTile (PointOfInterest.position poi)
                    (Tile.set_pointOfInterest (Some poi)) tiles)
               tiles allPOIs)
        resourceNodes.

(** A tile as [generateTerrain] makes it, or such a tile turned into road:
    cost and passability are those of the tables. *)
Definition Tabled (tile : Tile.t) : Prop :=
  Tile.movementCost tile = TERRAIN_COSTS (Tile.terrain tile)
  /\ Tile.isPassable tile = TERRAIN_PASSABLE (Tile.terrain tile).

(** The node that [generateResourceNodes] pushes for the position [pos] *)
Definition createNode (tiles : list (list Tile.t)) (pos : Position.t)
    : Rand ResourceNode.t :=
  resourceType ← pickResourceType (Tile.terrain <$> tileAt tiles pos);
  id ← randomId;
  amountPerTurn ← randomInt 5 20;
  mret (ResourceNode.mk ("resource_" +:+ id) resourceType pos amountPerTurn
          false None).

(** The encounter that [generateNeutralEncounters] pushes for [pos] *)
Definition createEncounter (pos : Position.t) : Rand PointOfInterest.t :=
  id ← randomId;
  name ← randomElement "undefined" encounterTypes;
  mret (PointOfInterest.mk ("encounter_" +:+ id) name pos FactionId.neutral
          None false PoiVariant.NeutralEncounter).

(** No entry of [l] is closer than [d] to [pos]. *)
Definition clearOf {A} (position : A -> Position.t) (d : Z) (pos : Position.t)
    (l : list A) : Prop :=
  Forall (fun a => d <= manhattanDistance pos (position a)) l.

(** The feature that ends up on the tile at [q] when the features of [l]
    are put on the tiles one after the other: the last one that stands at
    [q], or what the tile held if there is none. *)
Definition lastAt {A} (position : A -> Position.t) (q : Position.t)
    (held : option A) (l : list A) : option A :=
  foldl (fun held a => if decide (position a = q) then Some a else held) held l.

(** [tiles'] is [tiles] with roads carved on some of its tiles. *)
Definition carved (tiles tiles' : list (list Tile.t)) : Prop :=
  forall q,
    tileAt tiles' q = tileAt tiles q
    \/ tileAt tiles' q = carveRoad <$> tileAt tiles q.

(** What [generateTerrain] makes of a [width] by [height] map: a tile at
    every position within bounds and nowhere else, each of a terrain that
    is not road, with the cost and the passability of that terrain, holding
    no feature. *)
Definition FreshGrid (width height : Z) (tiles : list (list Tile.t)) : Prop :=
  forall q,
    if inBounds width height q
    then exists terrain elevation,
           tileAt tiles q
           = Some (Tile.mk q terrain elevation (TERRAIN_COSTS terrain)
                     (TERRAIN_PASSABLE terrain) None None)
           /\ terrain <> TerrainType.road
    else tileAt tiles q = None.

(** What [generateTowns] returns *)
Definition TownsSpec (tiles : list (list Tile.t)) (count : Z)
    (towns : list PointOfInterest.t) : Prop :=
  spread PointOfInterest.position 8 towns
  /\ Forall (fun t =>
       PointOfInterest.position t
         ∈ findValidPositions tiles [TerrainType.grass; TerrainType.desert]
       /\ PointOfInterest.type t = PointOfInterestType.town) towns
  /\ Z.of_nat (length towns) <= Z.max 0 count
  /\ (forall i t, towns !! i = Some t ->
        PointOfInterest.isDiscovered t = bool_decide (i = 0%nat)
        /\ PointOfInterest.factionId t
           = (if bool_decide (i = 0%nat) then FactionId.player
              else FactionId.neutral)
        /\ (i = 0%nat -> PointOfInterest.garrison t = Some [])).

(** What [generateEnemyCamps] returns *)
Definition CampsSpec (tiles : list (list Tile.t)) (count : Z)
    (towns camps : list PointOfInterest.t) : Prop :=
  spread PointOfInterest.position 4 camps
  /\ apart PointOfInterest.position PointOfInterest.position 5 camps towns
  /\ Forall (fun t =>
       PointOfInterest.position t
         ∈ findValidPositions tiles
             [TerrainType.grass; TerrainType.forest; TerrainType.desert]
       /\ PointOfInterest.type t = PointOfInterestType.enemy_camp
       /\ PointOfInterest.isDiscovered t = false
       /\ PointOfInterest.factionId t ∈ [FactionId.enemy_1; FactionId.enemy_2])
       camps
  /\ Z.of_nat (length camps) <= Z.max 0 count.

(** What [generateResourceNodes] returns; [unit] says that the draws lie in
    [0, 1). *)
Definition NodesSpec (tiles : list (list Tile.t)) (count : Z)
    (towns camps : list PointOfInterest.t) (unit : Prop)
    (nodes : list ResourceNode.t) : Prop :=
  spread ResourceNode.position 3 nodes
  /\ apart ResourceNode.position PointOfInterest.position 3 nodes towns
  /\ apart ResourceNode.position PointOfInterest.position 3 nodes camps
  /\ Forall (fun n =>
       ResourceNode.position n
         ∈ findValidPositions tiles
             [TerrainType.grass; TerrainType.forest; TerrainType.desert;
              TerrainType.mountain]
       /\ ResourceNode.isOwned n = false
       /\ ResourceNode.ownedBy n = None
       /\ (unit -> 5 <= ResourceNode.amountPerTurn n < 20)) nodes
  /\ Z.of_nat (length nodes) <= Z.max 0 count.

(** What [generateNeutralEncounters] returns *)
Definition EncountersSpec (tiles : list (list Tile.t)) (count : Z)
    (towns camps : list PointOfInterest.t) (resources : list ResourceNode.t)
    (encounters : list PointOfInterest.t) : Prop :=
  spread PointOfInterest.position 3 encounters
  /\ apart PointOfInterest.position PointOfInterest.position 3 encounters towns
  /\ apart PointOfInterest.position PointOfInterest.position 3 encounters camps
  /\ apart PointOfInterest.position ResourceNode.position 3 encounters resources
  /\ Forall (fun t =>
       PointOfInterest.position t
         ∈ findValidPositions tiles [TerrainType.grass; TerrainType.forest]
       /\ PointOfInterest.type t = PointOfInterestType.neutral_encounter
       /\ PointOfInterest.isDiscovered t = false
       /\ PointOfInterest.factionId t = FactionId.neutral) encounters
  /\ Z.of_nat (length encounters) <= Z.max 0 count.

(** [tiles] has [rows] rows of [columns] tiles each. *)
Definition Shaped (rows columns : nat) (tiles : list (list Tile.t)) : Prop :=
  length tiles = rows /\ Forall (fun row => length row = columns) tiles.

(** The tile of [tiles] at [q] with the features of the world put on it *)
Definition withFeatures (allPOIs : list PointOfInterest.t)
    (resourceNodes : list ResourceNode.t) (q : Position.t) (tile : Tile.t)
    : Tile.t :=
  Tile.set_resourceNode
    (lastAt ResourceNode.position q (Tile.resourceNode tile) resourceNodes)
    (Tile.set_pointOfInterest
       (lastAt PointOfInterest.position q (Tile.pointOfInterest tile) allPOIs)
       tile).

(** How the world [generateWorld] returns is made: the terrain [tiles], the
    [towns], [camps], [nodes] and [encounters] placed on it, and the tiles
    of the world, which are [tiles] with the features on them and roads
    carved.  [unit] says that the draws of the seed lie in [0, 1). *)
Definition Anatomy (unit : Prop) (config : WorldGenConfig.t)
    (world : WorldMap.t) (tiles : list (list Tile.t))
    (towns camps : list PointOfInterest.t) (nodes : list ResourceNode.t)
    (encounters : list PointOfInterest.t) : Prop :=
  let placed := placeFeatures (towns ++ camps ++ encounters) nodes tiles in
  (WorldMap.pointsOfInterest world = towns ++ camps ++ encounters
   /\ WorldMap.resourceNodes world = nodes
   /\ WorldMap.width world = WorldGenConfig.width config
   /\ WorldMap.height world = WorldGenConfig.height config)
  /\ (townsOf world = towns /\ campsOf world = camps
      /\ encountersOf world = encounters)
  /\ FreshGrid (WorldGenConfig.width config) (WorldGenConfig.height config)
       tiles
  /\ TownsSpec tiles (WorldGenConfig.numTowns config) towns
  /\ CampsSpec tiles (WorldGenConfig.numEnemyCamps config) towns camps
  /\ NodesSpec tiles (WorldGenConfig.numResourceNodes config) towns camps unit
       nodes
  /\ EncountersSpec tiles (WorldGenConfig.numNeutralEncounters config) towns
       camps nodes encounters
  /\ carved placed (WorldMap.tiles world)
  /\ (forall i t,
        towns !! i = Some t -> (S i < length towns)%nat ->
        tileAt (WorldMap.tiles world) (PointOfInterest.position t)
        = carveRoad <$> tileAt placed (PointOfInterest.position t))
  /\ Shaped (Z.to_nat (WorldGenConfig.height config))
       (Z.to_nat (WorldGenConfig.width config)) (WorldMap.tiles world).

(** The world generated from [demoStream] for [demoConfig], computed *)
Definition demoGenerated : WorldMap.t :=
  Eval vm_compute in generateWorld demoStream demoConfig.

(** ** Notions used for sessions *)

(** What of the map no command but [initGame] touches: everything but the
    recruit pools of the towns among the points of interest. *)
Definition mapFrame (worldMap : WorldMap.t) :=
  (WorldMap.width worldMap, WorldMap.height worldMap, WorldMap.tiles worldMap,
   WorldMap.resourceNodes worldMap, WorldMap.seed worldMap,
   (fun poi =>
      (PointOfInterest.id poi, PointOfInterest.name poi,
       PointOfInterest.position poi, PointOfInterest.type poi,
       PointOfInterest.factionId poi, PointOfInterest.garrison poi,
       PointOfInterest.isDiscovered poi))
   <$> WorldMap.pointsOfInterest worldMap).

(** Every tile of the map follows the tables. *)
Definition MapTabled (state : GameState.t) : Prop :=
  Forall (Forall Tabled) (WorldMap.tiles (GameState.worldMap state)).

(** Every hero's movement points lie between 0 and its maximum. *)
Definition HeroesFit (state : GameState.t) : Prop :=
  Forall (fun f =>
            Forall (fun h =>
                      (0 <= Hero.movementPoints h)%Q
                      /\ (Hero.movementPoints h <= Hero.maxMovementPoints h)%Q)
                   (Faction.heroes f))
         (GameState.factions state).

Definition isInitGame (command : Command.t) : bool :=
  match command with
  | Command.initGame _ _ => true
  | _ => false
  end.

(** What the search of [getMovementRange] keeps true while it runs: no
    position was reached twice, what was reached was visited, every queued
    cost is within the hero's points, and every visited position but the
    hero's was reached. *)
Definition SearchProgress (hero : Hero.t) (queue : list (Position.t * Q))
    (visited reachable : list Position.t) : Prop :=
  NoDup reachable
  /\ (forall r, r ∈ reachable -> r ∈ visited)
  /\ (forall q c, (q, c) ∈ queue -> (c <= Hero.movementPoints hero)%Q)
  /\ (forall v, v ∈ visited -> v <> Hero.position hero -> v ∈ reachable).

(** No two factions share an id, and every hero names the faction that
    lists it. *)
Definition RosterOK (state : GameState.t) : Prop :=
  NoDup (Faction.id <$> GameState.factions state)
  /\ Forall (fun f =>
               Forall (fun h => Hero.factionId h = Faction.id f)
                      (Faction.heroes f))
            (GameState.factions state).

(** [u] acts no later than [v]: it is at least as fast. *)
Definition fasterFirst (u v : CombatUnit.t) : Prop :=
  (UnitStats.speed (CombatUnit.stats v)
   <= UnitStats.speed (CombatUnit.stats u))%Q.

(** The units of speed [s], in the order of the list *)
Definition ofSpeed (s : Q) (units : list CombatUnit.t) : list CombatUnit.t :=
  List.filter (fun u => Qeq_bool (UnitStats.speed (CombatUnit.stats u)) s)
    units.

(** How many units of a type a crew holds, over all its stacks *)
Definition headcount (unitType : UnitType.t) (crew : list Unit.t) : Z :=
  foldr (fun u n => if decide (Unit.type u = unitType)
                    then Unit.count u + n else n) 0 crew.

(** What [createTown] gives a town when the draws lie in [0, 1): a name of
    the list, the five offers of [generateRecruitPool] with availabilities
    in their ranges, no building, and a stock in its ranges. *)
Definition Stocked (town : PointOfInterest.t) : Prop :=
  exists a1 a2 a3 a4 a5 stock,
    PointOfInterest.variant town
    = PoiVariant.Town
        [ UnitRecruitOption.mk UnitType.warrior (Resources.mk 100 0 0 0) a1 10;
          UnitRecruitOption.mk UnitType.archer (Resources.mk 80 20 0 0) a2 8;
          UnitRecruitOption.mk UnitType.cavalry (Resources.mk 200 0 0 0) a3 4;
          UnitRecruitOption.mk UnitType.mage (Resources.mk 250 0 0 20) a4 2;
          UnitRecruitOption.mk UnitType.healer (Resources.mk 150 0 0 10) a5 3 ]
        [] stock
    /\ (5 <= a1 < 15 /\ 3 <= a2 < 10 /\ 2 <= a3 < 6 /\ 1 <= a4 < 4
        /\ 2 <= a5 < 5)
    /\ (100 <= Resources.gold stock < 500
        /\ 50 <= Resources.wood stock < 200
        /\ 30 <= Resources.stone stock < 150
        /\ 10 <= Resources.crystals stock < 50)
    /\ PointOfInterest.name town ∈ townNames.

(** The sums and the product [gainExperience] computes for [hero] are
    doubles as they are: none is rounded. *)
Definition ExperienceExact (gained : Z) (hero : Hero.t) : Prop :=
  Double.exact (Hero.experience hero + gained)
  /\ Double.exact
       (Hero.experience hero + gained - Hero.experienceToNext hero)
  /\ Double.exact (3 * Hero.experienceToNext hero)
  /\ Double.exact (Hero.level hero + 1)
  /\ Double.exact (HeroBonuses.attackBonus (Hero.bonuses hero) + 1)
  /\ Double.exact (HeroBonuses.defenseBonus (Hero.bonuses hero) + 1).

(** The sums of the treasury [have] and [amounts] are doubles as they are. *)
Definition SumsExact (amounts have : Resources.t) : Prop :=
  forall kind,
    Double.exact (Resources.get have kind + Resources.get amounts kind).



(** * Properties *)

(** ** Numbers *)

Lemma round_exact x : Double.exact x -> Double.round x = x.
Proof.
  unfold Double.exact, Double.round. intros Hx.
  by rewrite (proj2 (Z.leb_le _ _) Hx).
Qed.


Lemma add_exact a b : Double.exact (a + b) -> Double.add a b = a + b.
Proof. apply round_exact. Qed.

Lemma sub_exact a b : Double.exact (a - b) -> Double.sub a b = a - b.
Proof. apply round_exact. Qed.

Lemma mul_exact a b : Double.exact (a * b) -> Double.mul a b = a * b.
Proof. apply round_exact. Qed.

Lemma exact_between lo hi x :
  Double.exact lo -> Double.exact hi -> lo <= x <= hi -> Double.exact x.
Proof. unfold Double.exact. lia. Qed.

(** ** Lookups and updates in lists *)











(** ** The rosters of a battle *)





Lemma rosters_updateUnit k f combatState :
  length (CombatState.attackerUnits (updateUnit k f combatState))
    = length (CombatState.attackerUnits combatState)
  /\ length (CombatState.defenderUnits (updateUnit k f combatState))
    = length (CombatState.defenderUnits combatState)
  /\ CombatState.combatLog (updateUnit k f combatState)
    = CombatState.combatLog combatState
  /\ CombatState.turnOrder (updateUnit k f combatState)
    = CombatState.turnOrder combatState.
Proof.
  unfold updateUnit.
  destruct (k <? length (CombatState.attackerUnits combatState))%nat; simpl;
    rewrite ?length_alter; auto.
Qed.


Lemma rosters_removeUnit k combatState :
  CombatState.combatLog (removeUnit k combatState)
    = CombatState.combatLog combatState
  /\ CombatState.turnOrder (removeUnit k combatState)
    = CombatState.turnOrder combatState.
Proof.
  unfold removeUnit.
  by destruct (k <? length (CombatState.attackerUnits combatState))%nat.
Qed.


(** The queue after an action is the queue before it, or, if every entry of
    the queue had acted, the queue with every entry's flags cleared. *)
Lemma finishAction_turnOrder source combatState :
  CombatState.turnOrder (finishAction source combatState)
    = CombatState.turnOrder combatState
  \/ (forallb CombatUnit.hasActed (CombatState.turnOrder combatState) = true
      /\ CombatState.turnOrder (finishAction source combatState)
         = map resetRound (CombatState.turnOrder combatState)).
Proof.
  unfold finishAction.
  assert (Hm : CombatState.turnOrder
                 (match source with
                  | Some i => updateUnit i (CombatUnit.set_hasActed true) combatState
                  | None => combatState
                  end) = CombatState.turnOrder combatState).
  { destruct source as [i|]; [|done].
    by destruct (rosters_updateUnit i (CombatUnit.set_hasActed true) combatState)
      as (_ & _ & _ & ?). }
  revert Hm.
  generalize (match source with
              | Some i => updateUnit i (CombatUnit.set_hasActed true) combatState
              | None => combatState
              end).
  intros marked Hm.
  destruct (bool_decide _ || bool_decide _); [by left|].
  cbn [CombatState.turnOrder CombatState.set_currentUnitIndex CombatState.set_turnOrder].
  rewrite Hm.
  destruct (forallb CombatUnit.hasActed (CombatState.turnOrder combatState)) eqn:Hall.
  - right. split; [done|]. cbn. by rewrite ?Hm.
  - by left.
Qed.





Lemma combatStep_turnOrder now action combatState :
  CombatState.turnOrder (combatStep now action combatState)
    = CombatState.turnOrder combatState
  \/ (forallb CombatUnit.hasActed (CombatState.turnOrder combatState) = true
      /\ CombatState.turnOrder (combatStep now action combatState)
         = map resetRound (CombatState.turnOrder combatState)).
Proof.
  unfold combatStep.
  destruct (findUnit combatState (CombatAction.sourceUnit action))
    as [[i sourceUnit]|]; [|by left].
  destruct (CombatUnit.hasActed sourceUnit); [by left|].
  assert (Hswitch : forall (p : CombatState.t * option nat),
            CombatState.turnOrder (fst p) = CombatState.turnOrder combatState ->
            CombatState.turnOrder (let '(c, s) := p in finishAction s c)
              = CombatState.turnOrder combatState
            \/ (forallb CombatUnit.hasActed (CombatState.turnOrder combatState) = true
                /\ CombatState.turnOrder (let '(c, s) := p in finishAction s c)
                   = map resetRound (CombatState.turnOrder combatState))).
  { intros [c s] Hc. simpl in Hc. rewrite <- Hc. apply finishAction_turnOrder. }
  apply Hswitch.
  destruct (CombatAction.type action); simpl; try done.
  - destruct (CombatAction.targetPosition action); simpl; [|done].
    apply rosters_updateUnit.
  - unfold attack.
    destruct (CombatAction.targetUnit action) as [[|c rest]|]; try done.
    destruct (findUnit combatState (String c rest)) as [[k targetUnit]|]; [|done].
    destruct (isDead _); simpl.
    + rewrite (proj2 (rosters_removeUnit _ _)). simpl. apply rosters_updateUnit.
    + apply rosters_updateUnit.
  - apply rosters_updateUnit.
Qed.

(** C9 - [executeCombatAction] leaves the membership and the order of
    [combatState.turnOrder] as they are: after any action the queue holds the
    same stacks at the same places, so a stack that an attack spliced out of
    its roster is still queued.  The queue's entries change only by the
    round reset, which clears [hasActed] and [isDefending] of every entry,
    and that happens only if every entry of the queue had [hasActed] set,
    whether or not the entry's stack is still in a roster. *)
Theorem turnOrder_frame
    (now : Z) (action : CombatAction.t) (state : GameState.t)
    (combatState : CombatState.t) :
  GameState.combatState state = Some combatState ->
  exists after,
    GameState.combatState (executeCombatAction now action state) = Some after
    /\ CombatUnit.unit <$> CombatState.turnOrder after
       = CombatUnit.unit <$> CombatState.turnOrder combatState
    /\ (forall id,
          (exists u, u ∈ CombatState.turnOrder combatState
                     /\ CombatUnit.id u = id) ->
          exists u', u' ∈ CombatState.turnOrder after /\ CombatUnit.id u' = id)
    /\ (CombatState.turnOrder after = CombatState.turnOrder combatState
        \/ (Forall (fun u => CombatUnit.hasActed u = true)
                   (CombatState.turnOrder combatState)
            /\ CombatState.turnOrder after
               = map resetRound (CombatState.turnOrder combatState))).
Proof.
  intros Hcs. unfold executeCombatAction. rewrite Hcs. simpl.
  eexists. split; [reflexivity|].
  assert (Hunits : CombatUnit.unit <$> CombatState.turnOrder (combatStep now action combatState)
                   = CombatUnit.unit <$> CombatState.turnOrder combatState).
  { destruct (combatStep_turnOrder now action combatState) as [->|[_ ->]]; [done|].
    change (map resetRound) with (fmap (M:=list) resetRound).
    rewrite <- list_fmap_compose. done. }
  split; [exact Hunits|]. split.
  - intros id (u & Hu & Hid).
    apply list_elem_of_lookup in Hu as [j Hj].
    assert (Hj' : (CombatUnit.unit <$> CombatState.turnOrder combatState) !! j
                  = Some (CombatUnit.unit u)) by (by rewrite list_lookup_fmap, Hj).
    rewrite <- Hunits, list_lookup_fmap in Hj'.
    destruct (CombatState.turnOrder (combatStep now action combatState) !! j)
      as [u'|] eqn:Hu'; [|done].
    exists u'. split; [by eapply list_elem_of_lookup_2|].
    simpl in Hj'. injection Hj' as Hj'. unfold CombatUnit.id. by rewrite Hj', <- Hid.
  - destruct (combatStep_turnOrder now action combatState) as [H|[Hall H]];
      [by left|right].
    split; [|exact H]. apply Forall_forall. intros u Hu.
    rewrite forallb_forall in Hall. apply Hall. by apply list_elem_of_In.
Qed.

(** After the lethal strike of [demoStrike] the archers are in no roster and
    are still queued. *)
Lemma turnOrder_frame_witness :
  exists after,
    GameState.combatState (executeCombatAction 0 demoStrike demoBattle)
      = Some after
    /\ (CombatUnit.id <$> allUnits after) = ["unit_w"; "unit_m"; "unit_c"]
    /\ exists u', u' ∈ CombatState.turnOrder after /\ CombatUnit.id u' = "unit_a".
Proof.
  edestruct (turnOrder_frame 0 demoStrike demoBattle)
    as (after & Hafter & _ & Hmember & _); [reflexivity|].
  exists after. split; [exact Hafter|]. split.
  - vm_compute in Hafter. injection Hafter as <-. reflexivity.
  - apply Hmember. eexists. split.
    + apply list_elem_of_lookup. exists 1%nat. reflexivity.
    + reflexivity.
Defined.


(** ** Ending a turn *)









(** ** Movement *)

Lemma Qleb_le a b : Qleb a b = true <-> (a <= b)%Q.
Proof.
  unfold Qleb. rewrite Qle_alt. destruct (a ?= b)%Q; split; congruence.
Qed.

Lemma getHero_heroPath state heroId :
  getHero state heroId
  = (fun p => snd p) <$> heroPath heroId (GameState.factions state).
Proof.
  unfold getHero. induction (GameState.factions state) as [|f fs IH]; [done|].
  simpl.
  destruct (list_find (fun h => Hero.id h = heroId) (Faction.heroes f))
    as [[hi h]|] eqn:Hf.
  - assert (H : list_find (fun h => Hero.id h = heroId)
                  (Faction.heroes f ++ flat_map Faction.heroes fs)
                = Some (hi, h)).
    { apply list_find_app_Some. by left. }
    by rewrite H.
  - destruct (list_find (fun h => Hero.id h = heroId)
                (Faction.heroes f ++ flat_map Faction.heroes fs))
      as [[j h]|] eqn:Happ.
    + apply list_find_app_Some in Happ as [Hl|(_ & _ & Hr)]; [congruence|].
      rewrite Hr in IH. simpl in IH.
      destruct (heroPath heroId fs) as [[[fi hi] h']|]; simpl in *; congruence.
    + destruct (list_find (fun h => Hero.id h = heroId) (flat_map Faction.heroes fs))
        as [[j h]|] eqn:Hr.
      * assert (Hsome : list_find (fun h0 => Hero.id h0 = heroId)
                  (Faction.heroes f ++ flat_map Faction.heroes fs)
                = Some ((length (Faction.heroes f) + j)%nat, h)).
        { apply list_find_app_Some. right. split; [lia|]. split; [done|].
          by replace (length (Faction.heroes f) + j - length (Faction.heroes f))%nat
            with j by lia. }
        congruence.
      * simpl in IH. destruct (heroPath heroId fs) as [[[fi hi] h']|];
          simpl in *; congruence.
Qed.

(** *** The search reaches what a walk reaches *)

Lemma pathCost_snoc state from cost path next :
  pathCost state from cost (path ++ [next])
  = c ← pathCost state from cost path;
    pathCost state (default from (last path)) c [next].
Proof.
  revert from cost. induction path as [|p path IH]; intros from cost; [done|].
  simpl pathCost at 1. simpl app.
  cbn [pathCost].
  destruct (manhattanDistance from p =? 1); [|done].
  destruct (getTileAt state p) as [tile|]; [|done].
  destruct (Tile.isPassable tile); [|done].
  destruct (Tile.movementCost tile) as [c|]; [|done].
  rewrite IH. rewrite last_cons.
  destruct (last path); done.
Qed.

Lemma neighbors_adjacent pos q :
  q ∈ neighbors pos -> manhattanDistance pos q = 1.
Proof.
  unfold neighbors, manhattanDistance.
  rewrite !elem_of_cons, elem_of_nil.
  intros [->|[->|[->|[->|[]]]]]; simpl; lia.
Qed.

Lemma enqueue_spec state mp cost neighbor q c :
  (q, c) ∈ enqueue state mp cost neighbor ->
  q = neighbor
  /\ (c <= mp)%Q
  /\ exists tile d,
       getTileAt state neighbor = Some tile
       /\ Tile.isPassable tile = true
       /\ Tile.movementCost tile = Cost.Finite d
       /\ c = (cost + d)%Q.
Proof.
  unfold enqueue.
  destruct (getTileAt state neighbor) as [tile|]; [|by intros ?%elem_of_nil].
  destruct (Tile.isPassable tile) eqn:Hpass; [|by intros ?%elem_of_nil].
  destruct (Tile.movementCost tile) as [d|] eqn:Hcost; [|by intros ?%elem_of_nil].
  destruct (Qleb (cost + d) mp) eqn:Hle; [|by intros ?%elem_of_nil].
  intros [= -> ->]%list_elem_of_singleton.
  split; [done|]. split; [by apply Qleb_le|]. by exists tile, d.
Qed.

Lemma Reached_step state origin pos cost mp q c :
  Reached state origin pos cost ->
  (q, c) ∈ flat_map (enqueue state mp cost) (neighbors pos) ->
  Reached state origin q c /\ (c <= mp)%Q.
Proof.
  intros (path & Hpath & Hend) Hin.
  apply list_elem_of_In, in_flat_map in Hin as (neighbor & Hn & Hin).
  apply list_elem_of_In in Hn, Hin.
  apply enqueue_spec in Hin as (-> & Hle & tile & d & Htile & Hpass & Hcost & ->).
  split; [|done].
  exists (path ++ [neighbor]). split.
  - rewrite pathCost_snoc, Hpath. simpl. rewrite Hend.
    rewrite (neighbors_adjacent _ _ Hn). simpl.
    by rewrite Htile, Hpass, Hcost.
  - by rewrite last_snoc.
Qed.

Lemma Reached_passable state origin q c :
  Reached state origin q c -> q <> origin ->
  exists tile, getTileAt state q = Some tile /\ Tile.isPassable tile = true.
Proof.
  intros (path & Hpath & Hend) Hne.
  destruct (last path) as [e|] eqn:Hlast; simpl in Hend; [subst e|congruence].
  apply last_Some in Hlast as [front ->].
  rewrite pathCost_snoc in Hpath.
  destruct (pathCost state origin 0 front) as [c0|]; [|done].
  simpl in Hpath.
  destruct (manhattanDistance _ q =? 1); [|done].
  destruct (getTileAt state q) as [tile|]; [|done].
  destruct (Tile.isPassable tile) eqn:Hp; [|done].
  by exists tile.
Qed.

Lemma searchLoop_sound state hero fuel :
  forall queue visited reachable result,
    SearchInvariant state hero queue reachable ->
    searchLoop fuel state hero queue visited reachable = Some result ->
    forall r, r ∈ result ->
      r <> Hero.position hero
      /\ exists c, Reached state (Hero.position hero) r c
                   /\ (c <= Hero.movementPoints hero)%Q.
Proof.
  induction fuel as [|fuel IH]; intros queue visited reachable result [Hq Hr].
  - destruct queue as [|[pos cost] queue]; simpl; [|done].
    intros [= <-]. exact Hr.
  - destruct queue as [|[pos cost] queue]; simpl.
    { intros [= <-]. exact Hr. }
    assert (Hrest : forall q c, (q, c) ∈ queue ->
                      Reached state (Hero.position hero) q c).
    { intros q c Hin. apply Hq. by apply elem_of_cons; right. }
    assert (Hpos : Reached state (Hero.position hero) pos cost).
    { apply Hq. by apply elem_of_cons; left. }
    destruct (bool_decide (pos ∈ visited)).
    { apply IH. by split. }
    destruct (Qleb cost (Hero.movementPoints hero)) eqn:Hle.
    2:{ apply IH. by split. }
    apply IH. split.
    + intros q c [Hin|Hin]%elem_of_app; [by apply Hrest|].
      by apply (Reached_step _ _ _ _ _ _ _ Hpos Hin).
    + destruct (negb (Position.x pos =? Position.x (Hero.position hero))
                || negb (Position.y pos =? Position.y (Hero.position hero)))
        eqn:Hmoved; [|exact Hr].
      intros r [Hin|Hin%list_elem_of_singleton]%elem_of_app; [by apply Hr|].
      subst r. split.
      * intros ->. rewrite !Z.eqb_refl in Hmoved. done.
      * exists cost. split; [done|]. by apply Qleb_le.
Qed.

(** *** The search ends *)

Lemma unvisited_visit cells visited pos :
  pos ∈ cells -> pos ∉ visited ->
  (unvisited cells (pos :: visited) < unvisited cells visited)%nat.
Proof.
  unfold unvisited. intros Hin Hnew.
  induction cells as [|p cells IH]; [by apply elem_of_nil in Hin|].
  rewrite !filter_cons.
  destruct (decide (p = pos)) as [->|Hne].
  - rewrite decide_False by (intros [H _]%not_elem_of_cons; by apply H).
    rewrite decide_True by done. simpl.
    assert (length (filter (fun p => p ∉ pos :: visited) cells)
            <= length (filter (fun p => p ∉ visited) cells))%nat; [|lia].
    clear Hin Hnew IH. induction cells as [|q cells IH]; [done|].
    rewrite !filter_cons.
    destruct (decide (q ∉ pos :: visited)) as [Hq|Hq].
    + rewrite decide_True by (rewrite not_elem_of_cons in Hq; tauto).
      simpl. lia.
    + destruct (decide (q ∉ visited)); simpl; lia.
  - apply elem_of_cons in Hin as [->|Hin]; [done|]. specialize (IH Hin).
    destruct (decide (p ∉ visited)) as [Hp|Hp].
    + rewrite decide_True by (by apply not_elem_of_cons).
      simpl. lia.
    + rewrite decide_False by (rewrite not_elem_of_cons; tauto). exact IH.
Qed.

Lemma unvisited_le cells visited :
  (unvisited cells visited <= length cells)%nat.
Proof. apply length_filter. Qed.

Lemma gridCells_length worldMap :
  length (gridCells worldMap)
  = (Z.to_nat (WorldMap.width worldMap) * Z.to_nat (WorldMap.height worldMap))%nat.
Proof.
  unfold gridCells.
  rewrite <- (length_seqZ 0 (WorldMap.height worldMap)).
  induction (seqZ 0 (WorldMap.height worldMap)) as [|y ys IH]; simpl; [lia|].
  rewrite length_app, length_map, length_seqZ, IH. lia.
Qed.

Lemma getTileAt_gridCells state pos tile :
  getTileAt state pos = Some tile -> pos ∈ gridCells (GameState.worldMap state).
Proof.
  unfold getTileAt, gridCells.
  destruct ((Position.x pos <? 0)
            || (Position.x pos >=? WorldMap.width (GameState.worldMap state))
            || (Position.y pos <? 0)
            || (Position.y pos >=? WorldMap.height (GameState.worldMap state)))
    eqn:Hout; [done|].
  intros _. apply list_elem_of_In, in_flat_map.
  rewrite !orb_false_iff, !Z.ltb_ge, !Z.geb_leb, !Z.leb_gt in Hout.
  exists (Position.y pos). split.
  - apply list_elem_of_In, elem_of_seqZ. lia.
  - apply in_map_iff. exists (Position.x pos). split; [by destruct pos|].
    apply list_elem_of_In, elem_of_seqZ. lia.
Qed.

Lemma enqueue_length state mp cost neighbor :
  (length (enqueue state mp cost neighbor) <= 1)%nat.
Proof.
  unfold enqueue.
  repeat match goal with
         | |- context [match ?x with _ => _ end] => destruct x
         end; simpl; lia.
Qed.

Lemma enqueued_on_grid state mp cost pos q c :
  (q, c) ∈ flat_map (enqueue state mp cost) (neighbors pos) ->
  exists tile, getTileAt state q = Some tile.
Proof.
  intros Hin.
  apply list_elem_of_In, in_flat_map in Hin as (neighbor & _ & Hin).
  apply list_elem_of_In, enqueue_spec in Hin as (-> & _ & tile & _ & Htile & _).
  by exists tile.
Qed.

Lemma enqueued_length state mp cost pos :
  (length (flat_map (enqueue state mp cost) (neighbors pos)) <= 4)%nat.
Proof.
  unfold neighbors. simpl. rewrite !length_app. simpl.
  repeat match goal with
         | |- context [length (enqueue ?s ?m ?c ?n)] =>
             let H := fresh in
             pose proof (enqueue_length s m c n) as H;
             generalize dependent (length (enqueue s m c n)); intros
         end.
  lia.
Qed.

Lemma searchLoop_fuel state hero cells fuel :
  forall queue visited reachable,
    (forall q c, (q, c) ∈ queue -> q ∈ cells) ->
    (forall q tile, getTileAt state q = Some tile -> q ∈ cells) ->
    (5 * unvisited cells visited + length queue < fuel)%nat ->
    is_Some (searchLoop fuel state hero queue visited reachable).
Proof.
  induction fuel as [|fuel IH]; intros queue visited reachable Hq Hcells Hfuel;
    [lia|].
  destruct queue as [|[pos cost] queue]; simpl; [by eexists|].
  assert (Hrest : forall q c, (q, c) ∈ queue -> q ∈ cells).
  { intros q c Hin. apply (Hq q c). by apply elem_of_cons; right. }
  simpl in Hfuel.
  destruct (bool_decide (pos ∈ visited)) eqn:Hseen.
  { apply IH; [done|done|lia]. }
  apply bool_decide_eq_false in Hseen.
  assert (Hpos : pos ∈ cells) by (apply (Hq pos cost); by apply elem_of_cons; left).
  pose proof (unvisited_visit cells visited pos Hpos Hseen) as Hless.
  destruct (Qleb cost (Hero.movementPoints hero)).
  2:{ apply IH; [done|done|lia]. }
  apply IH; [|done|].
  - intros q c [Hin|Hin]%elem_of_app; [by apply (Hrest q c)|].
    destruct (enqueued_on_grid _ _ _ _ _ _ Hin) as [tile Htile].
    by apply (Hcells q tile).
  - pose proof (enqueued_length state (Hero.movementPoints hero) cost pos) as H4.
    rewrite length_app.
    change (length (flat_map (enqueue state (Hero.movementPoints hero) cost)
                      (neighbors pos)))
      with (length (enqueue state (Hero.movementPoints hero) cost
                      (Position.mk (Position.x pos + 1) (Position.y pos)) ++
                    enqueue state (Hero.movementPoints hero) cost
                      (Position.mk (Position.x pos - 1) (Position.y pos)) ++
                    enqueue state (Hero.movementPoints hero) cost
                      (Position.mk (Position.x pos) (Position.y pos + 1)) ++
                    enqueue state (Hero.movementPoints hero) cost
                      (Position.mk (Position.x pos) (Position.y pos - 1)) ++ []))
      in H4.
    lia.
Qed.

(** The search of [getMovementRange] never runs out of iterations. *)
Lemma searchLoop_terminates state hero :
  is_Some (searchLoop (searchFuel state) state hero
             [(Hero.position hero, 0%Q)] [] []).
Proof.
  apply (searchLoop_fuel state hero
           (Hero.position hero :: gridCells (GameState.worldMap state))).
  - intros q c [= -> _]%list_elem_of_singleton. by apply elem_of_cons; left.
  - intros q tile Htile. apply elem_of_cons; right.
    by apply (getTileAt_gridCells state q tile).
  - pose proof (unvisited_le
                  (Hero.position hero :: gridCells (GameState.worldMap state)) [])
      as Hle.
    cbn [length] in Hle. rewrite gridCells_length in Hle.
    unfold searchFuel. cbn [length]. lia.
Qed.

(** [getMovementRange] is the result of the search: the bound on its
    iterations is never the reason for the answer. *)
Lemma getMovementRange_searchLoop state heroId hero :
  getHero state heroId = Some hero ->
  searchLoop (searchFuel state) state hero [(Hero.position hero, 0%Q)] [] []
  = Some (getMovementRange state heroId).
Proof.
  intros Hhero. unfold getMovementRange. rewrite Hhero.
  by destruct (searchLoop_terminates state hero) as [result ->].
Qed.

(** C4 - every position [p] that [getMovementRange] returns for hero [h] is
    distinct from [h]'s position, its tile is passable, and some walk leads
    from [h]'s position to [p] through 4-connected passable tiles whose
    movement costs (fractions included, none rounded) add up to at most
    [h.movementPoints].  The walk pays for the tiles it enters, not for the
    tile the hero stands on. *)
Theorem movement_range_legal
    (state : GameState.t) (heroId : string) (hero : Hero.t) (p : Position.t) :
  getHero state heroId = Some hero ->
  p ∈ getMovementRange state heroId ->
  p <> Hero.position hero
  /\ (exists tile, getTileAt state p = Some tile /\ Tile.isPassable tile = true)
  /\ exists path cost,
       last path = Some p
       /\ pathCost state (Hero.position hero) 0 path = Some cost
       /\ (cost <= Hero.movementPoints hero)%Q.
Proof.
  intros Hhero Hin.
  pose proof (getMovementRange_searchLoop state heroId hero Hhero) as Hsearch.
  assert (Hinv : SearchInvariant state hero [(Hero.position hero, 0%Q)] []).
  { split.
    - intros q c [= -> ->]%list_elem_of_singleton. by exists [].
    - by intros r ?%elem_of_nil. }
  destruct (searchLoop_sound state hero _ _ _ _ _ Hinv Hsearch p Hin)
    as (Hne & c & Hreach & Hle).
  split; [exact Hne|]. split; [by apply (Reached_passable _ _ _ _ Hreach)|].
  destruct Hreach as (path & Hcost & Hend).
  exists path, c. split; [|done].
  destruct (last path) as [e|]; simpl in Hend; congruence.
Qed.

(** In [demoState] the town at (2, 0) is in the range of the hero at (0, 0),
    who has two movement points: the road and then the town's grass cost 1.5
    together. *)
Lemma movement_range_legal_witness :
  exists path cost,
    last path = Some (Position.mk 2 0)
    /\ pathCost demoState (Position.mk 0 0) 0 path = Some cost
    /\ (cost <= 2)%Q.
Proof.
  refine (proj2 (proj2 (movement_range_legal demoState "hero_a" demoHero
                          (Position.mk 2 0) eq_refl _))).
  apply list_elem_of_lookup. exists 2%nat. reflexivity.
Defined.

(** *** Moving a hero *)

(** A target outside the hero's movement range is refused and nothing
    changes. *)
Lemma moveHero_out_of_range state heroId target :
  canMoveTo state heroId target = false ->
  moveHero heroId target state = Returns false state.
Proof.
  intros Hout. unfold moveHero.
  destruct (getHero state heroId); [|done]. by rewrite Hout.
Qed.

(** A move to a tile in range that carries no point of interest relocates
    the hero and takes the tile's movement cost, and nothing else, from its
    movement points. *)
Lemma moveHero_plain_tile state heroId target hero tile fi faction hi heroToMove :
  getHero state heroId = Some hero ->
  canMoveTo state heroId target = true ->
  getTileAt state target = Some tile ->
  Tile.pointOfInterest tile = None ->
  list_find (fun f => Faction.id f = Hero.factionId hero)
    (GameState.factions state) = Some (fi, faction) ->
  list_find (fun h => Hero.id h = heroId) (Faction.heroes faction)
    = Some (hi, heroToMove) ->
  affordsMove (Hero.movementPoints heroToMove) (Tile.movementCost tile) = true ->
  moveHero heroId target state
  = Returns true
      (GameState.set_factions
         (updateHero fi hi
            (fun h =>
               Hero.set_movementPoints
                 (payMove (Hero.movementPoints h) (Tile.movementCost tile))
                 (Hero.set_position target h))
            (GameState.factions state))
         state).
Proof.
  intros Hhero Hcan Htile Hpoi Hf Hh Hpay. unfold moveHero.
  rewrite Hhero, Hcan, Htile. simpl. rewrite Hf. simpl. rewrite Hh. simpl.
  by rewrite Hpay, Hpoi.
Qed.

(** A move to a tile in range that carries a point of interest raises: the
    recipe writes [isDiscovered] through the committed tile.  The hero is
    not moved, nothing is discovered and the phase stays. *)
Lemma moveHero_onto_poi state heroId target hero tile poi fi faction hi heroToMove :
  getHero state heroId = Some hero ->
  canMoveTo state heroId target = true ->
  getTileAt state target = Some tile ->
  Tile.pointOfInterest tile = Some poi ->
  list_find (fun f => Faction.id f = Hero.factionId hero)
    (GameState.factions state) = Some (fi, faction) ->
  list_find (fun h => Hero.id h = heroId) (Faction.heroes faction)
    = Some (hi, heroToMove) ->
  affordsMove (Hero.movementPoints heroToMove) (Tile.movementCost tile) = true ->
  moveHero heroId target state = TypeError state.
Proof.
  intros Hhero Hcan Htile Hpoi Hf Hh Hpay. unfold moveHero.
  rewrite Hhero, Hcan, Htile. simpl. rewrite Hf. simpl. rewrite Hh. simpl.
  by rewrite Hpay, Hpoi.
Qed.

(** C3 - [moveHero] at a failing input.  In [demoState] the undiscovered
    town at (2, 0) is in the movement range of [hero_a]; the move there does
    not return [true]: it raises, and the committed state is the old one,
    with the hero where it was, the town undiscovered and the phase
    [world_map].  The same move to the plain road tile (1, 0) returns [true]
    and takes that tile's cost of one half from the hero's two points. *)
Theorem moveHero_onto_town_raises :
  canMoveTo demoState "hero_a" (Position.mk 2 0) = true
  /\ (PointOfInterest.isDiscovered <$>
        (getTileAt demoState (Position.mk 2 0) ≫= Tile.pointOfInterest))
     = Some false
  /\ moveHero "hero_a" (Position.mk 2 0) demoState = TypeError demoState
  /\ exists moved,
       moveHero "hero_a" (Position.mk 1 0) demoState = Returns true moved
       /\ (fun h => (Hero.position h, Hero.movementPoints h))
            <$> getHero moved "hero_a"
          = Some (Position.mk 1 0, (2 - (1 # 2))%Q).
Proof.
  split; [reflexivity|]. split; [reflexivity|]. split; [reflexivity|].
  eexists. split; reflexivity.
Qed.


(** ** World generation *)

Lemma manhattanDistance_sym a b :
  manhattanDistance a b = manhattanDistance b a.
Proof. unfold manhattanDistance. lia. Qed.

(** *** Integers drawn from a draw in [0, 1) *)


(** *** Shuffling keeps the elements *)

Lemma swap_elem_of {A} (i j : nat) (l : list A) (x : A) :
  x ∈ swap i j l -> x ∈ l.
Proof.
  unfold swap.
  destruct (l !! i) as [a|] eqn:Hi; [|done].
  destruct (l !! j) as [b|] eqn:Hj; [|done].
  intros [k Hk]%list_elem_of_lookup.
  apply list_lookup_insert_Some in Hk as [(_ & <- & _)|[_ Hk]].
  { by eapply list_elem_of_lookup_2. }
  apply list_lookup_insert_Some in Hk as [(_ & <- & _)|[_ Hk]];
    by eapply list_elem_of_lookup_2.
Qed.

Lemma shuffleFrom_elem_of {A} (n : nat) :
  forall (l : list A) g x, x ∈ fst (shuffleFrom n l g) -> x ∈ l.
Proof.
  induction n as [|n IH]; intros l g x; simpl; [done|].
  run_rand. intros Hx%IH.
  destruct (_ <? 0); [done|]. by eapply swap_elem_of.
Qed.

Lemma shuffle_elem_of {A} (l : list A) g x :
  x ∈ fst (shuffle l g) -> x ∈ l.
Proof. apply shuffleFrom_elem_of. Qed.

(** *** Carving a road ends *)

Lemma updateTile_size p f tiles :
  length (updateTile p f tiles) = length tiles
  /\ rowLength (updateTile p f tiles) = rowLength tiles.
Proof.
  unfold updateTile. destruct (_ || _); [done|].
  rewrite length_alter. split; [done|].
  destruct tiles as [|row rest]; [done|].
  destruct (Z.to_nat (Position.y p)); simpl; [|done].
  by rewrite length_alter.
Qed.

Lemma clamp_id W v : 0 <= v <= W - 1 -> Z.max 0 (Z.min (W - 1) v) = v.
Proof. lia. Qed.

(** A step of the walk stays on the grid and comes one tile closer. *)
Lemma roadStep_closer primary tiles end_ current :
  onGrid tiles end_ -> onGrid tiles current -> current <> end_ ->
  onGrid tiles (roadStep primary tiles end_ current)
  /\ manhattanDistance (roadStep primary tiles end_ current) end_
     = manhattanDistance current end_ - 1.
Proof.
  unfold onGrid, roadStep, manhattanDistance.
  destruct end_ as [ex ey], current as [cx cy]. cbn [Position.x Position.y].
  generalize (rowLength tiles) (Z.of_nat (length tiles)). intros W H.
  intros He Hc Hne.
  assert (Hd : cx <> ex \/ cy <> ey)
    by (destruct (decide (cx = ex)); [right|left]; congruence).
  clear Hne.
  destruct (Z.lt_trichotomy cx ex) as [Hx|[Hx|Hx]];
    destruct (Z.lt_trichotomy cy ey) as [Hy|[Hy|Hy]]; try lia.
  all: try (rewrite (Z.sgn_pos (ex - cx)) by lia).
  all: try (rewrite (Z.sgn_neg (ex - cx)) by lia).
  all: try (rewrite (Z.sgn_pos (ey - cy)) by lia).
  all: try (rewrite (Z.sgn_neg (ey - cy)) by lia).
  all: try (replace (ex - cx) with 0 by lia).
  all: try (replace (ey - cy) with 0 by lia).
  all: cbn [Z.sgn Z.abs].
  all: try (rewrite (Z.abs_eq (ex - cx)) by lia).
  all: try (rewrite (Z.abs_neq (ex - cx)) by lia).
  all: try (rewrite (Z.abs_eq (ey - cy)) by lia).
  all: try (rewrite (Z.abs_neq (ey - cy)) by lia).
  all: destruct primary;
    repeat match goal with
           | |- context [?a >? ?b] => destruct (Z.gtb_spec a b)
           | |- context [?a <=? ?b] => destruct (Z.leb_spec a b)
           | |- context [?a =? ?b] => destruct (Z.eqb_spec a b)
           end; cbn [andb negb Position.x Position.y];
    try (exfalso; lia); rewrite !clamp_id by lia; lia.
Qed.

(** The walk from [current] is over after [manhattanDistance current end_]
    steps: iterations allowed beyond that number are never used. *)
Lemma roadWalk_ends end_ d :
  forall current tiles g k,
    onGrid tiles end_ -> onGrid tiles current ->
    Z.to_nat (manhattanDistance current end_) = d ->
    roadWalk (d + k) end_ current tiles g = roadWalk d end_ current tiles g.
Proof.
  induction d as [|d IH]; intros current tiles g k He Hc Hd.
  - assert (current = end_) as ->.
    { unfold manhattanDistance in Hd. destruct current, end_. simpl in *.
      f_equal; lia. }
    destruct k; simpl; [done|]. by rewrite !Z.eqb_refl.
  - assert (Hne : current <> end_).
    { intros ->. unfold manhattanDistance in Hd. lia. }
    simpl.
    destruct ((Position.x current =? Position.x end_)
              && (Position.y current =? Position.y end_)); [done|].
    unfold mbind, Rand_bind. destruct (chance (3 # 5) g) as [primary g'].
    destruct (updateTile_size current carveRoad tiles) as [Hlen Hrow].
    assert (He' : onGrid (updateTile current carveRoad tiles) end_)
      by (unfold onGrid; rewrite Hlen, Hrow; exact He).
    assert (Hc' : onGrid (updateTile current carveRoad tiles) current)
      by (unfold onGrid; rewrite Hlen, Hrow; exact Hc).
    destruct (roadStep_closer primary _ end_ current He' Hc' Hne) as [Hon Hdist].
    apply IH; [done|done|]. rewrite Hdist. lia.
Qed.

(** *** Where features are placed *)

Lemma findValidPositions_inside tiles validTerrains pos :
  pos ∈ findValidPositions tiles validTerrains ->
  insideBorder (rowLength tiles) (Z.of_nat (length tiles)) pos.
Proof.
  unfold findValidPositions.
  intros (y & Hy & Hin)%list_elem_of_In%in_flat_map.
  apply in_flat_map in Hin as (x & Hx & Hin).
  apply list_elem_of_In, elem_of_seqZ in Hy, Hx.
  destruct (tileAt tiles (Position.mk x y)); [|done].
  destruct (_ && _); [|done].
  destruct Hin as [<-|[]]. unfold insideBorder. simpl. lia.
Qed.

Lemma generateTerrain_size width height noise g :
  let tiles := fst (generateTerrain width height noise g) in
  Z.of_nat (length tiles) = Z.max 0 height
  /\ (rowLength tiles = Z.max 0 width \/ rowLength tiles = 0).
Proof.
  unfold generateTerrain. run_rand.
  rewrite length_map, length_seqZ. split; [lia|].
  destruct (seqZ 0 height); cbn [map rowLength]; [by right|left].
  rewrite length_map, length_seqZ. lia.
Qed.

Lemma createTown_spec pos isPlayerStart g :
  PointOfInterest.position (fst (createTown pos isPlayerStart g)) = pos
  /\ PointOfInterest.type (fst (createTown pos isPlayerStart g))
     = PointOfInterestType.town.
Proof. unfold createTown. run_rand. by cbn. Qed.

Lemma createCamp_spec pos g :
  PointOfInterest.position (fst (createCamp pos g)) = pos
  /\ PointOfInterest.type (fst (createCamp pos g))
     = PointOfInterestType.enemy_camp.
Proof. unfold createCamp. run_rand. by cbn. Qed.

Section Placement.

(** [S] holds of every position the loops may use. *)
Variable S : Position.t -> Prop.

Lemma townsLoop_placed count positions :
  (forall p, p ∈ positions -> S p) ->
  forall towns g,
    Forall (fun t => S (PointOfInterest.position t)
                     /\ PointOfInterest.type t = PointOfInterestType.town)
           towns ->
    Forall (fun t => S (PointOfInterest.position t)
                     /\ PointOfInterest.type t = PointOfInterestType.town)
           (fst (townsLoop count positions towns g)).
Proof.
  induction positions as [|pos rest IH]; intros HS towns g Htowns; simpl; [done|].
  assert (Hrest : forall p, p ∈ rest -> S p)
    by (intros p Hp; apply HS; by apply elem_of_cons; right).
  destruct (_ >=? count); [done|].
  destruct (negb _); [|by apply IH].
  unfold mbind, Rand_bind.
  pose proof (createTown_spec pos (bool_decide (length towns = 0%nat)) g) as [Hp Ht].
  destruct (createTown pos _ g) as [t g']. simpl in Hp, Ht.
  apply IH; [done|]. apply Forall_app. split; [done|].
  apply Forall_singleton. split; [|done].
  rewrite Hp. apply HS. by apply elem_of_cons; left.
Qed.

Lemma campsLoop_placed count towns positions :
  (forall p, p ∈ positions -> S p) ->
  forall camps g,
    Forall (fun t => S (PointOfInterest.position t)
                     /\ PointOfInterest.type t = PointOfInterestType.enemy_camp)
           camps ->
    Forall (fun t => S (PointOfInterest.position t)
                     /\ PointOfInterest.type t = PointOfInterestType.enemy_camp)
           (fst (campsLoop count towns positions camps g)).
Proof.
  induction positions as [|pos rest IH]; intros HS camps g Hcamps; simpl; [done|].
  assert (Hrest : forall p, p ∈ rest -> S p)
    by (intros p Hp; apply HS; by apply elem_of_cons; right).
  destruct (_ >=? count); [done|].
  destruct (_ && _); [|by apply IH].
  unfold mbind, Rand_bind.
  pose proof (createCamp_spec pos g) as [Hp Ht].
  destruct (createCamp pos g) as [t g']. simpl in Hp, Ht.
  apply IH; [done|]. apply Forall_app. split; [done|].
  apply Forall_singleton. split; [|done].
  rewrite Hp. apply HS. by apply elem_of_cons; left.
Qed.

Lemma nodesLoop_placed tiles count towns camps positions :
  (forall p, p ∈ positions -> S p) ->
  forall nodes g,
    Forall (fun n => S (ResourceNode.position n)
                     /\ ResourceNode.isOwned n = false) nodes ->
    Forall (fun n => S (ResourceNode.position n)
                     /\ ResourceNode.isOwned n = false)
           (fst (nodesLoop tiles count towns camps positions nodes g)).
Proof.
  induction positions as [|pos rest IH]; intros HS nodes g Hnodes; simpl; [done|].
  assert (Hrest : forall p, p ∈ rest -> S p)
    by (intros p Hp; apply HS; by apply elem_of_cons; right).
  destruct (_ >=? count); [done|].
  destruct (negb _); [|by apply IH].
  unfold mbind, Rand_bind.
  destruct (pickResourceType _ g) as [resourceType g1].
  destruct (randomId g1) as [id g2].
  destruct (randomInt 5 20 g2) as [amountPerTurn g3].
  apply IH; [done|]. apply Forall_app. split; [done|].
  apply Forall_singleton. split; [|done].
  apply HS. by apply elem_of_cons; left.
Qed.

Lemma encountersLoop_placed count towns camps resources positions :
  (forall p, p ∈ positions -> S p) ->
  forall encounters g,
    Forall (fun t => S (PointOfInterest.position t)
                     /\ PointOfInterest.type t
                        = PointOfInterestType.neutral_encounter)
           encounters ->
    Forall (fun t => S (PointOfInterest.position t)
                     /\ PointOfInterest.type t
                        = PointOfInterestType.neutral_encounter)
           (fst (encountersLoop count towns camps resources positions
                   encounters g)).
Proof.
  induction positions as [|pos rest IH]; intros HS encounters g He; simpl; [done|].
  assert (Hrest : forall p, p ∈ rest -> S p)
    by (intros p Hp; apply HS; by apply elem_of_cons; right).
  destruct (_ >=? count); [done|].
  destruct (negb _); [|by apply IH].
  unfold mbind, Rand_bind.
  destruct (randomId g) as [id g1].
  destruct (randomElement _ _ g1) as [name g2].
  apply IH; [done|]. apply Forall_app. split; [done|].
  apply Forall_singleton. split; [|done].
  apply HS. by apply elem_of_cons; left.
Qed.

End Placement.

(** *** Towns keep their distance *)

Lemma Spaced_snoc d l t :
  Spaced d l ->
  (forall a, a ∈ l ->
     d <= manhattanDistance (PointOfInterest.position t)
                            (PointOfInterest.position a)) ->
  Spaced d (l ++ [t]).
Proof.
  intros Hl Ht i j a b Hij Ha Hb.
  apply lookup_snoc_Some in Ha as [[Hi Ha]|[Hi <-]];
    apply lookup_snoc_Some in Hb as [[Hj Hb]|[Hj <-]].
  - by apply (Hl i j).
  - rewrite manhattanDistance_sym. apply Ht. by eapply list_elem_of_lookup_2.
  - apply Ht. by eapply list_elem_of_lookup_2.
  - lia.
Qed.

Lemma townsLoop_spaced count positions :
  forall towns g,
    Spaced 8 towns -> Spaced 8 (fst (townsLoop count positions towns g)).
Proof.
  induction positions as [|pos rest IH]; intros towns g Htowns; simpl; [done|].
  destruct (_ >=? count); [done|].
  destruct (existsb _ towns) eqn:Hclose; simpl; [by apply IH|].
  unfold mbind, Rand_bind.
  pose proof (createTown_spec pos (bool_decide (length towns = 0%nat)) g) as [Hp _].
  destruct (createTown pos _ g) as [t g']. simpl in Hp.
  apply IH. apply Spaced_snoc; [done|].
  intros a Ha. rewrite Hp.
  destruct (Z.ltb_spec (manhattanDistance pos (PointOfInterest.position a)) 8)
    as [Hlt|Hge]; [|lia].
  assert (existsb (fun town =>
            manhattanDistance pos (PointOfInterest.position town) <? 8) towns
          = true); [|congruence].
  apply existsb_exists. exists a. split; [by apply list_elem_of_In|].
  by apply Z.ltb_lt.
Qed.

Lemma filter_all {A} (P : A -> Prop) `{!forall x, Decision (P x)} (l : list A) :
  Forall P l -> filter P l = l.
Proof.
  induction 1 as [|x l Hx _ IH]; [done|].
  by rewrite filter_cons_True, IH.
Qed.

Lemma filter_none {A} (P : A -> Prop) `{!forall x, Decision (P x)} (l : list A) :
  Forall (fun x => ~ P x) l -> filter P l = [].
Proof.
  induction 1 as [|x l Hx _ IH]; [done|].
  by rewrite filter_cons_False, IH.
Qed.

(** What [generateWorld] returns: the towns, camps and encounters placed by
    the three loops on valid positions of the generated grid, and the nodes
    placed by the fourth. *)
Lemma generateWorld_features seedrandom config :
  exists tiles towns camps encounters nodes,
    generateWorld seedrandom config
      = WorldMap.mk (WorldGenConfig.width config) (WorldGenConfig.height config)
          tiles (towns ++ camps ++ encounters) nodes (WorldGenConfig.seed config)
    /\ Spaced 8 towns
    /\ Forall (fun t =>
         insideBorder (WorldGenConfig.width config)
           (WorldGenConfig.height config) (PointOfInterest.position t)
         /\ PointOfInterest.type t = PointOfInterestType.town) towns
    /\ Forall (fun t =>
         insideBorder (WorldGenConfig.width config)
           (WorldGenConfig.height config) (PointOfInterest.position t)
         /\ PointOfInterest.type t = PointOfInterestType.enemy_camp) camps
    /\ Forall (fun t =>
         insideBorder (WorldGenConfig.width config)
           (WorldGenConfig.height config) (PointOfInterest.position t)
         /\ PointOfInterest.type t = PointOfInterestType.neutral_encounter)
         encounters
    /\ Forall (fun n =>
         insideBorder (WorldGenConfig.width config)
           (WorldGenConfig.height config) (ResourceNode.position n)
         /\ ResourceNode.isOwned n = false) nodes.
Proof.
  unfold generateWorld. unfold mbind at 1 2 3 4 5 6 7, Rand_bind.
  destruct (SimplexNoise.new _) as [noise g1].
  pose proof (generateTerrain_size (WorldGenConfig.width config)
                (WorldGenConfig.height config) noise g1) as [Hrows Hcols].
  destruct (generateTerrain _ _ noise g1) as [tiles g2]. simpl in Hrows, Hcols.
  assert (Hinside : forall terrains g p,
            p ∈ fst (shuffle (findValidPositions tiles terrains) g) ->
            insideBorder (WorldGenConfig.width config)
              (WorldGenConfig.height config) p).
  { intros terrains g p Hp%shuffle_elem_of%findValidPositions_inside.
    unfold insideBorder in *. lia. }
  unfold generateTowns, generateEnemyCamps, generateResourceNodes,
    generateNeutralEncounters.
  unfold mbind at 1 2 3 4, Rand_bind.
  pose proof (Hinside [TerrainType.grass; TerrainType.desert] g2) as Hin1.
  destruct (shuffle _ g2) as [positions1 g3]. simpl in Hin1.
  pose proof (townsLoop_spaced (WorldGenConfig.numTowns config) positions1 [] g3)
    as Hspaced.
  pose proof (townsLoop_placed _ (WorldGenConfig.numTowns config) positions1
                Hin1 [] g3 (Forall_nil_2 _)) as Htowns.
  destruct (townsLoop _ positions1 [] g3) as [towns g4]. simpl in Hspaced, Htowns.
  pose proof (Hinside [TerrainType.grass; TerrainType.forest; TerrainType.desert] g4)
    as Hin2.
  destruct (shuffle _ g4) as [positions2 g5]. simpl in Hin2.
  pose proof (campsLoop_placed _ (WorldGenConfig.numEnemyCamps config) towns
                positions2 Hin2 [] g5 (Forall_nil_2 _)) as Hcamps.
  destruct (campsLoop _ towns positions2 [] g5) as [camps g6]. simpl in Hcamps.
  pose proof (Hinside [TerrainType.grass; TerrainType.forest; TerrainType.desert;
                       TerrainType.mountain] g6) as Hin3.
  destruct (shuffle _ g6) as [positions3 g7]. simpl in Hin3.
  pose proof (nodesLoop_placed _ tiles (WorldGenConfig.numResourceNodes config)
                towns camps positions3 Hin3 [] g7 (Forall_nil_2 _)) as Hnodes.
  destruct (nodesLoop tiles _ towns camps positions3 [] g7) as [nodes g8].
  simpl in Hnodes.
  pose proof (Hinside [TerrainType.grass; TerrainType.forest] g8) as Hin4.
  destruct (shuffle _ g8) as [positions4 g9]. simpl in Hin4.
  pose proof (encountersLoop_placed _
                (WorldGenConfig.numNeutralEncounters config) towns camps nodes
                positions4 Hin4 [] g9 (Forall_nil_2 _)) as Hencounters.
  destruct (encountersLoop _ towns camps nodes positions4 [] g9)
    as [encounters g10]. simpl in Hencounters.
  unfold mbind, Rand_bind.
  destruct (generateRoads _ towns g10) as [roads g11].
  exists roads, towns, camps, encounters, nodes.
  split; [reflexivity|]. split; [by apply Hspaced|]. done.
Qed.

(** C8 - any two distinct towns of the world that [generateWorld] returns,
    for any configuration and any seed, are at Manhattan distance 8 or
    more. *)
Theorem towns_spaced
    (seedrandom : string -> nat -> Q) (config : WorldGenConfig.t)
    (i j : nat) (t1 t2 : PointOfInterest.t) :
  i <> j ->
  townsOf (generateWorld seedrandom config) !! i = Some t1 ->
  townsOf (generateWorld seedrandom config) !! j = Some t2 ->
  8 <= manhattanDistance (PointOfInterest.position t1)
                         (PointOfInterest.position t2).
Proof.
  destruct (generateWorld_features seedrandom config)
    as (tiles & towns & camps & encounters & nodes
        & -> & Hspaced & Htowns & Hcamps & Henc & _).
  unfold townsOf. cbn [WorldMap.pointsOfInterest]. rewrite !filter_app.
  rewrite (filter_all _ towns), (filter_none _ camps), (filter_none _ encounters).
  - rewrite !app_nil_r. intros Hij H1 H2. by apply (Hspaced i j).
  - eapply Forall_impl; [exact Henc|]. intros t [_ Ht]. by rewrite Ht.
  - eapply Forall_impl; [exact Hcamps|]. intros t [_ Ht]. by rewrite Ht.
  - eapply Forall_impl; [exact Htowns|]. by intros t [_ Ht].
Qed.

(** C10 - every town, enemy camp and neutral encounter, and every resource
    node, of the world that [generateWorld] returns lies strictly inside the
    map border: [1 <= x <= width - 2] and [1 <= y <= height - 2]. *)
Theorem features_inside_border
    (seedrandom : string -> nat -> Q) (config : WorldGenConfig.t) :
  Forall (fun poi =>
            insideBorder (WorldGenConfig.width config)
              (WorldGenConfig.height config) (PointOfInterest.position poi))
         (WorldMap.pointsOfInterest (generateWorld seedrandom config))
  /\ Forall (fun node =>
               insideBorder (WorldGenConfig.width config)
                 (WorldGenConfig.height config) (ResourceNode.position node))
            (WorldMap.resourceNodes (generateWorld seedrandom config)).
Proof.
  destruct (generateWorld_features seedrandom config)
    as (tiles & towns & camps & encounters & nodes
        & -> & _ & Htowns & Hcamps & Henc & Hnodes).
  cbn [WorldMap.pointsOfInterest WorldMap.resourceNodes]. split.
  - rewrite !Forall_app. repeat split.
    + eapply Forall_impl; [exact Htowns|]. by intros t [? _].
    + eapply Forall_impl; [exact Hcamps|]. by intros t [? _].
    + eapply Forall_impl; [exact Henc|]. by intros t [? _].
  - eapply Forall_impl; [exact Hnodes|]. by intros t [? _].
Qed.

(** The two towns of the world generated from [demoConfig] lie at (9, 2) and
    (1, 3). *)
Lemma towns_spaced_witness :
  exists t1 t2,
    townsOf (generateWorld demoStream demoConfig) !! 0%nat = Some t1
    /\ townsOf (generateWorld demoStream demoConfig) !! 1%nat = Some t2
    /\ PointOfInterest.position t1 = Position.mk 9 2
    /\ PointOfInterest.position t2 = Position.mk 1 3
    /\ 8 <= manhattanDistance (PointOfInterest.position t1)
                              (PointOfInterest.position t2).
Proof.
  assert (Hpos : map PointOfInterest.position
                   (townsOf (generateWorld demoStream demoConfig))
                 = [Position.mk 9 2; Position.mk 1 3])
    by (vm_compute; reflexivity).
  destruct (townsOf (generateWorld demoStream demoConfig)) as [|t1 [|t2 rest]]
    eqn:Htowns; try discriminate Hpos.
  injection Hpos as H1 H2 _.
  exists t1, t2. split; [reflexivity|]. split; [reflexivity|].
  split; [exact H1|]. split; [exact H2|].
  apply (towns_spaced demoStream demoConfig 0 1 t1 t2);
    [lia | by rewrite Htowns | by rewrite Htowns].
Defined.


(** ** Treasuries *)







Lemma collect_unowned nodes faction :
  Forall (fun n => ResourceNode.isOwned n = false) nodes ->
  collect nodes faction = faction.
Proof.
  intros Hnodes. unfold collect.
  assert (H : forall r,
            foldl (fun resources node =>
                     if ResourceNode.isOwned node
                        && bool_decide (ResourceNode.ownedBy node
                                        = Some (Faction.id faction))
                     then Resources.add (ResourceNode.resourceType node)
                            (ResourceNode.amountPerTurn node) resources
                     else resources) r nodes = r).
  { induction Hnodes as [|n nodes Hn _ IH]; intros r; simpl; [done|].
    by rewrite Hn, IH. }
  rewrite H. by destruct faction.
Qed.



Lemma combatStep_frame now action state :
  GameState.factions (executeCombatAction now action state)
    = GameState.factions state
  /\ GameState.worldMap (executeCombatAction now action state)
    = GameState.worldMap state.
Proof.
  unfold executeCombatAction. by destruct (GameState.combatState state).
Qed.

Lemma attackAll_frame env enemies units :
  forall n k state,
    GameState.factions (attackAll env enemies units n k state).1.2
      = GameState.factions state
    /\ GameState.worldMap (attackAll env enemies units n k state).1.2
      = GameState.worldMap state.
Proof.
  induction units as [|unit rest IH]; intros n k state; cbn [attackAll];
    [done|].
  destruct (bool_decide _); [done|].
  destruct (if _ <? 0 then None else _) as [target|]; [|done].
  cbv zeta.
  match goal with |- context [attackAll env enemies rest ?n' ?k' ?s'] =>
    destruct (IH n' k' s') as [-> ->] end.
  apply combatStep_frame.
Qed.

Lemma autoRounds_frame env maxRounds :
  forall n k state,
    GameState.factions (autoRounds env maxRounds n k state).1.2
      = GameState.factions state
    /\ GameState.worldMap (autoRounds env maxRounds n k state).1.2
      = GameState.worldMap state.
Proof.
  induction maxRounds as [|maxRounds IH]; intros n k state; simpl; [done|].
  destruct (GameState.combatState state) as [combat|]; [|done].
  destruct (_ || _); [done|].
  pose proof (attackAll_frame env (CombatState.defenderUnits combat)
                (CombatState.attackerUnits combat) n k state) as [Hf1 Hw1].
  destruct (attackAll env _ _ n k state) as [[[n1 k1] s1] [|]]; simpl in *;
    [|done].
  destruct (GameState.combatState s1) as [combatAfterAttack|]; [|done].
  destruct (bool_decide _); [done|].
  pose proof (attackAll_frame env (CombatState.attackerUnits combatAfterAttack)
                (CombatState.defenderUnits combatAfterAttack) n1 k1 s1)
    as [Hf2 Hw2].
  destruct (attackAll env _ _ n1 k1 s1) as [[[n2 k2] s2] [|]]; simpl in *.
  - destruct (IH n2 k2 s2) as [-> ->]. split; congruence.
  - split; congruence.
Qed.

Lemma runAutoBattle_frame env state :
  GameState.factions (stateAfter (runAutoBattle env state))
    = GameState.factions state
  /\ GameState.worldMap (stateAfter (runAutoBattle env state))
    = GameState.worldMap state.
Proof.
  unfold runAutoBattle.
  destruct (GameState.combatState state); [|done].
  pose proof (autoRounds_frame env 20 0%nat 0%nat state) as H.
  destruct (autoRounds env 20 0%nat 0%nat state) as [[[n k] s] [|]];
    simpl in *; [|done].
  by destruct (GameState.combatState s).
Qed.








(** ** What is read outside the seeded stream *)

(** *** The clock in the combat log *)











(** *** The clock in the id of a recruited stack *)




(** *** What the commands read of the combat log *)
















(** ** The seeded generator *)

Lemma advance_UnitDraws n g : UnitDraws g -> UnitDraws (advance n g).
Proof. intros H k. apply H. Qed.

Lemma advance_advance n m g : advance n (advance m g) = advance (n + m) g.
Proof. unfold advance. simpl. f_equal. lia. Qed.

Lemma advance_0 g : advance 0 g = g.
Proof. by destruct g. Qed.

Lemma demoStream_unit seed n :
  (0 <= demoStream seed n)%Q /\ (demoStream seed n < 1)%Q.
Proof.
  unfold demoStream.
  set (v := Z.of_nat n * 7919 + 104729 * Z.of_nat (String.length seed)).
  pose proof (Z.mod_pos_bound v 1009 ltac:(lia)) as [Hlo Hhi].
  unfold Qle, Qlt. simpl. lia.
Qed.

Lemma demoRandom_unit : UnitDraws demoRandom.
Proof. intros n. apply demoStream_unit. Qed.

Lemma randomInt_advance min max g : snd (randomInt min max g) = advance 1 g.
Proof. reflexivity. Qed.

(** [Math.floor(r * n)] for a draw [r] in [0, 1) is one of [0 .. n - 1]. *)
Lemma floor_scaled (r : Q) (n : Z) :
  (0 <= r)%Q -> (r < 1)%Q -> 0 < n -> 0 <= Qfloor (r * inject_Z n) < n.
Proof.
  intros H0 H1 Hn.
  assert (Hd : (0 < inject_Z n)%Q) by (rewrite <- (Zlt_Qlt 0); lia).
  assert (Hlo : (0 <= r * inject_Z n)%Q) by nra.
  assert (Hhi : (r * inject_Z n < inject_Z n)%Q) by nra.
  pose proof (Qfloor_resp_le _ _ Hlo) as Hfloor0.
  change (Qfloor 0) with 0 in Hfloor0.
  split; [done|].
  rewrite Zlt_Qlt. eapply Qle_lt_trans; [apply Qfloor_le|exact Hhi].
Qed.

Lemma randomInt_unit min max g :
  UnitDraws g -> min < max -> min <= fst (randomInt min max g) < max.
Proof.
  intros Hg Hlt. destruct (Hg (SeededRandom.drawn g)) as [H0 H1].
  unfold randomInt, random. run_rand.
  pose proof (floor_scaled _ (max - min) H0 H1 ltac:(lia)). lia.
Qed.


Lemma randomElement_advance {A} (undefined : A) array g :
  snd (randomElement undefined array g) = advance 1 g.
Proof. reflexivity. Qed.

Lemma randomElement_unit {A} (undefined : A) (array : list A) g :
  UnitDraws g -> array <> [] ->
  fst (randomElement undefined array g) ∈ array.
Proof.
  intros Hg Hne. unfold randomElement. unfold mbind, Rand_bind.
  pose proof (randomInt_unit 0 (Z.of_nat (length array)) g Hg) as Hi.
  destruct (randomInt 0 _ g) as [i g']. simpl in *.
  assert (0 < Z.of_nat (length array)) by (destruct array; simpl; [done|lia]).
  specialize (Hi ltac:(done)).
  destruct (Z.ltb_spec i 0); [lia|].
  destruct (nth_lookup_or_length array (Z.to_nat i) undefined) as [Hl|Hl]; [|lia].
  by eapply list_elem_of_lookup_2.
Qed.

(** X3 - [randomElement(array)]: for a draw in [0, 1) the result is an
    element of a non-empty array; for the empty array it is [undefined]. *)
Theorem randomElement_member {A} (undefined : A) (array : list A)
    (g : SeededRandom.t) :
  UnitDraws g ->
  match array with
  | [] => fst (randomElement undefined array g) = undefined
  | _ :: _ => fst (randomElement undefined array g) ∈ array
  end.
Proof.
  intros Hg. destruct array as [|a array].
  - unfold randomElement, randomInt, random. run_rand. cbn [fst length].
    destruct (_ <? 0); [done|]. by destruct (Z.to_nat _).
  - by apply randomElement_unit.
Qed.

Lemma randomElement_member_witness :
  fst (randomElement "undefined" townNames demoRandom) = "Goldcrest"
  /\ fst (randomElement "undefined" townNames demoRandom) ∈ townNames.
Proof.
  split; [reflexivity|].
  apply (randomElement_member "undefined" townNames demoRandom demoRandom_unit).
Defined.

(** *** Shuffling *)

Lemma swap_Permutation {A} (i j : nat) (l : list A) : swap i j l ≡ₚ l.
Proof.
  unfold swap.
  destruct (l !! i) as [a|] eqn:Hi; [|done].
  destruct (l !! j) as [b|] eqn:Hj; [|done].
  by apply Permutation_insert_swap.
Qed.

Lemma shuffleFrom_spec {A} (n : nat) :
  forall (l : list A) g,
    fst (shuffleFrom n l g) ≡ₚ l /\ snd (shuffleFrom n l g) = advance n g.
Proof.
  induction n as [|n IH]; intros l g.
  - simpl. split; [done|]. by rewrite advance_0.
  - cbn [shuffleFrom]. unfold mbind, Rand_bind.
    pose proof (randomInt_advance 0 (Z.of_nat (S n) + 1) g) as Hg.
    destruct (randomInt 0 _ g) as [j g']. simpl in Hg. subst g'.
    destruct (IH (if j <? 0 then l else swap (S n) (Z.to_nat j) l) (advance 1 g))
      as [Hp Hs].
    split.
    + rewrite Hp. destruct (j <? 0); [done|]. apply swap_Permutation.
    + rewrite Hs, advance_advance. f_equal. lia.
Qed.

(** X4 - [shuffle(array)] with draws in [0, 1) returns a rearrangement of
    the array: the same elements, each as often as before.  It takes one
    draw for every element but one. *)
Theorem shuffle_rearranges {A} (array : list A) (g : SeededRandom.t) :
  UnitDraws g ->
  fst (shuffle array g) ≡ₚ array
  /\ snd (shuffle array g) = advance (length array - 1) g.
Proof. intros _. unfold shuffle. apply shuffleFrom_spec. Qed.

Lemma shuffle_rearranges_witness :
  fst (shuffle [1; 2; 3; 4; 5] demoRandom) = [4; 2; 3; 5; 1]
  /\ fst (shuffle [1; 2; 3; 4; 5] demoRandom) ≡ₚ [1; 2; 3; 4; 5].
Proof.
  split; [reflexivity|].
  apply (shuffle_rearranges [1; 2; 3; 4; 5] demoRandom demoRandom_unit).
Defined.

Lemma shuffle_Permutation {A} (array : list A) g : fst (shuffle array g) ≡ₚ array.
Proof. unfold shuffle. apply shuffleFrom_spec. Qed.

Lemma shuffle_advance {A} (array : list A) g :
  snd (shuffle array g) = advance (length array - 1) g.
Proof. unfold shuffle. apply shuffleFrom_spec. Qed.

(** X5 - [pickMultiple(array, count)] with draws in [0, 1) and a count that
    is not negative returns [min(count, array.length)] elements; they are
    elements of the array, none taken more often than the array holds it,
    so they are distinct if the array's are. *)
Theorem pickMultiple_picks {A} (array : list A) (count : Z)
    (g : SeededRandom.t) :
  UnitDraws g -> 0 <= count ->
  let picked := fst (pickMultiple array count g) in
  Z.of_nat (length picked) = Z.min count (Z.of_nat (length array))
  /\ (exists rest, picked ++ rest ≡ₚ array)
  /\ (NoDup array -> NoDup picked).
Proof.
  intros _ Hcount. unfold pickMultiple. unfold mbind, mret, Rand_bind, Rand_ret.
  pose proof (shuffle_Permutation array g) as Hp.
  destruct (shuffle array g) as [shuffled g']. cbn [fst] in *.
  unfold sliceTo.
  destruct (Z.ltb_spec (Z.min count (Z.of_nat (length array))) 0); [lia|].
  assert (Hlen : length shuffled = length array) by by rewrite Hp.
  split; [rewrite length_take; lia|].
  assert (Hrest : take (Z.to_nat (Z.min count (Z.of_nat (length array)))) shuffled
                  ++ drop (Z.to_nat (Z.min count (Z.of_nat (length array)))) shuffled
                  ≡ₚ array) by by rewrite take_drop.
  split; [by eexists|].
  intros Hnodup. rewrite <- Hrest in Hnodup.
  by apply NoDup_app in Hnodup as [? _].
Qed.

Lemma pickMultiple_picks_witness :
  fst (pickMultiple [1; 2; 3; 4; 5] 3 demoRandom) = [4; 2; 3]
  /\ Z.of_nat (length (fst (pickMultiple [1; 2; 3; 4; 5] 3 demoRandom))) = 3.
Proof.
  split; [reflexivity|].
  apply (pickMultiple_picks [1; 2; 3; 4; 5] 3 demoRandom demoRandom_unit).
  lia.
Defined.

(** *** Identifiers *)

Lemma length_append (s1 s2 : string) :
  String.length (s1 +:+ s2) = (String.length s1 + String.length s2)%nat.
Proof.
  induction s1 as [|c s1 IH]; [done|].
  change (S (String.length (s1 +:+ s2))
          = S (String.length s1 + String.length s2)).
  by rewrite IH.
Qed.

Lemma append_empty (s : string) : s +:+ EmptyString = s.
Proof.
  induction s as [|c s IH]; [done|].
  change (String c (s +:+ EmptyString) = String c s). by rewrite IH.
Qed.

Lemma append_assoc (s1 s2 s3 : string) :
  (s1 +:+ s2) +:+ s3 = s1 +:+ (s2 +:+ s3).
Proof.
  induction s1 as [|c s1 IH]; [done|].
  change (String c ((s1 +:+ s2) +:+ s3) = String c (s1 +:+ (s2 +:+ s3))).
  by rewrite IH.
Qed.

Lemma letters_append (s1 s2 : string) :
  letters (s1 +:+ s2) = letters s1 ++ letters s2.
Proof.
  induction s1 as [|c s1 IH]; [done|].
  change (String c EmptyString :: letters (s1 +:+ s2)
          = String c EmptyString :: (letters s1 ++ letters s2)).
  by rewrite IH.
Qed.

Lemma letters_get (s : string) (i : nat) (c : Ascii.ascii) :
  String.get i s = Some c -> String c EmptyString ∈ letters s.
Proof.
  revert i. induction s as [|d s IH]; intros i; simpl; [done|].
  destruct i as [|i].
  - intros [= ->]. by apply elem_of_cons; left.
  - intros H. apply elem_of_cons; right. by eapply IH.
Qed.

Lemma get_is_Some (s : string) (i : nat) :
  (i < String.length s)%nat -> is_Some (String.get i s).
Proof.
  revert i. induction s as [|d s IH]; intros i; simpl; [lia|].
  destruct i as [|i]; [by eexists|]. intros H. apply IH. lia.
Qed.

(** [chars.charAt(i)] for an index of [chars] is one of its characters. *)
Lemma charAt_chars (i : Z) :
  0 <= i < Z.of_nat (String.length chars) ->
  String.length (charAt chars i) = 1%nat
  /\ letters (charAt chars i) ⊆ letters chars.
Proof.
  intros Hi. unfold charAt. destruct (Z.ltb_spec i 0); [lia|].
  destruct (get_is_Some chars (Z.to_nat i) ltac:(lia)) as [c Hc]. rewrite Hc.
  split; [done|]. intros x [->|[]%elem_of_nil]%elem_of_cons.
  by eapply letters_get.
Qed.

Lemma randomIdFrom_spec (n : nat) :
  forall result g,
    UnitDraws g ->
    exists suffix,
      fst (randomIdFrom n result g) = result +:+ suffix
      /\ String.length suffix = n
      /\ letters suffix ⊆ letters chars
      /\ snd (randomIdFrom n result g) = advance n g.
Proof.
  induction n as [|n IH]; intros result g Hg.
  - exists EmptyString. simpl. split; [by rewrite append_empty|].
    split; [done|]. split; [by intros x ?%elem_of_nil|]. by rewrite advance_0.
  - cbn [randomIdFrom]. unfold mbind, Rand_bind.
    pose proof (randomInt_unit 0 (Z.of_nat (String.length chars)) g Hg
                  ltac:(done)) as Hi.
    pose proof (randomInt_advance 0 (Z.of_nat (String.length chars)) g) as Hg'.
    destruct (randomInt 0 _ g) as [i g']. cbn [fst snd] in Hi, Hg'. subst g'.
    destruct (charAt_chars i Hi) as [Hlen Hsub].
    destruct (IH (result +:+ charAt chars i) (advance 1 g)
                (advance_UnitDraws 1 g Hg)) as (suffix & -> & Hn & Hs & ->).
    exists (charAt chars i +:+ suffix). split; [by rewrite append_assoc|].
    split; [rewrite length_append; lia|].
    split.
    { rewrite letters_append. intros x [?|?]%elem_of_app; auto. }
    rewrite advance_advance. f_equal. lia.
Qed.

(** X6 - [randomId()] with draws in [0, 1) is a string of eight characters,
    each a lower-case letter or a digit; it takes eight draws. *)
Theorem randomId_shape (g : SeededRandom.t) :
  UnitDraws g ->
  String.length (fst (randomId g)) = 8%nat
  /\ letters (fst (randomId g)) ⊆ letters chars
  /\ snd (randomId g) = advance 8 g.
Proof.
  intros Hg. unfold randomId.
  destruct (randomIdFrom_spec 8 EmptyString g Hg) as (suffix & -> & Hn & Hs & ->).
  done.
Qed.

Lemma randomId_shape_witness :
  fst (randomId demoRandom) = "ga50upje"
  /\ String.length (fst (randomId demoRandom)) = 8%nat.
Proof.
  split; [reflexivity|].
  apply (randomId_shape demoRandom demoRandom_unit).
Defined.

(** ** Generated worlds *)

(** *** Tiles *)

Lemma tileAt_updateTile p f tiles q :
  tileAt (updateTile p f tiles) q
  = if decide (q = p) then f <$> tileAt tiles q else tileAt tiles q.
Proof.
  unfold tileAt, updateTile. destruct p as [px py], q as [qx qy].
  cbn [Position.x Position.y].
  destruct (Z.ltb_spec py 0) as [Hpy|Hpy]; cbn [orb].
  { destruct (decide _) as [[= -> ->]|]; [|done].
    destruct (Z.ltb_spec py 0); [done|lia]. }
  destruct (Z.ltb_spec px 0) as [Hpx|Hpx]; cbn [orb].
  { destruct (decide _) as [[= -> ->]|]; [|done].
    destruct (Z.ltb_spec px 0); [by rewrite orb_true_r|lia]. }
  destruct (Z.ltb_spec qy 0) as [Hqy|Hqy]; cbn [orb].
  { by destruct (decide _). }
  destruct (Z.ltb_spec qx 0) as [Hqx|Hqx]; cbn [orb].
  { by destruct (decide _). }
  destruct (decide (Z.to_nat qy = Z.to_nat py)) as [Hy|Hy].
  - rewrite Hy, list_lookup_alter_eq.
    destruct (tiles !! Z.to_nat py) as [row|]; cbn.
    + destruct (decide (Z.to_nat qx = Z.to_nat px)) as [Hx|Hx].
      * rewrite Hx, list_lookup_alter_eq.
        destruct (decide _) as [_|Hne]; [done|].
        exfalso. apply Hne. f_equal; lia.
      * rewrite list_lookup_alter_ne by done.
        destruct (decide _) as [[= -> ->]|]; [lia|done].
    + by destruct (decide _).
  - rewrite list_lookup_alter_ne by done.
    destruct (decide _) as [[= -> ->]|]; [lia|done].
Qed.

Lemma tileAt_updateTile_ne p f tiles q :
  q <> p -> tileAt (updateTile p f tiles) q = tileAt tiles q.
Proof. intros H. rewrite tileAt_updateTile. by destruct (decide _). Qed.

Lemma tileAt_updateTile_eq p f tiles :
  tileAt (updateTile p f tiles) p = f <$> tileAt tiles p.
Proof. rewrite tileAt_updateTile. by destruct (decide _). Qed.

(** What [generateTerrain] puts at a position *)
Lemma generateTerrain_fresh width height noise g :
  FreshGrid width height (fst (generateTerrain width height noise g)).
Proof.
  intros p. unfold generateTerrain. run_rand.
  generalize (SimplexNoise.octaveNoise noise). intros octaveNoise.
  unfold inBounds, tileAt.
  destruct p as [x y]. cbn [Position.x Position.y].
  destruct (Z.leb_spec 0 x) as [Hx|Hx]; cbn [andb].
  2:{ destruct (Z.ltb_spec y 0); [done|].
      destruct (Z.ltb_spec x 0); [done|lia]. }
  destruct (Z.ltb_spec x width) as [Hxw|Hxw]; cbn [andb].
  2:{ destruct (_ || _); [done|].
      rewrite list_lookup_fmap.
      destruct (seqZ 0 height !! Z.to_nat y); [|done]. cbn [fmap option_fmap option_map mbind option_bind].
      rewrite list_lookup_fmap, lookup_seqZ_ge by lia. done. }
  destruct (Z.leb_spec 0 y) as [Hy|Hy]; cbn [andb].
  2:{ destruct (Z.ltb_spec y 0); [done|lia]. }
  destruct (Z.ltb_spec y height) as [Hyh|Hyh].
  2:{ destruct (_ || _); [done|].
      by rewrite list_lookup_fmap, lookup_seqZ_ge by lia. }
  destruct (Z.ltb_spec y 0); [lia|]. destruct (Z.ltb_spec x 0); [lia|].
  cbn [orb].
  rewrite list_lookup_fmap, lookup_seqZ_lt by lia.
  cbn [fmap option_fmap option_map mbind option_bind].
  rewrite list_lookup_fmap, lookup_seqZ_lt by lia.
  cbn [fmap option_fmap option_map mbind option_bind].
  rewrite !Z.add_0_l, !Z2Nat.id by lia.
  eexists _, _. split; [reflexivity|].
  unfold determineTerrain. repeat (destruct (Qltb _ _); cbn [andb]); done.
Qed.

Lemma generateTerrain_rows width height noise g :
  length (fst (generateTerrain width height noise g)) = Z.to_nat height
  /\ Forall (fun row => length row = Z.to_nat width)
       (fst (generateTerrain width height noise g)).
Proof.
  unfold generateTerrain. run_rand.
  generalize (SimplexNoise.octaveNoise noise). intros octaveNoise.
  rewrite length_map, length_seqZ. split; [lia|].
  apply Forall_fmap, Forall_forall. intros y _. unfold compose.
  rewrite length_map, length_seqZ. lia.
Qed.

Lemma updateTile_rows p f tiles n :
  Forall (fun row => length row = n) tiles ->
  Forall (fun row => length row = n) (updateTile p f tiles).
Proof.
  intros H. unfold updateTile. destruct (_ || _); [done|].
  apply Forall_alter; [done|]. intros row _ Hrow. by rewrite length_alter.
Qed.

(** *** Computations that keep the stream *)

Create HintDb steady.

Lemma Steady_ret {A} (a : A) : Steady (mret a).
Proof. by intros g. Qed.

Lemma Steady_bind {A B} (m : Rand A) (k : A -> Rand B) :
  Steady m -> (forall a, Steady (k a)) -> Steady (m ≫= k).
Proof.
  intros Hm Hk g. unfold mbind, Rand_bind.
  specialize (Hm g). destruct (m g) as [a g']. simpl in Hm.
  by rewrite Hk.
Qed.

Lemma Steady_if {A} (b : bool) (m1 m2 : Rand A) :
  Steady m1 -> Steady m2 -> Steady (if b then m1 else m2).
Proof. by destruct b. Qed.

Lemma Steady_random : Steady random.
Proof. by intros g. Qed.

#[local] Hint Resolve Steady_ret Steady_bind Steady_if Steady_random : steady.

Lemma Steady_randomInt min max : Steady (randomInt min max).
Proof. unfold randomInt. eauto with steady. Qed.

Lemma Steady_randomFloat min max : Steady (randomFloat min max).
Proof. unfold randomFloat. eauto with steady. Qed.

Lemma Steady_chance probability : Steady (chance probability).
Proof. unfold chance. eauto with steady. Qed.

#[local] Hint Resolve Steady_randomInt Steady_randomFloat Steady_chance : steady.

Lemma Steady_randomElement {A} (undefined : A) array :
  Steady (randomElement undefined array).
Proof. unfold randomElement. eauto with steady. Qed.

Lemma Steady_shuffle {A} (array : list A) : Steady (shuffle array).
Proof. intros g. by rewrite shuffle_advance. Qed.

Lemma Steady_randomIdFrom n : forall result, Steady (randomIdFrom n result).
Proof. induction n as [|n IH]; intros result; simpl; eauto with steady. Qed.

Lemma Steady_randomId : Steady randomId.
Proof. apply Steady_randomIdFrom. Qed.

#[local] Hint Resolve Steady_randomElement Steady_shuffle Steady_randomId : steady.

Lemma Steady_generateRecruitPool : Steady generateRecruitPool.
Proof. unfold generateRecruitPool. eauto 10 with steady. Qed.

Lemma Steady_garrisonLoop n difficulty :
  forall garrison, Steady (garrisonLoop n difficulty garrison).
Proof. induction n as [|n IH]; intros garrison; simpl; eauto 10 with steady. Qed.

#[local] Hint Resolve Steady_generateRecruitPool Steady_garrisonLoop : steady.

Lemma Steady_generateGarrison difficulty : Steady (generateGarrison difficulty).
Proof. unfold generateGarrison. eauto with steady. Qed.

#[local] Hint Resolve Steady_generateGarrison : steady.

Lemma Steady_createTown position isPlayerStart :
  Steady (createTown position isPlayerStart).
Proof. unfold createTown. eauto 15 with steady. Qed.

Lemma Steady_createCamp pos : Steady (createCamp pos).
Proof. unfold createCamp. eauto 15 with steady. Qed.

Lemma Steady_pickResourceType terrain : Steady (pickResourceType terrain).
Proof.
  unfold pickResourceType.
  destruct terrain as [[]|]; eauto 10 with steady.
Qed.

#[local] Hint Resolve Steady_createTown Steady_createCamp
  Steady_pickResourceType : steady.

Lemma Steady_townsLoop count positions :
  forall towns, Steady (townsLoop count positions towns).
Proof.
  induction positions as [|pos rest IH]; intros towns; simpl;
    eauto 10 with steady.
Qed.

Lemma Steady_campsLoop count towns positions :
  forall camps, Steady (campsLoop count towns positions camps).
Proof.
  induction positions as [|pos rest IH]; intros camps; simpl;
    eauto 10 with steady.
Qed.

Lemma Steady_nodesLoop tiles count towns camps positions :
  forall nodes, Steady (nodesLoop tiles count towns camps positions nodes).
Proof.
  induction positions as [|pos rest IH]; intros nodes; simpl;
    eauto 10 with steady.
Qed.

Lemma Steady_encountersLoop count towns camps resources positions :
  forall encounters,
    Steady (encountersLoop count towns camps resources positions encounters).
Proof.
  induction positions as [|pos rest IH]; intros encounters; simpl;
    eauto 10 with steady.
Qed.

#[local] Hint Resolve Steady_townsLoop Steady_campsLoop Steady_nodesLoop
  Steady_encountersLoop : steady.

Lemma Steady_generateTowns tiles count : Steady (generateTowns tiles count).
Proof. unfold generateTowns. eauto with steady. Qed.

Lemma Steady_generateEnemyCamps tiles count towns :
  Steady (generateEnemyCamps tiles count towns).
Proof. unfold generateEnemyCamps. eauto with steady. Qed.

Lemma Steady_generateResourceNodes tiles count towns camps :
  Steady (generateResourceNodes tiles count towns camps).
Proof. unfold generateResourceNodes. eauto with steady. Qed.

Lemma Steady_generateNeutralEncounters tiles count towns camps resources :
  Steady (generateNeutralEncounters tiles count towns camps resources).
Proof. unfold generateNeutralEncounters. eauto with steady. Qed.

Lemma Steady_new : Steady SimplexNoise.new.
Proof. unfold SimplexNoise.new. eauto with steady. Qed.

Lemma Steady_generateTerrain width height noise :
  Steady (generateTerrain width height noise).
Proof. unfold generateTerrain. eauto with steady. Qed.

(** *** The stages of [generateWorld] *)

(** The world is made in stages, each drawing from the stream of the seed
    where the stage before stopped. *)
Lemma generateWorld_stages seedrandom config :
  exists noise tiles towns camps nodes encounters g1 g2 g3 g4 g5 g6,
    Forall (fun g => SeededRandom.rng g
                     = seedrandom (WorldGenConfig.seed config))
           [g1; g2; g3; g4; g5; g6]
    /\ tiles = fst (generateTerrain (WorldGenConfig.width config)
                      (WorldGenConfig.height config) noise g1)
    /\ towns = fst (generateTowns tiles (WorldGenConfig.numTowns config) g2)
    /\ camps = fst (generateEnemyCamps tiles
                      (WorldGenConfig.numEnemyCamps config) towns g3)
    /\ nodes = fst (generateResourceNodes tiles
                      (WorldGenConfig.numResourceNodes config) towns camps g4)
    /\ encounters = fst (generateNeutralEncounters tiles
                           (WorldGenConfig.numNeutralEncounters config)
                           towns camps nodes g5)
    /\ generateWorld seedrandom config
       = WorldMap.mk (WorldGenConfig.width config)
           (WorldGenConfig.height config)
           (fst (generateRoads
                   (placeFeatures (towns ++ camps ++ encounters) nodes tiles)
                   towns g6))
           (towns ++ camps ++ encounters) nodes (WorldGenConfig.seed config).
Proof.
  unfold generateWorld. unfold mbind at 1 2 3 4 5 6 7, Rand_bind.
  pose proof (Steady_new (newSeededRandom seedrandom (WorldGenConfig.seed config)))
    as H1.
  destruct (SimplexNoise.new _) as [noise g1]. cbn [snd] in H1.
  unfold newSeededRandom in H1. cbn [SeededRandom.rng] in H1.
  pose proof (Steady_generateTerrain (WorldGenConfig.width config)
                (WorldGenConfig.height config) noise g1) as H2.
  destruct (generateTerrain _ _ noise g1) as [tiles g2] eqn:E1. cbn [snd] in H2.
  pose proof (Steady_generateTowns tiles (WorldGenConfig.numTowns config) g2)
    as H3.
  destruct (generateTowns tiles _ g2) as [towns g3] eqn:E2. cbn [snd] in H3.
  pose proof (Steady_generateEnemyCamps tiles
                (WorldGenConfig.numEnemyCamps config) towns g3) as H4.
  destruct (generateEnemyCamps tiles _ towns g3) as [camps g4] eqn:E3.
  cbn [snd] in H4.
  pose proof (Steady_generateResourceNodes tiles
                (WorldGenConfig.numResourceNodes config) towns camps g4) as H5.
  destruct (generateResourceNodes tiles _ towns camps g4) as [nodes g5] eqn:E4.
  cbn [snd] in H5.
  pose proof (Steady_generateNeutralEncounters tiles
                (WorldGenConfig.numNeutralEncounters config) towns camps nodes g5)
    as H6.
  destruct (generateNeutralEncounters tiles _ towns camps nodes g5)
    as [encounters g6] eqn:E5. cbn [snd] in H6.
  exists noise, tiles, towns, camps, nodes, encounters, g1, g2, g3, g4, g5, g6.
  split.
  { repeat (apply Forall_cons; split); [..|by apply Forall_nil]; congruence. }
  rewrite E1, E2, E3, E4, E5. cbn [fst]. repeat (split; [reflexivity|]).
  unfold placeFeatures. unfold mbind, mret, Rand_bind, Rand_ret.
  by destruct (generateRoads _ towns g6).
Qed.

(** *** The placement loops *)

Lemma existsb_clearOf {A} (position : A -> Position.t) d pos (l : list A) :
  existsb (fun a => manhattanDistance pos (position a) <? d) l = false ->
  clearOf position d pos l.
Proof.
  intros H. apply Forall_forall. intros a Ha.
  destruct (Z.ltb_spec (manhattanDistance pos (position a)) d) as [Hlt|]; [|done].
  assert (existsb (fun a => manhattanDistance pos (position a) <? d) l = true);
    [|congruence].
  apply existsb_exists. exists a. split; [by apply list_elem_of_In|].
  by apply Z.ltb_lt.
Qed.

Section Loops.

(** The stream the loops draw from *)
Variable stream : nat -> Q.

(** What is known of the towns so far holds of those returned, if every
    push keeps it. *)
Lemma townsLoop_ind (Inv : list PointOfInterest.t -> Prop) count positions :
  (forall towns pos g,
     SeededRandom.rng g = stream -> Inv towns -> pos ∈ positions ->
     Z.of_nat (length towns) < count ->
     clearOf PointOfInterest.position 8 pos towns ->
     Inv (towns ++ [fst (createTown pos (bool_decide (length towns = 0%nat)) g)])) ->
  forall towns g,
    SeededRandom.rng g = stream -> Inv towns ->
    Inv (fst (townsLoop count positions towns g)).
Proof.
  induction positions as [|pos rest IH]; intros Hstep towns g Hg Hinv; [done|].
  assert (Hrest : forall towns pos g,
            SeededRandom.rng g = stream -> Inv towns -> pos ∈ rest ->
            Z.of_nat (length towns) < count ->
            clearOf PointOfInterest.position 8 pos towns ->
            Inv (towns ++ [fst (createTown pos
                                  (bool_decide (length towns = 0%nat)) g)])).
  { intros ? ? ? ? ? ?. apply Hstep; [done..|]. by apply elem_of_cons; right. }
  cbn [townsLoop].
  destruct (Z.geb_spec (Z.of_nat (length towns)) count) as [|Hlt]; [done|].
  destruct (existsb _ towns) eqn:Hclose; cbn [negb]; [by apply IH|].
  unfold mbind, Rand_bind.
  pose proof (Hstep towns pos g Hg Hinv ltac:(by apply elem_of_cons; left)
                Hlt (existsb_clearOf _ _ _ _ Hclose)) as Hnew.
  pose proof (Steady_createTown pos (bool_decide (length towns = 0%nat)) g) as Hg'.
  destruct (createTown pos _ g) as [t g']. cbn [fst snd] in *.
  apply IH; [done|congruence|done].
Qed.

Lemma campsLoop_ind (Inv : list PointOfInterest.t -> Prop) count towns
    positions :
  (forall camps pos g,
     SeededRandom.rng g = stream -> Inv camps -> pos ∈ positions ->
     Z.of_nat (length camps) < count ->
     clearOf PointOfInterest.position 5 pos towns ->
     clearOf PointOfInterest.position 4 pos camps ->
     Inv (camps ++ [fst (createCamp pos g)])) ->
  forall camps g,
    SeededRandom.rng g = stream -> Inv camps ->
    Inv (fst (campsLoop count towns positions camps g)).
Proof.
  induction positions as [|pos rest IH]; intros Hstep camps g Hg Hinv; [done|].
  assert (Hrest : forall camps pos g,
            SeededRandom.rng g = stream -> Inv camps -> pos ∈ rest ->
            Z.of_nat (length camps) < count ->
            clearOf PointOfInterest.position 5 pos towns ->
            clearOf PointOfInterest.position 4 pos camps ->
            Inv (camps ++ [fst (createCamp pos g)])).
  { intros ? ? ? ? ? ?. apply Hstep; [done..|]. by apply elem_of_cons; right. }
  cbn [campsLoop].
  destruct (Z.geb_spec (Z.of_nat (length camps)) count) as [|Hlt]; [done|].
  destruct (existsb _ towns) eqn:Htowns; cbn [negb andb]; [by apply IH|].
  destruct (existsb _ camps) eqn:Hcamps; cbn [negb andb]; [by apply IH|].
  unfold mbind, Rand_bind.
  pose proof (Hstep camps pos g Hg Hinv ltac:(by apply elem_of_cons; left)
                Hlt (existsb_clearOf _ _ _ _ Htowns)
                (existsb_clearOf _ _ _ _ Hcamps)) as Hnew.
  pose proof (Steady_createCamp pos g) as Hg'.
  destruct (createCamp pos g) as [t g']. cbn [fst snd] in *.
  apply IH; [done|congruence|done].
Qed.

Lemma Steady_createNode tiles pos : Steady (createNode tiles pos).
Proof. unfold createNode. eauto 10 with steady. Qed.

Lemma Steady_createEncounter pos : Steady (createEncounter pos).
Proof. unfold createEncounter. eauto 10 with steady. Qed.

Lemma nodesLoop_ind (Inv : list ResourceNode.t -> Prop) tiles count towns camps
    positions :
  (forall nodes pos g,
     SeededRandom.rng g = stream -> Inv nodes -> pos ∈ positions ->
     Z.of_nat (length nodes) < count ->
     clearOf PointOfInterest.position 3 pos towns ->
     clearOf PointOfInterest.position 3 pos camps ->
     clearOf ResourceNode.position 3 pos nodes ->
     Inv (nodes ++ [fst (createNode tiles pos g)])) ->
  forall nodes g,
    SeededRandom.rng g = stream -> Inv nodes ->
    Inv (fst (nodesLoop tiles count towns camps positions nodes g)).
Proof.
  induction positions as [|pos rest IH]; intros Hstep nodes g Hg Hinv; [done|].
  assert (Hrest : forall nodes pos g,
            SeededRandom.rng g = stream -> Inv nodes -> pos ∈ rest ->
            Z.of_nat (length nodes) < count ->
            clearOf PointOfInterest.position 3 pos towns ->
            clearOf PointOfInterest.position 3 pos camps ->
            clearOf ResourceNode.position 3 pos nodes ->
            Inv (nodes ++ [fst (createNode tiles pos g)])).
  { intros ? ? ? ? ? ?. apply Hstep; [done..|]. by apply elem_of_cons; right. }
  cbn [nodesLoop].
  destruct (Z.geb_spec (Z.of_nat (length nodes)) count) as [|Hlt]; [done|].
  destruct (existsb _ towns) eqn:Htowns; cbn [negb orb]; [by apply IH|].
  destruct (existsb _ camps) eqn:Hcamps; cbn [negb orb]; [by apply IH|].
  destruct (existsb _ nodes) eqn:Hnodes; cbn [negb orb]; [by apply IH|].
  pose proof (Hstep nodes pos g Hg Hinv ltac:(by apply elem_of_cons; left)
                Hlt (existsb_clearOf _ _ _ _ Htowns)
                (existsb_clearOf _ _ _ _ Hcamps)
                (existsb_clearOf _ _ _ _ Hnodes)) as Hnew.
  pose proof (Steady_createNode tiles pos g) as Hg'.
  unfold createNode in Hnew, Hg'. unfold mbind, mret, Rand_bind, Rand_ret in *.
  destruct (pickResourceType _ g) as [resourceType g1].
  destruct (randomId g1) as [id g2].
  destruct (randomInt 5 20 g2) as [amountPerTurn g3]. cbn [fst snd] in *.
  apply IH; [done|congruence|done].
Qed.

Lemma encountersLoop_ind (Inv : list PointOfInterest.t -> Prop) count towns
    camps resources positions :
  (forall encounters pos g,
     SeededRandom.rng g = stream -> Inv encounters -> pos ∈ positions ->
     Z.of_nat (length encounters) < count ->
     clearOf PointOfInterest.position 3 pos towns ->
     clearOf PointOfInterest.position 3 pos camps ->
     clearOf ResourceNode.position 3 pos resources ->
     clearOf PointOfInterest.position 3 pos encounters ->
     Inv (encounters ++ [fst (createEncounter pos g)])) ->
  forall encounters g,
    SeededRandom.rng g = stream -> Inv encounters ->
    Inv (fst (encountersLoop count towns camps resources positions
                encounters g)).
Proof.
  induction positions as [|pos rest IH]; intros Hstep encounters g Hg Hinv;
    [done|].
  assert (Hrest : forall encounters pos g,
            SeededRandom.rng g = stream -> Inv encounters -> pos ∈ rest ->
            Z.of_nat (length encounters) < count ->
            clearOf PointOfInterest.position 3 pos towns ->
            clearOf PointOfInterest.position 3 pos camps ->
            clearOf ResourceNode.position 3 pos resources ->
            clearOf PointOfInterest.position 3 pos encounters ->
            Inv (encounters ++ [fst (createEncounter pos g)])).
  { intros ? ? ? ? ? ?. apply Hstep; [done..|]. by apply elem_of_cons; right. }
  cbn [encountersLoop].
  destruct (Z.geb_spec (Z.of_nat (length encounters)) count) as [|Hlt]; [done|].
  destruct (existsb _ towns) eqn:Htowns; cbn [negb orb]; [by apply IH|].
  destruct (existsb _ camps) eqn:Hcamps; cbn [negb orb]; [by apply IH|].
  destruct (existsb _ resources) eqn:Hnodes; cbn [negb orb]; [by apply IH|].
  destruct (existsb _ encounters) eqn:Henc; cbn [negb orb]; [by apply IH|].
  pose proof (Hstep encounters pos g Hg Hinv ltac:(by apply elem_of_cons; left)
                Hlt (existsb_clearOf _ _ _ _ Htowns)
                (existsb_clearOf _ _ _ _ Hcamps)
                (existsb_clearOf _ _ _ _ Hnodes)
                (existsb_clearOf _ _ _ _ Henc)) as Hnew.
  pose proof (Steady_createEncounter pos g) as Hg'.
  unfold createEncounter in Hnew, Hg'.
  unfold mbind, mret, Rand_bind, Rand_ret in *.
  destruct (randomId g) as [id g1].
  destruct (randomElement _ _ g1) as [name g2]. cbn [fst snd] in *.
  apply IH; [done|congruence|done].
Qed.

End Loops.

(** *** What the four generators return *)

Lemma spread_snoc {A} (position : A -> Position.t) d (l : list A) (t : A) :
  spread position d l -> clearOf position d (position t) l ->
  spread position d (l ++ [t]).
Proof.
  intros Hl Ht i j a b Hij Ha Hb.
  unfold clearOf in Ht. rewrite Forall_forall in Ht.
  apply lookup_snoc_Some in Ha as [[Hi Ha]|[Hi <-]];
    apply lookup_snoc_Some in Hb as [[Hj Hb]|[Hj <-]].
  - by apply (Hl i j).
  - rewrite manhattanDistance_sym. apply Ht. by eapply list_elem_of_lookup_2.
  - apply Ht. by eapply list_elem_of_lookup_2.
  - lia.
Qed.

Lemma spread_nil {A} (position : A -> Position.t) d : spread position d [].
Proof. by intros i j a b _ ?. Qed.

Lemma apart_snoc {A B} (pa : A -> Position.t) (pb : B -> Position.t) d
    (la : list A) (lb : list B) (a : A) :
  apart pa pb d la lb -> clearOf pb d (pa a) lb -> apart pa pb d (la ++ [a]) lb.
Proof.
  intros Hla Ha. apply Forall_app. split; [done|]. by apply Forall_singleton.
Qed.

Lemma createTown_fields pos isPlayerStart g :
  let town := fst (createTown pos isPlayerStart g) in
  PointOfInterest.position town = pos
  /\ PointOfInterest.type town = PointOfInterestType.town
  /\ PointOfInterest.isDiscovered town = isPlayerStart
  /\ PointOfInterest.factionId town
     = (if isPlayerStart then FactionId.player else FactionId.neutral)
  /\ (isPlayerStart = true -> PointOfInterest.garrison town = Some []).
Proof.
  unfold createTown. run_rand. cbn. repeat split; try done.
  intros ->. unfold mret, Rand_ret in *. congruence.
Qed.

Lemma createCamp_fields pos g :
  let camp := fst (createCamp pos g) in
  PointOfInterest.position camp = pos
  /\ PointOfInterest.type camp = PointOfInterestType.enemy_camp
  /\ PointOfInterest.isDiscovered camp = false
  /\ PointOfInterest.factionId camp ∈ [FactionId.enemy_1; FactionId.enemy_2].
Proof.
  unfold createCamp. run_rand. cbn. repeat split; try done.
  match goal with
  | H : randomElement FactionId.enemy_1 _ _ = (?f, _) |- ?f ∈ _ =>
      unfold randomElement in H; revert H; run_rand; intros [= <- _]
  end.
  destruct (_ <? 0); [by constructor|].
  destruct (Z.to_nat _) as [|[|[|]]]; cbn;
    first [by constructor | by do 2 constructor].
Qed.

Lemma createNode_fields tiles pos g :
  let node := fst (createNode tiles pos g) in
  ResourceNode.position node = pos
  /\ ResourceNode.isOwned node = false
  /\ ResourceNode.ownedBy node = None
  /\ (UnitDraws g -> 5 <= ResourceNode.amountPerTurn node < 20).
Proof.
  unfold createNode. unfold mbind, mret, Rand_bind, Rand_ret.
  pose proof (Steady_pickResourceType (Tile.terrain <$> tileAt tiles pos) g) as H1.
  destruct (pickResourceType _ g) as [resourceType g1].
  pose proof (Steady_randomId g1) as H2.
  destruct (randomId g1) as [id g2].
  pose proof (randomInt_unit 5 20 g2) as H3.
  destruct (randomInt 5 20 g2) as [amountPerTurn g3]. cbn in *.
  repeat split; try done; apply H3; try lia.
  all: intros n; rewrite H2, H1; apply H.
Qed.

Lemma createEncounter_fields pos g :
  let encounter := fst (createEncounter pos g) in
  PointOfInterest.position encounter = pos
  /\ PointOfInterest.type encounter = PointOfInterestType.neutral_encounter
  /\ PointOfInterest.isDiscovered encounter = false
  /\ PointOfInterest.factionId encounter = FactionId.neutral.
Proof. unfold createEncounter. run_rand. by cbn. Qed.

Lemma generateTowns_spec tiles count g :
  TownsSpec tiles count (fst (generateTowns tiles count g)).
Proof.
  unfold generateTowns. unfold mbind, Rand_bind.
  pose proof (shuffle_elem_of
                (findValidPositions tiles [TerrainType.grass; TerrainType.desert]) g)
    as Hvalid.
  destruct (shuffle _ g) as [positions g']. cbn [fst] in Hvalid.
  apply (townsLoop_ind (SeededRandom.rng g') (TownsSpec tiles count)); [|done|].
  - intros towns pos g0 _ (Hspread & Hplaced & Hlen & Hfirst) Hpos Hlt Hclear.
    destruct (createTown_fields pos (bool_decide (length towns = 0%nat)) g0)
      as (Hp & Hty & Hdisc & Hfaction & Hgarrison).
    set (t := fst (createTown pos (bool_decide (length towns = 0%nat)) g0)) in *.
    split; [apply spread_snoc; [done|by rewrite Hp]|].
    split.
    { apply Forall_app. split; [done|]. apply Forall_singleton.
      rewrite Hp. split; [by apply Hvalid|done]. }
    split; [rewrite length_app; cbn [length]; lia|].
    intros i t' [[Hi Ht']|[-> <-]]%lookup_snoc_Some; [by apply Hfirst|].
    split; [done|]. split; [done|]. intros H0. apply Hgarrison.
    by apply bool_decide_eq_true.
  - split; [apply spread_nil|]. split; [done|]. split; [cbn; lia|].
    by intros i t ?.
Qed.

Lemma generateEnemyCamps_spec tiles count towns g :
  CampsSpec tiles count towns (fst (generateEnemyCamps tiles count towns g)).
Proof.
  unfold generateEnemyCamps. unfold mbind, Rand_bind.
  pose proof (shuffle_elem_of
                (findValidPositions tiles
                   [TerrainType.grass; TerrainType.forest; TerrainType.desert]) g)
    as Hvalid.
  destruct (shuffle _ g) as [positions g']. cbn [fst] in Hvalid.
  apply (campsLoop_ind (SeededRandom.rng g') (CampsSpec tiles count towns));
    [|done|].
  - intros camps pos g0 _ (Hspread & Hapart & Hplaced & Hlen) Hpos Hlt
      Htowns Hcamps.
    destruct (createCamp_fields pos g0) as (Hp & Hty & Hdisc & Hfaction).
    set (t := fst (createCamp pos g0)) in *.
    split; [apply spread_snoc; [done|by rewrite Hp]|].
    split; [apply apart_snoc; [done|by rewrite Hp]|].
    split.
    { apply Forall_app. split; [done|]. apply Forall_singleton.
      rewrite Hp. split; [by apply Hvalid|done]. }
    rewrite length_app; cbn [length]; lia.
  - split; [apply spread_nil|]. split; [by apply Forall_nil|].
    split; [done|]. cbn; lia.
Qed.

Lemma generateResourceNodes_spec tiles count towns camps g :
  NodesSpec tiles count towns camps (UnitDraws g)
    (fst (generateResourceNodes tiles count towns camps g)).
Proof.
  unfold generateResourceNodes. unfold mbind, Rand_bind.
  pose proof (shuffle_elem_of
                (findValidPositions tiles
                   [TerrainType.grass; TerrainType.forest; TerrainType.desert;
                    TerrainType.mountain]) g) as Hvalid.
  pose proof (Steady_shuffle
                (findValidPositions tiles
                   [TerrainType.grass; TerrainType.forest; TerrainType.desert;
                    TerrainType.mountain]) g) as Hg.
  destruct (shuffle _ g) as [positions g']. cbn [fst snd] in Hvalid, Hg.
  apply (nodesLoop_ind (SeededRandom.rng g')
           (NodesSpec tiles count towns camps (UnitDraws g))); [|done|].
  - intros nodes pos g0 Hg0 (Hspread & Htowns & Hcamps & Hplaced & Hlen) Hpos Hlt
      Hctowns Hccamps Hcnodes.
    destruct (createNode_fields tiles pos g0) as (Hp & Howned & Hby & Hamount).
    set (n := fst (createNode tiles pos g0)) in *.
    split; [apply spread_snoc; [done|by rewrite Hp]|].
    split; [apply apart_snoc; [done|by rewrite Hp]|].
    split; [apply apart_snoc; [done|by rewrite Hp]|].
    split.
    { apply Forall_app. split; [done|]. apply Forall_singleton.
      rewrite Hp. split; [by apply Hvalid|]. split; [done|]. split; [done|].
      intros Hunit. apply Hamount. intros k. rewrite Hg0, Hg. apply Hunit. }
    rewrite length_app; cbn [length]; lia.
  - split; [apply spread_nil|]. split; [by apply Forall_nil|].
    split; [by apply Forall_nil|]. split; [done|]. cbn; lia.
Qed.

Lemma generateNeutralEncounters_spec tiles count towns camps resources g :
  EncountersSpec tiles count towns camps resources
    (fst (generateNeutralEncounters tiles count towns camps resources g)).
Proof.
  unfold generateNeutralEncounters. unfold mbind, Rand_bind.
  pose proof (shuffle_elem_of
                (findValidPositions tiles
                   [TerrainType.grass; TerrainType.forest]) g) as Hvalid.
  destruct (shuffle _ g) as [positions g']. cbn [fst] in Hvalid.
  apply (encountersLoop_ind (SeededRandom.rng g')
           (EncountersSpec tiles count towns camps resources)); [|done|].
  - intros encounters pos g0 _
      (Hspread & Htowns & Hcamps & Hnodes & Hplaced & Hlen) Hpos Hlt
      Hctowns Hccamps Hcnodes Hcenc.
    destruct (createEncounter_fields pos g0) as (Hp & Hty & Hdisc & Hfaction).
    set (e := fst (createEncounter pos g0)) in *.
    split; [apply spread_snoc; [done|by rewrite Hp]|].
    split; [apply apart_snoc; [done|by rewrite Hp]|].
    split; [apply apart_snoc; [done|by rewrite Hp]|].
    split; [apply apart_snoc; [done|by rewrite Hp]|].
    split.
    { apply Forall_app. split; [done|]. apply Forall_singleton.
      rewrite Hp. split; [by apply Hvalid|done]. }
    rewrite length_app; cbn [length]; lia.
  - split; [apply spread_nil|]. split; [by apply Forall_nil|].
    split; [by apply Forall_nil|]. split; [by apply Forall_nil|].
    split; [done|]. cbn; lia.
Qed.

(** *** Features on tiles *)

Lemma findValidPositions_spec tiles validTerrains pos :
  pos ∈ findValidPositions tiles validTerrains ->
  exists tile,
    tileAt tiles pos = Some tile
    /\ Tile.terrain tile ∈ validTerrains
    /\ Tile.isPassable tile = true.
Proof.
  unfold findValidPositions.
  intros (y & Hy & Hin)%list_elem_of_In%in_flat_map.
  apply in_flat_map in Hin as (x & Hx & Hin).
  destruct (tileAt tiles (Position.mk x y)) as [tile|] eqn:Htile; [|done].
  destruct (bool_decide (Tile.terrain tile ∈ validTerrains)) eqn:Hterrain;
    [|done].
  destruct (Tile.isPassable tile) eqn:Hpass; [|done].
  destruct Hin as [<-|[]]. exists tile. split; [done|]. split; [|done].
  by apply bool_decide_eq_true in Hterrain.
Qed.

Lemma lastAt_cases {A} (position : A -> Position.t) q (l : list A) :
  forall held,
    lastAt position q held l = held
    \/ exists a, a ∈ l /\ position a = q /\ lastAt position q held l = Some a.
Proof.
  unfold lastAt. induction l as [|a l IH]; intros held; [by left|].
  cbn [foldl]. destruct (decide (position a = q)) as [Ha|Ha].
  - right. destruct (IH (Some a)) as [->|(b & Hb & Hq & ->)].
    + exists a. split; [by apply elem_of_cons; left|done].
    + exists b. split; [by apply elem_of_cons; right|done].
  - destruct (IH held) as [->|(b & Hb & Hq & ->)]; [by left|].
    right. exists b. split; [by apply elem_of_cons; right|done].
Qed.

Lemma lastAt_none {A} (position : A -> Position.t) q (l : list A) held :
  Forall (fun a => position a <> q) l -> lastAt position q held l = held.
Proof.
  unfold lastAt. revert held. induction l as [|a l IH]; intros held Hl; [done|].
  apply Forall_cons in Hl as [Ha Hl]. cbn [foldl].
  destruct (decide _); [done|]. by apply IH.
Qed.

Lemma lastAt_unique {A} (position : A -> Position.t) (l : list A) a held :
  NoDup (position <$> l) -> a ∈ l ->
  lastAt position (position a) held l = Some a.
Proof.
  unfold lastAt. revert held. induction l as [|b l IH]; intros held Hnd Ha.
  { by apply elem_of_nil in Ha. }
  rewrite fmap_cons in Hnd. apply NoDup_cons in Hnd as [Hb Hnd].
  cbn [foldl]. apply elem_of_cons in Ha as [->|Ha].
  - destruct (decide _); [|done].
    apply (lastAt_none position (position b) l (Some b)).
    apply Forall_forall. intros c Hc Heq. apply Hb. rewrite <- Heq.
    by apply list_elem_of_fmap_2.
  - destruct (decide (position b = position a)) as [Heq|]; [|by apply IH].
    exfalso. apply Hb. rewrite Heq. by apply list_elem_of_fmap_2.
Qed.

Section Place.

Context {A : Type}.
Variable position : A -> Position.t.
Variable set : option A -> Tile.t -> Tile.t.
Variable get : Tile.t -> option A.
Hypothesis set_set : forall x y tile, set x (set y tile) = set x tile.
Hypothesis set_get : forall tile, set (get tile) tile = tile.
Hypothesis get_set : forall x tile, get (set x tile) = x.

(** Putting features on tiles changes, at each position, only what the tile
    holds: it then holds the last feature that stands there. *)
Lemma tileAt_place (l : list A) :
  forall tiles q,
    tileAt (foldl (fun tiles a => updateTile (position a) (set (Some a)) tiles)
              tiles l) q
    = (fun tile => set (lastAt position q (get tile) l) tile) <$> tileAt tiles q.
Proof.
  induction l as [|a l IH]; intros tiles q.
  - cbn. destruct (tileAt tiles q) as [tile|]; [|done]. cbn.
    by rewrite set_get.
  - cbn [foldl]. rewrite IH, tileAt_updateTile. unfold lastAt. cbn [foldl].
    destruct (decide (q = position a)) as [->|Hne].
    + destruct (tileAt tiles (position a)) as [tile|]; [|done]. cbn.
      rewrite get_set, set_set. by destruct (decide _).
    + destruct (tileAt tiles q) as [tile|]; [|done]. cbn.
      destruct (decide _) as [Heq|]; [|done]. by rewrite Heq in Hne.
Qed.

End Place.

(** The tile at [q] once the features are on the tiles *)
Lemma tileAt_placeFeatures allPOIs resourceNodes tiles q :
  tileAt (placeFeatures allPOIs resourceNodes tiles) q
  = withFeatures allPOIs resourceNodes q <$> tileAt tiles q.
Proof.
  unfold placeFeatures, withFeatures.
  rewrite (tileAt_place ResourceNode.position Tile.set_resourceNode
             Tile.resourceNode); [|done|by intros []|done].
  rewrite (tileAt_place PointOfInterest.position Tile.set_pointOfInterest
             Tile.pointOfInterest); [|done|by intros []|done].
  by destruct (tileAt tiles q).
Qed.

(** *** Roads *)

Lemma carveRoad_idem tile : carveRoad (carveRoad tile) = carveRoad tile.
Proof.
  unfold carveRoad.
  destruct (Tile.isPassable tile) eqn:Hp; cbn [andb]; [|by rewrite Hp].
  destruct (bool_decide (Tile.terrain tile = TerrainType.water)) eqn:Hw;
    cbn [negb]; [by rewrite Hp, Hw|].
  by cbn; rewrite Hp.
Qed.

Lemma carved_refl tiles : carved tiles tiles.
Proof. by left. Qed.

Lemma carved_trans tiles1 tiles2 tiles3 :
  carved tiles1 tiles2 -> carved tiles2 tiles3 -> carved tiles1 tiles3.
Proof.
  intros H12 H23 q. destruct (H12 q) as [E12|E12], (H23 q) as [E23|E23];
    rewrite E23, E12; auto.
  right. destruct (tileAt tiles1 q); [|done]. cbn. by rewrite carveRoad_idem.
Qed.

Lemma carved_updateTile p tiles : carved tiles (updateTile p carveRoad tiles).
Proof. intros q. rewrite tileAt_updateTile. destruct (decide _); auto. Qed.

Lemma roadWalk_carved steps end_ :
  forall current tiles g,
    carved tiles (fst (roadWalk steps end_ current tiles g)).
Proof.
  induction steps as [|steps IH]; intros current tiles g; [apply carved_refl|].
  cbn [roadWalk]. destruct (_ && _); [apply carved_refl|].
  unfold mbind, Rand_bind. destruct (chance (3 # 5) g) as [primary g'].
  eapply carved_trans; [apply carved_updateTile|apply IH].
Qed.

(** The walk carves the tile it starts on. *)
Lemma roadWalk_start steps end_ current tiles g :
  steps <> 0%nat -> current <> end_ ->
  tileAt (fst (roadWalk steps end_ current tiles g)) current
  = carveRoad <$> tileAt tiles current.
Proof.
  intros Hsteps Hne. destruct steps as [|steps]; [done|]. cbn [roadWalk].
  destruct ((Position.x current =? Position.x end_)
            && (Position.y current =? Position.y end_)) eqn:Hat.
  { exfalso. apply Hne. apply andb_true_iff in Hat as [Hx%Z.eqb_eq Hy%Z.eqb_eq].
    destruct current, end_. cbn in *. congruence. }
  unfold mbind, Rand_bind. destruct (chance (3 # 5) g) as [primary g'].
  destruct (roadWalk_carved steps end_
              (roadStep primary (updateTile current carveRoad tiles) end_ current)
              (updateTile current carveRoad tiles) g' current) as [->| ->];
    rewrite tileAt_updateTile_eq; [done|].
  destruct (tileAt tiles current); [|done]. cbn. by rewrite carveRoad_idem.
Qed.

Lemma generateRoads_cons t1 t2 rest tiles g :
  generateRoads tiles (t1 :: t2 :: rest) g
  = let (tiles1, g1) :=
      roadWalk
        (Z.to_nat (manhattanDistance (PointOfInterest.position t1)
                     (PointOfInterest.position t2)))
        (PointOfInterest.position t2) (PointOfInterest.position t1) tiles g in
    generateRoads tiles1 (t2 :: rest) g1.
Proof. reflexivity. Qed.

Lemma generateRoads_carved towns :
  forall tiles g, carved tiles (fst (generateRoads tiles towns g)).
Proof.
  induction towns as [|t1 rest IH]; intros tiles g; [apply carved_refl|].
  destruct rest as [|t2 rest]; [apply carved_refl|].
  cbn [generateRoads]. unfold mbind, Rand_bind.
  pose proof (roadWalk_carved
                (Z.to_nat (manhattanDistance (PointOfInterest.position t1)
                             (PointOfInterest.position t2)))
                (PointOfInterest.position t2) (PointOfInterest.position t1)
                tiles g) as Hwalk.
  destruct (roadWalk _ _ _ tiles g) as [tiles1 g1]. cbn [fst] in Hwalk.
  eapply carved_trans; [exact Hwalk|apply IH].
Qed.

(** Every town but the last is where a road starts: its tile is carved. *)
Lemma generateRoads_under_towns towns :
  forall tiles g i t,
    spread PointOfInterest.position 8 towns ->
    towns !! i = Some t -> (S i < length towns)%nat ->
    tileAt (fst (generateRoads tiles towns g)) (PointOfInterest.position t)
    = carveRoad <$> tileAt tiles (PointOfInterest.position t).
Proof.
  induction towns as [|t1 rest IH]; intros tiles g i t Hspread Hi Hlen; [done|].
  destruct rest as [|t2 rest]; [cbn in Hlen; lia|].
  rewrite generateRoads_cons.
  pose proof (Hspread 0%nat 1%nat t1 t2 ltac:(done) eq_refl eq_refl) as Hfar.
  pose proof (roadWalk_start
                (Z.to_nat (manhattanDistance (PointOfInterest.position t1)
                             (PointOfInterest.position t2)))
                (PointOfInterest.position t2) (PointOfInterest.position t1)
                tiles g ltac:(lia)) as Hstart.
  pose proof (roadWalk_carved
                (Z.to_nat (manhattanDistance (PointOfInterest.position t1)
                             (PointOfInterest.position t2)))
                (PointOfInterest.position t2) (PointOfInterest.position t1)
                tiles g) as Hwalk.
  destruct (roadWalk _ _ _ tiles g) as [tiles1 g1]. cbn [fst] in *.
  pose proof (generateRoads_carved (t2 :: rest) tiles1 g1) as Hrest.
  destruct i as [|i].
  - injection Hi as <-.
    assert (Hne : PointOfInterest.position t1 <> PointOfInterest.position t2).
    { intros Heq. rewrite Heq in Hfar. unfold manhattanDistance in Hfar. lia. }
    destruct (Hrest (PointOfInterest.position t1)) as [->| ->];
      rewrite (Hstart Hne); [done|].
    destruct (tileAt tiles (PointOfInterest.position t1)); [|done]. cbn.
    by rewrite carveRoad_idem.
  - rewrite (IH tiles1 g1 i t); [| |done|cbn in *; lia].
    + destruct (Hwalk (PointOfInterest.position t)) as [->| ->]; [done|].
      destruct (tileAt tiles (PointOfInterest.position t)); [|done]. cbn.
      by rewrite carveRoad_idem.
    + intros j k a b Hjk Ha Hb. by apply (Hspread (S j) (S k)); [lia|..].
Qed.

(** *** The shape of the grid *)

Lemma updateTile_Shaped p f rows columns tiles :
  Shaped rows columns tiles -> Shaped rows columns (updateTile p f tiles).
Proof.
  intros [Hlen Hrows]. split.
  - by rewrite (proj1 (updateTile_size p f tiles)).
  - by apply updateTile_rows.
Qed.

Lemma placeFeatures_Shaped allPOIs resourceNodes rows columns tiles :
  Shaped rows columns tiles ->
  Shaped rows columns (placeFeatures allPOIs resourceNodes tiles).
Proof.
  intros H. unfold placeFeatures.
  assert (Hpois : Shaped rows columns
            (foldl (fun tiles poi =>
                      updateTile (PointOfInterest.position poi)
                        (Tile.set_pointOfInterest (Some poi)) tiles)
                   tiles allPOIs)).
  { revert tiles H. induction allPOIs as [|poi l IH]; intros tiles H; [done|].
    cbn [foldl]. by apply IH, updateTile_Shaped. }
  revert Hpois. generalize (foldl (fun tiles poi =>
                      updateTile (PointOfInterest.position poi)
                        (Tile.set_pointOfInterest (Some poi)) tiles)
                   tiles allPOIs).
  induction resourceNodes as [|node l IH]; intros tiles' H'; [done|].
  cbn [foldl]. by apply IH, updateTile_Shaped.
Qed.

Lemma roadWalk_Shaped rows columns steps end_ :
  forall current tiles g,
    Shaped rows columns tiles ->
    Shaped rows columns (fst (roadWalk steps end_ current tiles g)).
Proof.
  induction steps as [|steps IH]; intros current tiles g H; [done|].
  cbn [roadWalk]. destruct (_ && _); [done|].
  unfold mbind, Rand_bind. destruct (chance (3 # 5) g) as [primary g'].
  by apply IH, updateTile_Shaped.
Qed.

Lemma generateRoads_Shaped rows columns towns :
  forall tiles g,
    Shaped rows columns tiles ->
    Shaped rows columns (fst (generateRoads tiles towns g)).
Proof.
  induction towns as [|t1 rest IH]; intros tiles g H; [done|].
  destruct rest as [|t2 rest]; [done|].
  rewrite generateRoads_cons.
  pose proof (roadWalk_Shaped rows columns
                (Z.to_nat (manhattanDistance (PointOfInterest.position t1)
                             (PointOfInterest.position t2)))
                (PointOfInterest.position t2) (PointOfInterest.position t1)
                tiles g H) as Hwalk.
  destruct (roadWalk _ _ _ tiles g) as [tiles1 g1]. by apply IH.
Qed.

(** *** The anatomy of a generated world *)

Lemma spread_weaken {A} (position : A -> Position.t) d d' (l : list A) :
  d' <= d -> spread position d l -> spread position d' l.
Proof. intros Hd H i j a b Hij Ha Hb. specialize (H i j a b Hij Ha Hb). lia. Qed.

Lemma spread_app {A} (position : A -> Position.t) d (l1 l2 : list A) :
  spread position d l1 -> spread position d l2 ->
  apart position position d l2 l1 ->
  spread position d (l1 ++ l2).
Proof.
  intros H1 H2 H21 i j a b Hij Ha Hb.
  unfold apart in H21. rewrite Forall_forall in H21.
  apply lookup_app_Some in Ha as [Ha|[Hi Ha]];
    apply lookup_app_Some in Hb as [Hb|[Hj Hb]].
  - by apply (H1 i j).
  - rewrite manhattanDistance_sym.
    specialize (H21 b ltac:(by eapply list_elem_of_lookup_2)).
    rewrite Forall_forall in H21. apply H21. by eapply list_elem_of_lookup_2.
  - specialize (H21 a ltac:(by eapply list_elem_of_lookup_2)).
    rewrite Forall_forall in H21. apply H21. by eapply list_elem_of_lookup_2.
  - apply (H2 (i - length l1)%nat (j - length l1)%nat); [lia|done..].
Qed.

Lemma apart_weaken {A B} (pa : A -> Position.t) (pb : B -> Position.t) d d'
    (la : list A) (lb : list B) :
  d' <= d -> apart pa pb d la lb -> apart pa pb d' la lb.
Proof.
  intros Hd H. eapply Forall_impl; [exact H|]. intros a Ha. cbn in Ha.
  eapply Forall_impl; [exact Ha|]. intros b Hb. cbn in Hb. lia.
Qed.

Lemma apart_app_r {A B} (pa : A -> Position.t) (pb : B -> Position.t) d
    (la : list A) (lb1 lb2 : list B) :
  apart pa pb d la lb1 -> apart pa pb d la lb2 -> apart pa pb d la (lb1 ++ lb2).
Proof.
  unfold apart. rewrite !Forall_forall. intros H1 H2 a Ha.
  apply Forall_app. split; [by apply H1|by apply H2].
Qed.

Lemma spread_NoDup {A} (position : A -> Position.t) d (l : list A) :
  0 < d -> spread position d l -> NoDup (position <$> l).
Proof.
  intros Hd H. apply NoDup_alt. intros i j p Hi Hj.
  apply list_lookup_fmap_Some in Hi as (a & -> & Ha).
  apply list_lookup_fmap_Some in Hj as (b & Heq & Hb).
  destruct (decide (i = j)) as [|Hne]; [done|].
  specialize (H i j a b Hne Ha Hb). rewrite Heq in H.
  unfold manhattanDistance in H. lia.
Qed.

Lemma generateWorld_anatomy seedrandom config :
  exists tiles towns camps nodes encounters,
    Anatomy
      (forall n,
         (0 <= seedrandom (WorldGenConfig.seed config) n)%Q
         /\ (seedrandom (WorldGenConfig.seed config) n < 1)%Q)
      config (generateWorld seedrandom config) tiles towns camps nodes
      encounters.
Proof.
  destruct (generateWorld_stages seedrandom config)
    as (noise & tiles & towns & camps & nodes & encounters
        & g1 & g2 & g3 & g4 & g5 & g6
        & Hg & Etiles & Etowns & Ecamps & Enodes & Eenc & ->).
  exists tiles, towns, camps, nodes, encounters.
  pose proof (generateTerrain_fresh (WorldGenConfig.width config)
                (WorldGenConfig.height config) noise g1) as Hfresh.
  pose proof (generateTerrain_rows (WorldGenConfig.width config)
                (WorldGenConfig.height config) noise g1) as Hshape.
  rewrite <- Etiles in Hfresh, Hshape.
  pose proof (generateTowns_spec tiles (WorldGenConfig.numTowns config) g2)
    as Htowns. rewrite <- Etowns in Htowns.
  pose proof (generateEnemyCamps_spec tiles
                (WorldGenConfig.numEnemyCamps config) towns g3) as Hcamps.
  rewrite <- Ecamps in Hcamps.
  pose proof (generateResourceNodes_spec tiles
                (WorldGenConfig.numResourceNodes config) towns camps g4)
    as Hnodes. rewrite <- Enodes in Hnodes.
  pose proof (generateNeutralEncounters_spec tiles
                (WorldGenConfig.numNeutralEncounters config) towns camps nodes
                g5) as Henc. rewrite <- Eenc in Henc.
  clear Etiles Etowns Ecamps Enodes Eenc.
  unfold Anatomy. cbn [WorldMap.tiles].
  split; [done|]. split.
  { destruct Htowns as (_ & Ht & _), Hcamps as (_ & _ & Hc & _),
      Henc as (_ & _ & _ & _ & He & _).
    unfold townsOf, campsOf, encountersOf. cbn [WorldMap.pointsOfInterest].
    rewrite !filter_app.
    rewrite (filter_all _ towns), (filter_none _ camps),
      (filter_none _ encounters), (filter_none _ towns), (filter_all _ camps),
      (filter_none _ encounters), (filter_none _ towns), (filter_none _ camps),
      (filter_all _ encounters).
    - by rewrite !app_nil_r.
    - eapply Forall_impl; [exact He|]. by intros t (_ & Hty & _).
    - eapply Forall_impl; [exact Hc|]. intros t (_ & Hty & _). by rewrite Hty.
    - eapply Forall_impl; [exact Ht|]. intros t (_ & Hty). by rewrite Hty.
    - eapply Forall_impl; [exact He|]. intros t (_ & Hty & _). by rewrite Hty.
    - eapply Forall_impl; [exact Hc|]. by intros t (_ & Hty & _).
    - eapply Forall_impl; [exact Ht|]. intros t (_ & Hty). by rewrite Hty.
    - eapply Forall_impl; [exact He|]. intros t (_ & Hty & _). by rewrite Hty.
    - eapply Forall_impl; [exact Hc|]. intros t (_ & Hty & _). by rewrite Hty.
    - eapply Forall_impl; [exact Ht|]. by intros t (_ & Hty). }
  split; [done|]. split; [done|]. split; [done|].
  split.
  { destruct Hnodes as (H1 & H2 & H3 & H4 & H5).
    split; [done|]. split; [done|]. split; [done|]. split; [|done].
    eapply Forall_impl; [exact H4|]. intros n (? & ? & ? & Hamount).
    split; [done|]. split; [done|]. split; [done|].
    intros Hunit. apply Hamount. intros k.
    apply Forall_cons in Hg as [_ Hg]. apply Forall_cons in Hg as [_ Hg].
    apply Forall_cons in Hg as [_ Hg]. apply Forall_cons in Hg as [-> _].
    apply Hunit. }
  split; [done|].
  split; [apply generateRoads_carved|].
  split.
  { intros i t Hi Hlen. apply generateRoads_under_towns with (i := i);
      [by destruct Htowns|done|done]. }
  apply generateRoads_Shaped, placeFeatures_Shaped. split; apply Hshape.
Qed.

Lemma demoGenerated_spec : generateWorld demoStream demoConfig = demoGenerated.
Proof. vm_compute. reflexivity. Qed.

Lemma carveRoad_fields tile :
  Tile.position (carveRoad tile) = Tile.position tile
  /\ Tile.isPassable (carveRoad tile) = Tile.isPassable tile
  /\ Tile.pointOfInterest (carveRoad tile) = Tile.pointOfInterest tile
  /\ Tile.resourceNode (carveRoad tile) = Tile.resourceNode tile
  /\ (Tile.terrain (carveRoad tile) = Tile.terrain tile
      \/ Tile.terrain (carveRoad tile) = TerrainType.road).
Proof. unfold carveRoad. destruct (_ && _); cbn; auto 10. Qed.

Lemma carveRoad_Tabled tile : Tabled tile -> Tabled (carveRoad tile).
Proof.
  intros [Hc Hp]. unfold carveRoad.
  destruct (Tile.isPassable tile) eqn:Hpass; cbn [andb];
    [|split; congruence].
  destruct (negb _); [|split; congruence]. split; [done|]. cbn. by rewrite Hpass.
Qed.

(** The tile of a generated world at [q]: the tile of the terrain with the
    features on it, carved or not. *)
Lemma anatomy_tile unit config world tiles towns camps nodes encounters q :
  Anatomy unit config world tiles towns camps nodes encounters ->
  if inBounds (WorldGenConfig.width config) (WorldGenConfig.height config) q
  then exists terrain elevation,
         let fresh :=
           Tile.mk q terrain elevation (TERRAIN_COSTS terrain)
             (TERRAIN_PASSABLE terrain) None None in
         let placed := withFeatures (towns ++ camps ++ encounters) nodes q fresh in
         terrain <> TerrainType.road
         /\ tileAt tiles q = Some fresh
         /\ (tileAt (WorldMap.tiles world) q = Some placed
             \/ tileAt (WorldMap.tiles world) q = Some (carveRoad placed))
  else tileAt (WorldMap.tiles world) q = None.
Proof.
  intros (_ & _ & Hfresh & _ & _ & _ & _ & Hcarved & _).
  specialize (Hfresh q). specialize (Hcarved q).
  rewrite tileAt_placeFeatures in Hcarved.
  destruct (inBounds _ _ q).
  - destruct Hfresh as (terrain & elevation & Hq & Hroad).
    exists terrain, elevation. cbn zeta. rewrite Hq in Hcarved.
    split; [done|]. split; [done|]. exact Hcarved.
  - rewrite Hfresh in Hcarved. by destruct Hcarved.
Qed.

Lemma tileAt_lookup tiles (i j : nat) row tile :
  tiles !! i = Some row -> row !! j = Some tile ->
  tileAt tiles (Position.mk (Z.of_nat j) (Z.of_nat i)) = Some tile.
Proof.
  intros Hi Hj. unfold tileAt. cbn [Position.x Position.y].
  destruct (Z.ltb_spec (Z.of_nat i) 0); [lia|].
  destruct (Z.ltb_spec (Z.of_nat j) 0); [lia|]. cbn [orb].
  rewrite !Nat2Z.id, Hi. cbn. done.
Qed.

(** X7 - the world [generateWorld] returns has [height] rows of [width]
    tiles; [tiles[y][x]] exists exactly for [0 <= x < width] and
    [0 <= y < height], and its [position] is [(x, y)]. *)
Theorem generateWorld_grid
    (seedrandom : string -> nat -> Q) (config : WorldGenConfig.t) :
  let world := generateWorld seedrandom config in
  length (WorldMap.tiles world) = Z.to_nat (WorldGenConfig.height config)
  /\ Forall (fun row => length row = Z.to_nat (WorldGenConfig.width config))
       (WorldMap.tiles world)
  /\ forall q,
       if inBounds (WorldGenConfig.width config) (WorldGenConfig.height config) q
       then exists tile,
              tileAt (WorldMap.tiles world) q = Some tile
              /\ Tile.position tile = q
       else tileAt (WorldMap.tiles world) q = None.
Proof.
  destruct (generateWorld_anatomy seedrandom config)
    as (tiles & towns & camps & nodes & encounters & Hworld).
  revert Hworld. generalize (generateWorld seedrandom config).
  intros world Hworld.
  cbn zeta. split; [apply Hworld|]. split; [apply Hworld|].
  intros q. pose proof (anatomy_tile _ _ _ _ _ _ _ _ q Hworld) as Hq.
  destruct (inBounds _ _ q); [|done].
  destruct Hq as (terrain & elevation & _ & _ & [Hq|Hq]); eexists;
    (split; [exact Hq|]); [done|].
  by rewrite (proj1 (carveRoad_fields _)).
Qed.

Lemma anatomy_Tabled unit config world tiles towns camps nodes encounters :
  Anatomy unit config world tiles towns camps nodes encounters ->
  Forall (Forall Tabled) (WorldMap.tiles world).
Proof.
  intros Hworld.
  apply Forall_lookup. intros i row Hi.
  apply Forall_lookup. intros j tile Hj.
  pose proof (tileAt_lookup _ _ _ _ _ Hi Hj) as Htile.
  pose proof (anatomy_tile _ _ _ _ _ _ _ _
                (Position.mk (Z.of_nat j) (Z.of_nat i)) Hworld) as Hq.
  destruct (inBounds _ _ _); [|congruence].
  destruct Hq as (terrain & elevation & _ & _ & [Hq|Hq]);
    rewrite Hq in Htile; injection Htile as <-;
    [|apply carveRoad_Tabled]; by split.
Qed.

(** X8 - in the world [generateWorld] returns, every tile has the movement
    cost and the passability that the tables [TERRAIN_COSTS] and
    [TERRAIN_PASSABLE] give for its terrain, also where a road was carved:
    a passable tile costs 1/2, 1, 3/2 or 2 to enter, and the tiles that are
    not passable are the mountains and the water. *)
Theorem generateWorld_tiles_follow_tables
    (seedrandom : string -> nat -> Q) (config : WorldGenConfig.t) :
  Forall (Forall (fun tile =>
            Tabled tile
            /\ Tile.movementCost tile
               = match Tile.terrain tile with
                 | TerrainType.grass => Cost.Finite 1
                 | TerrainType.road => Cost.Finite (1 # 2)
                 | TerrainType.forest => Cost.Finite 2
                 | TerrainType.desert => Cost.Finite (3 # 2)
                 | TerrainType.mountain => Cost.Finite 3
                 | TerrainType.water => Cost.Infinity
                 end
            /\ (Tile.isPassable tile = false
                <-> Tile.terrain tile = TerrainType.mountain
                    \/ Tile.terrain tile = TerrainType.water)))
         (WorldMap.tiles (generateWorld seedrandom config)).
Proof.
  destruct (generateWorld_anatomy seedrandom config)
    as (tiles & towns & camps & nodes & encounters & Hworld).
  revert Hworld. generalize (generateWorld seedrandom config).
  intros world Hworld%anatomy_Tabled.
  eapply Forall_impl; [exact Hworld|]. intros row Hrow. cbn in Hrow.
  eapply Forall_impl; [exact Hrow|]. intros tile [Hcost Hpass].
  split; [by split|]. rewrite Hcost, Hpass.
  split; [by destruct (Tile.terrain tile)|].
  destruct (Tile.terrain tile); cbn; split; auto; try discriminate;
    intros [H|H]; discriminate H.
Qed.

Lemma anatomy_allPOIs unit config world tiles towns camps nodes encounters :
  Anatomy unit config world tiles towns camps nodes encounters ->
  spread PointOfInterest.position 3 (towns ++ camps ++ encounters).
Proof.
  intros (_ & _ & _ & (Ht & _) & (Hc & Hct & _) & _ & (He & Het & Hec & _) & _).
  apply spread_app.
  - by apply (spread_weaken _ 8).
  - apply spread_app; [by apply (spread_weaken _ 4)|done..].
  - apply Forall_app. split; [by apply (apart_weaken _ _ 5)|done].
Qed.

(** The tile of the world at a position of the terrain *)
Lemma anatomy_tileAt unit config world tiles towns camps nodes encounters q
    fresh :
  Anatomy unit config world tiles towns camps nodes encounters ->
  tileAt tiles q = Some fresh ->
  exists tile,
    tileAt (WorldMap.tiles world) q = Some tile
    /\ Tile.pointOfInterest tile
       = lastAt PointOfInterest.position q None (towns ++ camps ++ encounters)
    /\ Tile.resourceNode tile = lastAt ResourceNode.position q None nodes
    /\ Tile.isPassable tile = Tile.isPassable fresh
    /\ (Tile.terrain tile = Tile.terrain fresh
        \/ (Tile.terrain tile = TerrainType.road
            /\ Tile.movementCost tile = Cost.Finite (1 # 2))).
Proof.
  intros Hworld Hfresh.
  pose proof (anatomy_tile _ _ _ _ _ _ _ _ q Hworld) as Hq.
  destruct Hworld as (_ & _ & Hgrid & _). specialize (Hgrid q).
  destruct (inBounds _ _ q); [|congruence].
  destruct Hq as (terrain & elevation & _ & Heq & Hq).
  rewrite Hfresh in Heq. injection Heq as ->. cbn zeta in Hq.
  destruct Hq as [Hq|Hq]; eexists; (split; [exact Hq|]).
  - cbn. auto.
  - unfold carveRoad. cbn.
    destruct (TERRAIN_PASSABLE terrain
              && negb (bool_decide (terrain = TerrainType.water))); cbn; auto 10.
Qed.

Lemma anatomy_tileAt_inv unit config world tiles towns camps nodes encounters q
    tile :
  Anatomy unit config world tiles towns camps nodes encounters ->
  tileAt (WorldMap.tiles world) q = Some tile ->
  Tile.pointOfInterest tile
  = lastAt PointOfInterest.position q None (towns ++ camps ++ encounters)
  /\ Tile.resourceNode tile = lastAt ResourceNode.position q None nodes.
Proof.
  intros Hworld Htile.
  pose proof (anatomy_tile _ _ _ _ _ _ _ _ q Hworld) as Hq.
  destruct (inBounds _ _ q); [|congruence].
  destruct Hq as (terrain & elevation & _ & Heq & Hq).
  pose proof (anatomy_tileAt _ _ _ _ _ _ _ _ q _ Hworld Heq)
    as (tile' & Htile' & Hpoi & Hnode & _).
  rewrite Htile in Htile'. by injection Htile' as <-.
Qed.

(** X9 - in the world [generateWorld] returns, the tile under every point
    of interest holds that point of interest and the tile under every
    resource node holds that node; conversely, what a tile holds is a
    feature of the world that stands on it. *)
Theorem generateWorld_tiles_hold_features
    (seedrandom : string -> nat -> Q) (config : WorldGenConfig.t) :
  let world := generateWorld seedrandom config in
  Forall (fun poi =>
            exists tile,
              tileAt (WorldMap.tiles world) (PointOfInterest.position poi)
              = Some tile
              /\ Tile.pointOfInterest tile = Some poi)
         (WorldMap.pointsOfInterest world)
  /\ Forall (fun node =>
               exists tile,
                 tileAt (WorldMap.tiles world) (ResourceNode.position node)
                 = Some tile
                 /\ Tile.resourceNode tile = Some node)
            (WorldMap.resourceNodes world)
  /\ forall q tile,
       tileAt (WorldMap.tiles world) q = Some tile ->
       (forall poi,
          Tile.pointOfInterest tile = Some poi ->
          poi ∈ WorldMap.pointsOfInterest world
          /\ PointOfInterest.position poi = q)
       /\ (forall node,
             Tile.resourceNode tile = Some node ->
             node ∈ WorldMap.resourceNodes world
             /\ ResourceNode.position node = q).
Proof.
  destruct (generateWorld_anatomy seedrandom config)
    as (tiles & towns & camps & nodes & encounters & Hworld).
  revert Hworld. generalize (generateWorld seedrandom config).
  intros world Hworld.
  pose proof (anatomy_allPOIs _ _ _ _ _ _ _ _ Hworld) as Hspread.
  pose proof Hworld as ((Epois & Enodes & _) & _ & _ & (_ & Ht & _)
                        & (_ & _ & Hc & _) & (Hn & _ & _ & Hnv & _)
                        & (_ & _ & _ & _ & He & _) & _).
  cbn zeta. rewrite Epois, Enodes.
  assert (Hvalid : Forall (fun poi =>
            exists fresh, tileAt tiles (PointOfInterest.position poi) = Some fresh)
            (towns ++ camps ++ encounters)).
  { rewrite !Forall_app. repeat split.
    - eapply Forall_impl; [exact Ht|].
      intros t [(tile & ? & _)%findValidPositions_spec _]. by exists tile.
    - eapply Forall_impl; [exact Hc|].
      intros t [(tile & ? & _)%findValidPositions_spec _]. by exists tile.
    - eapply Forall_impl; [exact He|].
      intros t [(tile & ? & _)%findValidPositions_spec _]. by exists tile. }
  split.
  { apply Forall_forall. intros poi Hpoi.
    rewrite Forall_forall in Hvalid. destruct (Hvalid poi Hpoi) as [fresh Hfresh].
    destruct (anatomy_tileAt _ _ _ _ _ _ _ _ _ _ Hworld Hfresh)
      as (tile & Htile & Hheld & _).
    exists tile. split; [exact Htile|]. rewrite Hheld.
    apply lastAt_unique; [|exact Hpoi]. by apply (spread_NoDup _ 3). }
  split.
  { apply Forall_forall. intros node Hnode.
    rewrite Forall_forall in Hnv.
    destruct (Hnv node Hnode) as [(fresh & Hfresh & _)%findValidPositions_spec _].
    destruct (anatomy_tileAt _ _ _ _ _ _ _ _ _ _ Hworld Hfresh)
      as (tile & Htile & _ & Hheld & _).
    exists tile. split; [exact Htile|]. rewrite Hheld.
    apply lastAt_unique; [|exact Hnode]. by apply (spread_NoDup _ 3). }
  intros q tile Htile.
  destruct (anatomy_tileAt_inv _ _ _ _ _ _ _ _ q tile Hworld Htile)
    as [Hpoi Hnode].
  split.
  - intros poi Hheld. rewrite Hheld in Hpoi.
    destruct (lastAt_cases PointOfInterest.position q
                (towns ++ camps ++ encounters) None)
      as [Hnone|(a & Ha & Hq & Hsome)]; [congruence|].
    rewrite Hsome in Hpoi. by injection Hpoi as ->.
  - intros node Hheld. rewrite Hheld in Hnode.
    destruct (lastAt_cases ResourceNode.position q nodes None)
      as [Hnone|(a & Ha & Hq & Hsome)]; [congruence|].
    rewrite Hsome in Hnode. by injection Hnode as ->.
Qed.

Lemma anatomy_ground unit config world tiles towns camps nodes encounters
    validTerrains pos :
  Anatomy unit config world tiles towns camps nodes encounters ->
  pos ∈ findValidPositions tiles validTerrains ->
  exists tile,
    tileAt (WorldMap.tiles world) pos = Some tile
    /\ Tile.isPassable tile = true
    /\ Tile.terrain tile ∈ TerrainType.road :: validTerrains.
Proof.
  intros Hworld (fresh & Hfresh & Hterrain & Hpass)%findValidPositions_spec.
  destruct (anatomy_tileAt _ _ _ _ _ _ _ _ _ _ Hworld Hfresh)
    as (tile & Htile & _ & _ & Hp & Ht).
  exists tile. split; [exact Htile|]. split; [congruence|].
  destruct Ht as [->|[-> _]].
  - by apply elem_of_cons; right.
  - by apply elem_of_cons; left.
Qed.

(** X10 - in the world [generateWorld] returns every feature stands on a
    passable tile: a town on grass, desert or road, a camp on grass,
    forest, desert or road, an encounter on grass, forest or road, and a
    resource node on grass, forest, desert or road - never on a mountain,
    and nothing on water. *)
Theorem generateWorld_features_on_passable_ground
    (seedrandom : string -> nat -> Q) (config : WorldGenConfig.t) :
  let world := generateWorld seedrandom config in
  let stands (ground : list TerrainType.t) (pos : Position.t) :=
    exists tile,
      tileAt (WorldMap.tiles world) pos = Some tile
      /\ Tile.isPassable tile = true
      /\ Tile.terrain tile ∈ TerrainType.road :: ground in
  Forall (fun t => stands [TerrainType.grass; TerrainType.desert]
                     (PointOfInterest.position t)) (townsOf world)
  /\ Forall (fun t =>
               stands [TerrainType.grass; TerrainType.forest; TerrainType.desert]
                 (PointOfInterest.position t)) (campsOf world)
  /\ Forall (fun t => stands [TerrainType.grass; TerrainType.forest]
                        (PointOfInterest.position t)) (encountersOf world)
  /\ Forall (fun n =>
               stands [TerrainType.grass; TerrainType.forest; TerrainType.desert]
                 (ResourceNode.position n)) (WorldMap.resourceNodes world).
Proof.
  destruct (generateWorld_anatomy seedrandom config)
    as (tiles & towns & camps & nodes & encounters & Hworld).
  revert Hworld. generalize (generateWorld seedrandom config).
  intros world Hworld.
  pose proof Hworld as ((_ & Enodes & _) & (Et & Ec & Ee) & Hgrid & (_ & Ht & _)
                        & (_ & _ & Hc & _) & (_ & _ & _ & Hn & _)
                        & (_ & _ & _ & _ & He & _) & _).
  cbn zeta. rewrite Et, Ec, Ee, Enodes.
  split; [|split; [|split]].
  - eapply Forall_impl; [exact Ht|]. intros t [Hpos _].
    by eapply anatomy_ground.
  - eapply Forall_impl; [exact Hc|]. intros t [Hpos _].
    by eapply anatomy_ground.
  - eapply Forall_impl; [exact He|]. intros t [Hpos _].
    by eapply anatomy_ground.
  - eapply Forall_impl; [exact Hn|]. intros n [Hpos _].
    destruct (anatomy_ground _ _ _ _ _ _ _ _ _ _ Hworld Hpos)
      as (tile & Htile & Hpass & Hterrain).
    exists tile. split; [exact Htile|]. split; [exact Hpass|].
    (* a passable tile is no mountain *)
    apply findValidPositions_spec in Hpos as (fresh & Hfresh & _ & Hfp).
    destruct (anatomy_tileAt _ _ _ _ _ _ _ _ _ _ Hworld Hfresh)
      as (tile' & Htile' & _ & _ & _ & Ht').
    rewrite Htile in Htile'. injection Htile' as <-.
    specialize (Hgrid (ResourceNode.position n)).
    destruct (inBounds _ _ _); [|congruence].
    destruct Hgrid as (terrain & elevation & Heq & Hroad).
    rewrite Hfresh in Heq. injection Heq as ->. cbn in Hfp, Ht'.
    destruct Ht' as [->|[-> _]]; [|by apply elem_of_cons; left].
    apply elem_of_cons; right.
    destruct terrain; try discriminate Hfp; try (by destruct Hroad);
      repeat constructor.
Qed.

(** X11 - in the world [generateWorld] returns every town but the last is
    where a road starts: the tile under it is a road tile of cost one half
    that still holds the town. *)
Theorem generateWorld_towns_on_roads
    (seedrandom : string -> nat -> Q) (config : WorldGenConfig.t)
    (i : nat) (town : PointOfInterest.t) :
  let world := generateWorld seedrandom config in
  townsOf world !! i = Some town ->
  (S i < length (townsOf world))%nat ->
  exists tile,
    tileAt (WorldMap.tiles world) (PointOfInterest.position town) = Some tile
    /\ Tile.terrain tile = TerrainType.road
    /\ Tile.movementCost tile = Cost.Finite (1 # 2)
    /\ Tile.isPassable tile = true
    /\ Tile.pointOfInterest tile = Some town.
Proof.
  destruct (generateWorld_anatomy seedrandom config)
    as (tiles & towns & camps & nodes & encounters & Hworld).
  revert Hworld. generalize (generateWorld seedrandom config).
  intros world Hworld. cbn zeta.
  pose proof (anatomy_allPOIs _ _ _ _ _ _ _ _ Hworld) as Hspread.
  pose proof Hworld as (_ & (-> & _) & _ & (_ & Ht & _) & _ & _ & _ & _
                        & Hunder & _).
  intros Hi Hlen. rewrite (Hunder i town Hi Hlen), tileAt_placeFeatures.
  rewrite Forall_forall in Ht.
  destruct (Ht town ltac:(by eapply list_elem_of_lookup_2))
    as [(fresh & Hfresh & Hterrain & Hpass)%findValidPositions_spec _].
  rewrite Hfresh. cbn [fmap option_fmap option_map].
  eexists. split; [reflexivity|].
  assert (Hcarve : Tile.isPassable fresh
                   && negb (bool_decide (Tile.terrain fresh = TerrainType.water))
                   = true).
  { rewrite Hpass. cbn [andb]. apply negb_true_iff, bool_decide_eq_false.
    intros Hw. rewrite Hw in Hterrain.
    apply elem_of_cons in Hterrain as [?|Hterrain]; [done|].
    apply elem_of_cons in Hterrain as [?|Hterrain]; [done|].
    by apply elem_of_nil in Hterrain. }
  unfold carveRoad, withFeatures. cbn. rewrite Hcarve. cbn.
  split; [done|]. split; [done|]. split; [done|].
  apply lastAt_unique; [by apply (spread_NoDup _ 3)|].
  apply elem_of_app; left. by eapply list_elem_of_lookup_2.
Qed.

(** The first of the two towns of [demoGenerated], at (9, 2), stands on a
    road tile. *)
Lemma generateWorld_towns_on_roads_witness :
  exists town tile,
    townsOf (generateWorld demoStream demoConfig) !! 0%nat = Some town
    /\ PointOfInterest.position town = Position.mk 9 2
    /\ tileAt (WorldMap.tiles (generateWorld demoStream demoConfig))
         (PointOfInterest.position town) = Some tile
    /\ Tile.terrain tile = TerrainType.road.
Proof.
  assert (Hpos : map PointOfInterest.position
                   (townsOf (generateWorld demoStream demoConfig))
                 = [Position.mk 9 2; Position.mk 1 3])
    by (rewrite demoGenerated_spec; vm_compute; reflexivity).
  destruct (townsOf (generateWorld demoStream demoConfig)) as [|t1 [|t2 rest]]
    eqn:Htowns; try discriminate Hpos.
  injection Hpos as H1 H2 Hrest. destruct rest; [|discriminate Hrest].
  destruct (generateWorld_towns_on_roads demoStream demoConfig 0 t1)
    as (tile & Htile & Hroad & _).
  - by rewrite Htowns.
  - rewrite Htowns. cbn. lia.
  - exists t1, tile. split; [reflexivity|]. split; [exact H1|].
    split; [exact Htile|exact Hroad].
Defined.

(** X12 - in the world [generateWorld] returns any two enemy camps are at
    Manhattan distance 4 or more, and every camp is at distance 5 or more
    from every town. *)
Theorem camps_keep_distance
    (seedrandom : string -> nat -> Q) (config : WorldGenConfig.t) :
  let world := generateWorld seedrandom config in
  spread PointOfInterest.position 4 (campsOf world)
  /\ apart PointOfInterest.position PointOfInterest.position 5
       (campsOf world) (townsOf world).
Proof.
  destruct (generateWorld_anatomy seedrandom config)
    as (tiles & towns & camps & nodes & encounters & Hworld).
  revert Hworld. generalize (generateWorld seedrandom config).
  intros world Hworld. cbn zeta.
  destruct Hworld as (_ & (-> & -> & _) & _ & _ & (Hspread & Hapart & _) & _).
  by split.
Qed.

(** X13 - in the world [generateWorld] returns any two resource nodes are
    at Manhattan distance 3 or more, and every node is at distance 3 or
    more from every town and every enemy camp. *)
Theorem nodes_keep_distance
    (seedrandom : string -> nat -> Q) (config : WorldGenConfig.t) :
  let world := generateWorld seedrandom config in
  spread ResourceNode.position 3 (WorldMap.resourceNodes world)
  /\ apart ResourceNode.position PointOfInterest.position 3
       (WorldMap.resourceNodes world) (townsOf world)
  /\ apart ResourceNode.position PointOfInterest.position 3
       (WorldMap.resourceNodes world) (campsOf world).
Proof.
  destruct (generateWorld_anatomy seedrandom config)
    as (tiles & towns & camps & nodes & encounters & Hworld).
  revert Hworld. generalize (generateWorld seedrandom config).
  intros world Hworld. cbn zeta.
  destruct Hworld as ((_ & -> & _) & (-> & -> & _) & _ & _ & _
                      & (Hspread & Htowns & Hcamps & _) & _).
  by split.
Qed.

(** X14 - in the world [generateWorld] returns any two neutral encounters
    are at Manhattan distance 3 or more, and every encounter is at distance
    3 or more from every town, enemy camp and resource node. *)
Theorem encounters_keep_distance
    (seedrandom : string -> nat -> Q) (config : WorldGenConfig.t) :
  let world := generateWorld seedrandom config in
  spread PointOfInterest.position 3 (encountersOf world)
  /\ apart PointOfInterest.position PointOfInterest.position 3
       (encountersOf world) (townsOf world)
  /\ apart PointOfInterest.position PointOfInterest.position 3
       (encountersOf world) (campsOf world)
  /\ apart PointOfInterest.position ResourceNode.position 3
       (encountersOf world) (WorldMap.resourceNodes world).
Proof.
  destruct (generateWorld_anatomy seedrandom config)
    as (tiles & towns & camps & nodes & encounters & Hworld).
  revert Hworld. generalize (generateWorld seedrandom config).
  intros world Hworld. cbn zeta.
  destruct Hworld as ((_ & -> & _) & (-> & -> & ->) & _ & _ & _ & _
                      & (Hspread & Htowns & Hcamps & Hnodes & _) & _).
  by split.
Qed.

(** X15 - the world [generateWorld] returns has at most the asked number of
    features of each kind (none for a negative number). *)
Theorem generateWorld_counts
    (seedrandom : string -> nat -> Q) (config : WorldGenConfig.t) :
  let world := generateWorld seedrandom config in
  Z.of_nat (length (townsOf world)) <= Z.max 0 (WorldGenConfig.numTowns config)
  /\ Z.of_nat (length (campsOf world))
     <= Z.max 0 (WorldGenConfig.numEnemyCamps config)
  /\ Z.of_nat (length (WorldMap.resourceNodes world))
     <= Z.max 0 (WorldGenConfig.numResourceNodes config)
  /\ Z.of_nat (length (encountersOf world))
     <= Z.max 0 (WorldGenConfig.numNeutralEncounters config)
  /\ WorldMap.pointsOfInterest world
     = townsOf world ++ campsOf world ++ encountersOf world.
Proof.
  destruct (generateWorld_anatomy seedrandom config)
    as (tiles & towns & camps & nodes & encounters & Hworld).
  revert Hworld. generalize (generateWorld seedrandom config).
  intros world Hworld. cbn zeta.
  destruct Hworld as ((-> & -> & _) & (-> & -> & ->) & _ & (_ & _ & Ht & _)
                      & (_ & _ & _ & Hc) & (_ & _ & _ & _ & Hn)
                      & (_ & _ & _ & _ & _ & He) & _).
  by repeat split.
Qed.

(** X16 - in the world [generateWorld] returns the only point of interest
    that is discovered is the first one when it is a town; that town is the
    player's and has an empty garrison, and every other town is neutral. *)
Theorem generateWorld_player_start
    (seedrandom : string -> nat -> Q) (config : WorldGenConfig.t)
    (i : nat) (poi : PointOfInterest.t) :
  let world := generateWorld seedrandom config in
  WorldMap.pointsOfInterest world !! i = Some poi ->
  (PointOfInterest.isDiscovered poi = true
   <-> i = 0%nat /\ PointOfInterest.type poi = PointOfInterestType.town)
  /\ (PointOfInterest.type poi = PointOfInterestType.town ->
      PointOfInterest.factionId poi
      = (if bool_decide (i = 0%nat) then FactionId.player
         else FactionId.neutral)
      /\ (i = 0%nat -> PointOfInterest.garrison poi = Some [])).
Proof.
  destruct (generateWorld_anatomy seedrandom config)
    as (tiles & towns & camps & nodes & encounters & Hworld).
  revert Hworld. generalize (generateWorld seedrandom config).
  intros world Hworld. cbn zeta.
  destruct Hworld as ((-> & _) & _ & _ & (_ & Ht & _ & Hfirst)
                      & (_ & _ & Hc & _) & _ & (_ & _ & _ & _ & He & _) & _).
  rewrite Forall_forall in Ht, Hc, He.
  intros [Hi|[Hlen [Hi|[Hlen' Hi]]%lookup_app_Some]]%lookup_app_Some.
  - destruct (Hfirst i poi Hi) as (Hdisc & Hfaction & Hgarrison).
    destruct (Ht poi ltac:(by eapply list_elem_of_lookup_2)) as [_ Hty].
    rewrite Hdisc. split; [|done].
    rewrite bool_decide_eq_true. split; [done|by intros [? _]].
  - destruct (Hc poi ltac:(by eapply list_elem_of_lookup_2))
      as (_ & Hty & Hdisc & _).
    rewrite Hdisc, Hty. split; [|done]. split; [done|by intros [_ ?]].
  - destruct (He poi ltac:(by eapply list_elem_of_lookup_2))
      as (_ & Hty & Hdisc & _).
    rewrite Hdisc, Hty. split; [|done]. split; [done|by intros [_ ?]].
Qed.

Lemma generateWorld_player_start_witness :
  exists poi,
    WorldMap.pointsOfInterest (generateWorld demoStream demoConfig) !! 0%nat
    = Some poi
    /\ PointOfInterest.isDiscovered poi = true
    /\ PointOfInterest.factionId poi = FactionId.player.
Proof.
  assert (Hfirst : (fun poi => (PointOfInterest.type poi,
                                PointOfInterest.isDiscovered poi))
                   <$> WorldMap.pointsOfInterest
                         (generateWorld demoStream demoConfig) !! 0%nat
                   = Some (PointOfInterestType.town, true))
    by (rewrite demoGenerated_spec; vm_compute; reflexivity).
  destruct (WorldMap.pointsOfInterest (generateWorld demoStream demoConfig)
              !! 0%nat) as [poi|] eqn:Hpoi; [|discriminate Hfirst].
  injection Hfirst as Hty Hdisc.
  destruct (generateWorld_player_start demoStream demoConfig 0 poi Hpoi)
    as [_ Htown].
  exists poi. split; [reflexivity|]. split; [exact Hdisc|].
  exact (proj1 (Htown Hty)).
Defined.

(** X17 - with draws in [0, 1), every resource node of the world
    [generateWorld] returns yields between 5 and 19 a turn and is owned by
    nobody. *)
Theorem generateWorld_nodes_yield
    (seedrandom : string -> nat -> Q) (config : WorldGenConfig.t) :
  (forall n,
     (0 <= seedrandom (WorldGenConfig.seed config) n)%Q
     /\ (seedrandom (WorldGenConfig.seed config) n < 1)%Q) ->
  Forall (fun node =>
            5 <= ResourceNode.amountPerTurn node < 20
            /\ ResourceNode.isOwned node = false
            /\ ResourceNode.ownedBy node = None)
         (WorldMap.resourceNodes (generateWorld seedrandom config)).
Proof.
  intros Hunit.
  destruct (generateWorld_anatomy seedrandom config)
    as (tiles & towns & camps & nodes & encounters & Hworld).
  revert Hworld. generalize (generateWorld seedrandom config).
  intros world ((_ & -> & _) & _ & _ & _ & _ & (_ & _ & _ & Hnodes & _) & _).
  eapply Forall_impl; [exact Hnodes|].
  intros node (_ & Howned & Hby & Hamount). split; [by apply Hamount|].
  by split.
Qed.

Lemma generateWorld_nodes_yield_witness :
  Forall (fun node =>
            5 <= ResourceNode.amountPerTurn node < 20
            /\ ResourceNode.isOwned node = false
            /\ ResourceNode.ownedBy node = None)
         (WorldMap.resourceNodes (generateWorld demoStream demoConfig)).
Proof.
  apply (generateWorld_nodes_yield demoStream demoConfig).
  intros n. apply demoStream_unit.
Defined.

(** *** Garrisons *)

Lemma UnitDraws_steady {A} (m : Rand A) g :
  Steady m -> UnitDraws g -> UnitDraws (snd (m g)).
Proof. intros Hm Hg n. rewrite Hm. apply Hg. Qed.

Lemma garrisonLoop_spec (P : Unit.t -> Prop) difficulty :
  (forall unitType id c,
     unitType ∈ [UnitType.warrior; UnitType.archer; UnitType.cavalry] ->
     2 <= c < 8 ->
     P (Unit.set_count (difficulty * 3 + c)
          (Unit.set_id ("unit_" +:+ id) (UNIT_TEMPLATES unitType)))) ->
  forall n garrison g,
    UnitDraws g -> Forall P garrison ->
    length (fst (garrisonLoop n difficulty garrison g))
    = (length garrison + n)%nat
    /\ Forall P (fst (garrisonLoop n difficulty garrison g)).
Proof.
  intros HP. induction n as [|n IH]; intros garrison g Hg Hgarrison.
  { cbn. split; [lia|done]. }
  cbn [garrisonLoop]. unfold mbind, Rand_bind.
  pose proof (randomElement_unit UnitType.warrior
                [UnitType.warrior; UnitType.archer; UnitType.cavalry] g Hg
                ltac:(done)) as Htype.
  pose proof (UnitDraws_steady _ g
                (Steady_randomElement UnitType.warrior
                   [UnitType.warrior; UnitType.archer; UnitType.cavalry]) Hg)
    as Hg1.
  destruct (randomElement _ _ g) as [unitType g1]. cbn [fst snd] in Htype, Hg1.
  pose proof (UnitDraws_steady _ g1 Steady_randomId Hg1) as Hg2.
  destruct (randomId g1) as [id g2]. cbn [snd] in Hg2.
  pose proof (randomInt_unit 2 8 g2 Hg2 ltac:(lia)) as Hc.
  pose proof (UnitDraws_steady _ g2 (Steady_randomInt 2 8) Hg2) as Hg3.
  destruct (randomInt 2 8 g2) as [c g3]. cbn [fst snd] in Hc, Hg3.
  destruct (IH (garrison ++
                [Unit.set_count (difficulty * 3 + c)
                   (Unit.set_id ("unit_" +:+ id) (UNIT_TEMPLATES unitType))])
              g3 Hg3) as [Hlen Hall].
  { apply Forall_app. split; [done|]. apply Forall_singleton. by apply HP. }
  split; [|done]. rewrite Hlen, length_app. cbn [length]. lia.
Qed.

(** X18 - [generateGarrison(rng, difficulty)] with draws in [0, 1) and a
    difficulty that is not negative returns [2 * difficulty + 1] or
    [2 * difficulty + 2] stacks; each is of warriors, archers or cavalry,
    has the statistics of its template and counts between
    [3 * difficulty + 2] and [3 * difficulty + 7] units. *)
Theorem generateGarrison_stacks (difficulty : Z) (g : SeededRandom.t) :
  UnitDraws g -> 0 <= difficulty ->
  let garrison := fst (generateGarrison difficulty g) in
  2 * difficulty + 1 <= Z.of_nat (length garrison) <= 2 * difficulty + 2
  /\ Forall (fun unit =>
               Unit.type unit
                 ∈ [UnitType.warrior; UnitType.archer; UnitType.cavalry]
               /\ Unit.stats unit = Unit.stats (UNIT_TEMPLATES (Unit.type unit))
               /\ 3 * difficulty + 2 <= Unit.count unit <= 3 * difficulty + 7)
            garrison.
Proof.
  intros Hg Hd. unfold generateGarrison. unfold mbind, Rand_bind.
  pose proof (randomInt_unit 1 3 g Hg ltac:(lia)) as Hk.
  pose proof (UnitDraws_steady _ g (Steady_randomInt 1 3) Hg) as Hg1.
  destruct (randomInt 1 3 g) as [k g1]. cbn [fst snd] in Hk, Hg1. cbn zeta.
  destruct (garrisonLoop_spec
              (fun unit =>
                 Unit.type unit
                   ∈ [UnitType.warrior; UnitType.archer; UnitType.cavalry]
                 /\ Unit.stats unit
                    = Unit.stats (UNIT_TEMPLATES (Unit.type unit))
                 /\ 3 * difficulty + 2 <= Unit.count unit <= 3 * difficulty + 7)
              difficulty) with (n := Z.to_nat (difficulty * 2 + k))
                               (garrison := @nil Unit.t) (g := g1)
    as [Hlen Hall]; [|done|done|].
  - intros unitType id c Htype Hc. cbn.
    split; [by destruct unitType|]. split; [by destruct unitType|]. lia.
  - split; [|done]. rewrite Hlen. cbn [length]. lia.
Qed.

Lemma generateGarrison_stacks_witness :
  length (fst (generateGarrison 1 demoRandom)) = 3%nat
  /\ 2 * 1 + 1 <= Z.of_nat (length (fst (generateGarrison 1 demoRandom)))
     <= 2 * 1 + 2.
Proof.
  split; [reflexivity|].
  apply (generateGarrison_stacks 1 demoRandom demoRandom_unit). lia.
Defined.

(** *** Towns *)

Lemma randomInt_unit_step min max g a g' :
  UnitDraws g -> min < max -> randomInt min max g = (a, g') ->
  min <= a < max /\ UnitDraws g'.
Proof.
  intros Hg Hlt Hrun. pose proof (randomInt_unit min max g Hg Hlt) as Ha.
  pose proof (UnitDraws_steady _ g (Steady_randomInt min max) Hg) as Hg'.
  rewrite Hrun in Ha, Hg'. by split.
Qed.

Lemma UnitDraws_step {A} (m : Rand A) g a g' :
  Steady m -> UnitDraws g -> m g = (a, g') -> UnitDraws g'.
Proof.
  intros Hm Hg Hrun. pose proof (UnitDraws_steady m g Hm Hg) as Hg'.
  by rewrite Hrun in Hg'.
Qed.

Lemma createTown_stocked position isPlayerStart g :
  UnitDraws g -> Stocked (fst (createTown position isPlayerStart g)).
Proof.
  intros Hg. unfold createTown, generateRecruitPool.
  unfold mbind, Rand_bind.
  destruct (randomId g) as [id g1] eqn:E1.
  pose proof (UnitDraws_step _ _ _ _ Steady_randomId Hg E1) as Hg1.
  pose proof (randomElement_unit "undefined" townNames g1 Hg1 ltac:(done))
    as Hname.
  destruct (randomElement "undefined" townNames g1) as [name g2] eqn:E2.
  pose proof (UnitDraws_step _ _ _ _ (Steady_randomElement _ _) Hg1 E2) as Hg2.
  cbn [fst] in Hname.
  assert (Hg3 : UnitDraws
                  (snd ((if isPlayerStart then mret [] else generateGarrison 1)
                          g2))).
  { apply UnitDraws_steady; [|done]. destruct isPlayerStart; eauto with steady. }
  destruct ((if isPlayerStart then mret [] else generateGarrison 1) g2)
    as [garrison g3]. cbn [snd] in Hg3.
  destruct (randomInt 5 15 g3) as [a1 g4] eqn:E4.
  destruct (randomInt_unit_step 5 15 _ _ _ Hg3 ltac:(lia) E4) as [Ha1 Hg4].
  destruct (randomInt 3 10 g4) as [a2 g5] eqn:E5.
  destruct (randomInt_unit_step 3 10 _ _ _ Hg4 ltac:(lia) E5) as [Ha2 Hg5].
  destruct (randomInt 2 6 g5) as [a3 g6] eqn:E6.
  destruct (randomInt_unit_step 2 6 _ _ _ Hg5 ltac:(lia) E6) as [Ha3 Hg6].
  destruct (randomInt 1 4 g6) as [a4 g7] eqn:E7.
  destruct (randomInt_unit_step 1 4 _ _ _ Hg6 ltac:(lia) E7) as [Ha4 Hg7].
  destruct (randomInt 2 5 g7) as [a5 g8] eqn:E8.
  destruct (randomInt_unit_step 2 5 _ _ _ Hg7 ltac:(lia) E8) as [Ha5 Hg8].
  unfold mret at 1, Rand_ret at 1.
  destruct (randomInt 100 500 g8) as [gold g9] eqn:E9.
  destruct (randomInt_unit_step 100 500 _ _ _ Hg8 ltac:(lia) E9) as [Hgold Hg9].
  destruct (randomInt 50 200 g9) as [wood g10] eqn:E10.
  destruct (randomInt_unit_step 50 200 _ _ _ Hg9 ltac:(lia) E10) as [Hwood Hg10].
  destruct (randomInt 30 150 g10) as [stone g11] eqn:E11.
  destruct (randomInt_unit_step 30 150 _ _ _ Hg10 ltac:(lia) E11) as [Hstone Hg11].
  destruct (randomInt 10 50 g11) as [crystals g12] eqn:E12.
  destruct (randomInt_unit_step 10 50 _ _ _ Hg11 ltac:(lia) E12) as [Hcrystals _].
  exists a1, a2, a3, a4, a5, (Resources.mk gold wood stone crystals).
  unfold mret, Rand_ret.
  cbn [fst PointOfInterest.variant PointOfInterest.name Resources.gold
       Resources.wood Resources.stone Resources.crystals].
  split; [reflexivity|]. split; [lia|]. split; [lia|]. exact Hname.
Qed.

Lemma generateTowns_stocked tiles count g :
  UnitDraws g -> Forall Stocked (fst (generateTowns tiles count g)).
Proof.
  intros Hg. unfold generateTowns. unfold mbind, Rand_bind.
  pose proof (UnitDraws_steady _ g
                (Steady_shuffle
                   (findValidPositions tiles
                      [TerrainType.grass; TerrainType.desert])) Hg) as Hg'.
  destruct (shuffle _ g) as [positions g']. cbn [snd] in Hg'.
  apply (townsLoop_ind (SeededRandom.rng g') (Forall Stocked));
    [|done|apply Forall_nil_2].
  intros towns pos g0 Hstream Htowns _ _ _.
  apply Forall_app. split; [exact Htowns|]. apply Forall_singleton.
  apply createTown_stocked. intros n. rewrite Hstream. apply Hg'.
Qed.

(** X19 - with draws in [0, 1), every town of the world [generateWorld]
    returns has a name of the list of town names, no building, a stock of
    100 to 499 gold, 50 to 199 wood, 30 to 149 stone and 10 to 49 crystals,
    and offers warriors, archers, cavalry, mages and healers, in this
    order, at their fixed costs and weekly limits, with 5 to 14, 3 to 9,
    2 to 5, 1 to 3 and 2 to 4 of them available. *)
Theorem generateWorld_towns_offer
    (seedrandom : string -> nat -> Q) (config : WorldGenConfig.t) :
  (forall n,
     (0 <= seedrandom (WorldGenConfig.seed config) n)%Q
     /\ (seedrandom (WorldGenConfig.seed config) n < 1)%Q) ->
  Forall (fun town =>
            exists a1 a2 a3 a4 a5 stock,
              PointOfInterest.variant town
              = PoiVariant.Town
                  [ UnitRecruitOption.mk UnitType.warrior
                      (Resources.mk 100 0 0 0) a1 10;
                    UnitRecruitOption.mk UnitType.archer
                      (Resources.mk 80 20 0 0) a2 8;
                    UnitRecruitOption.mk UnitType.cavalry
                      (Resources.mk 200 0 0 0) a3 4;
                    UnitRecruitOption.mk UnitType.mage
                      (Resources.mk 250 0 0 20) a4 2;
                    UnitRecruitOption.mk UnitType.healer
                      (Resources.mk 150 0 0 10) a5 3 ]
                  [] stock
              /\ (5 <= a1 < 15 /\ 3 <= a2 < 10 /\ 2 <= a3 < 6 /\ 1 <= a4 < 4
                  /\ 2 <= a5 < 5)
              /\ (100 <= Resources.gold stock < 500
                  /\ 50 <= Resources.wood stock < 200
                  /\ 30 <= Resources.stone stock < 150
                  /\ 10 <= Resources.crystals stock < 50)
              /\ PointOfInterest.name town ∈ townNames)
         (townsOf (generateWorld seedrandom config)).
Proof.
  intros Hunit.
  destruct (generateWorld_stages seedrandom config)
    as (noise & tiles & towns & camps & nodes & encounters
        & g1 & g2 & g3 & g4 & g5 & g6 & Hstreams & _ & Htowns & Hcamps & _
        & Hencounters & Hworld).
  revert Hworld. generalize (generateWorld seedrandom config).
  intros world ->. unfold townsOf. cbn [WorldMap.pointsOfInterest].
  apply Forall_forall. intros town [Htype Hin]%list_elem_of_filter.
  assert (Hg2 : UnitDraws g2).
  { intros n. apply Forall_cons in Hstreams as [_ [Hs _]%Forall_cons].
    rewrite Hs. apply Hunit. }
  pose proof (generateTowns_stocked tiles (WorldGenConfig.numTowns config) g2
                Hg2) as Hstocked.
  rewrite <- Htowns in Hstocked.
  pose proof (generateEnemyCamps_spec tiles
                (WorldGenConfig.numEnemyCamps config) towns g3)
    as (_ & _ & Hcamp & _).
  rewrite <- Hcamps in Hcamp.
  pose proof (generateNeutralEncounters_spec tiles
                (WorldGenConfig.numNeutralEncounters config) towns camps
                nodes g5) as (_ & _ & _ & _ & Henc & _).
  rewrite <- Hencounters in Henc.
  rewrite Forall_forall in Hstocked, Hcamp, Henc.
  apply elem_of_app in Hin as [Hin|[Hin|Hin]%elem_of_app].
  - exact (Hstocked town Hin).
  - destruct (Hcamp town Hin) as (_ & Hty & _). congruence.
  - destruct (Henc town Hin) as (_ & Hty & _). congruence.
Qed.

Lemma generateWorld_towns_offer_witness :
  length (townsOf (generateWorld demoStream demoConfig)) = 2%nat
  /\ Forall (fun town => PointOfInterest.name town ∈ townNames)
       (townsOf (generateWorld demoStream demoConfig)).
Proof.
  split; [by rewrite demoGenerated_spec|].
  eapply Forall_impl.
  - apply (generateWorld_towns_offer demoStream demoConfig).
    intros n. apply demoStream_unit.
  - intros town (a1 & a2 & a3 & a4 & a5 & stock & _ & _ & _ & Hname).
    exact Hname.
Defined.

(** ** Sessions *)

(** *** What the commands leave alone *)

Lemma fmap_alter_frame {A B} (f : A -> B) (g : A -> A) (l : list A) (i : nat) :
  (forall x, f (g x) = f x) -> f <$> alter g i l = f <$> l.
Proof.
  intros H. rewrite (list_fmap_alter f g id).
  - by apply list_alter_id.
  - apply Forall_forall. intros x _. apply H.
Qed.

Lemma drawFromPool_frame ty count poi :
  let poi' := drawFromPool ty count poi in
  (PointOfInterest.id poi', PointOfInterest.name poi',
   PointOfInterest.position poi', PointOfInterest.type poi',
   PointOfInterest.factionId poi', PointOfInterest.garrison poi',
   PointOfInterest.isDiscovered poi')
  = (PointOfInterest.id poi, PointOfInterest.name poi,
     PointOfInterest.position poi, PointOfInterest.type poi,
     PointOfInterest.factionId poi, PointOfInterest.garrison poi,
     PointOfInterest.isDiscovered poi).
Proof.
  unfold drawFromPool. destruct poi as [? ? ? ? ? ? []]; cbn; try done.
  unfold PointOfInterest.type. by destruct (list_find _ _) as [[? ?]|].
Qed.

Lemma spendResources_map factionId resources state :
  GameState.worldMap (snd (spendResources factionId resources state))
  = GameState.worldMap state.
Proof.
  unfold spendResources. destruct (getFaction _ _); [|done].
  by destruct (negb _).
Qed.

Lemma recruitUnit_map now townId unitType count state :
  mapFrame (GameState.worldMap (snd (recruitUnit now townId unitType count state)))
  = mapFrame (GameState.worldMap state).
Proof.
  unfold recruitUnit.
  repeat match goal with
         | |- context [match ?x with _ => _ end] =>
             lazymatch x with
             | spendResources _ _ _ => fail
             | _ => destruct x eqn:?
             end
         end; try done.
  all: match goal with
       | |- context [spendResources ?f ?r ?s] =>
           pose proof (spendResources_map f r s) as Hspent;
           destruct (spendResources f r s) as [[|] spent]
       end; cbn [snd] in *; try done.
  all: destruct (heroPath _ (GameState.factions spent)) as [[[fi hi] h]|];
    cbn [snd]; [|by rewrite Hspent].
  all: cbn [GameState.worldMap GameState.set_worldMap]; rewrite Hspent.
  all: unfold mapFrame; cbn; f_equal.
  all: apply fmap_alter_frame; intros poi.
  all: apply (drawFromPool_frame _ _ poi).
Qed.

Lemma execute_map seedrandom command state :
  match command with
  | Command.initGame _ _ => True
  | _ =>
      mapFrame (GameState.worldMap (execute seedrandom command state))
      = mapFrame (GameState.worldMap state)
  end.
Proof.
  destruct command; cbn [execute]; try done.
  - unfold moveHero.
    repeat match goal with
           | |- context [match ?x with _ => _ end] => destruct x eqn:?
           end; done.
  - unfold endTurn. by destruct (_ !! _).
  - unfold startCombat.
    repeat match goal with
           | |- context [match ?x with _ => _ end] => destruct x
           end; done.
  - by rewrite (proj2 (combatStep_frame now action state)).
  - by rewrite (proj2 (runAutoBattle_frame env state)).
  - unfold endCombat. by destruct (GameState.combatState state).
  - unfold enterTown. by destruct (find _ _).
  - apply recruitUnit_map.
  - by rewrite spendResources_map.
Qed.

Lemma mapFrame_fields a b :
  mapFrame a = mapFrame b ->
  WorldMap.width a = WorldMap.width b
  /\ WorldMap.height a = WorldMap.height b
  /\ WorldMap.tiles a = WorldMap.tiles b
  /\ WorldMap.resourceNodes a = WorldMap.resourceNodes b.
Proof. unfold mapFrame. intros [= ? ? ? ? ? ?]. auto. Qed.

(** X20 - no command but [initGame] changes the map: after any sequence of
    other commands the size, the tiles (with what they hold), the seed and
    the resource nodes are as before, and so are the points of interest but
    for the recruit pools of towns.  No point of interest becomes
    discovered and no resource node gets an owner. *)
Theorem sessions_keep_map
    (seedrandom : string -> nat -> Q) (commands : list Command.t)
    (state : GameState.t) :
  forallb (fun c => negb (isInitGame c)) commands = true ->
  mapFrame (GameState.worldMap (executeAll seedrandom commands state))
  = mapFrame (GameState.worldMap state).
Proof.
  revert state. induction commands as [|c commands IH]; intros state Hc; [done|].
  cbn [forallb] in Hc. apply andb_true_iff in Hc as [Hc Hrest].
  cbn [executeAll foldl]. change (foldl _ ?s commands)
    with (executeAll seedrandom commands s).
  rewrite (IH _ Hrest).
  pose proof (execute_map seedrandom c state) as Hmap.
  by destruct c.
Qed.

(** A session on [demoState]: a move, the end of the turn, a purchase *)
Lemma sessions_keep_map_witness :
  mapFrame
    (GameState.worldMap
       (executeAll demoStream
          [ Command.moveHero "hero_a" (Position.mk 1 0); Command.endTurn;
            Command.recruitUnit 0 "town_a" "warrior" 1 ]
          demoState))
  = mapFrame (GameState.worldMap demoState).
Proof. apply (sessions_keep_map demoStream). reflexivity. Defined.

(** *** Movement points *)

Lemma getTileAt_Tabled state p tile :
  MapTabled state -> getTileAt state p = Some tile -> Tabled tile.
Proof.
  unfold MapTabled, getTileAt. intros Hmap.
  destruct (_ || _); [done|].
  destruct (WorldMap.tiles _ !! _) as [row|] eqn:Hrow; [|done]. cbn.
  intros Htile.
  rewrite Forall_lookup in Hmap. specialize (Hmap _ _ Hrow).
  rewrite Forall_lookup in Hmap. by apply (Hmap _ _ Htile).
Qed.

Lemma Tabled_cost tile c :
  Tabled tile -> Tile.movementCost tile = Cost.Finite c -> (0 < c)%Q.
Proof.
  intros [Hcost _] Hc. rewrite Hcost in Hc.
  destruct (Tile.terrain tile); try discriminate Hc; by injection Hc as <-.
Qed.

Lemma updateHero_heroes (P : Hero.t -> Prop) fi hi f factions :
  (forall g h,
     factions !! fi = Some g -> Faction.heroes g !! hi = Some h ->
     P h -> P (f h)) ->
  Forall (fun g => Forall P (Faction.heroes g)) factions ->
  Forall (fun g => Forall P (Faction.heroes g)) (updateHero fi hi f factions).
Proof.
  intros Hf HP. unfold updateHero.
  apply Forall_alter; [done|]. intros g Hg HPg. cbn.
  apply Forall_alter; [done|]. intros h Hh. by apply (Hf g).
Qed.

Lemma updateFaction_heroes (P : Hero.t -> Prop) factionId f factions :
  (forall g, Faction.heroes (f g) = Faction.heroes g) ->
  Forall (fun g => Forall P (Faction.heroes g)) factions ->
  Forall (fun g => Forall P (Faction.heroes g))
    (updateFaction factionId f factions).
Proof.
  intros Hf HP. unfold updateFaction.
  destruct (list_find _ factions) as [[i g]|]; [|done].
  apply Forall_alter; [done|]. intros x _. by rewrite Hf.
Qed.

Lemma createInitialHero_fields factionId position g :
  let hero := fst (createInitialHero factionId position g) in
  Hero.factionId hero = factionId
  /\ Hero.position hero = position
  /\ Hero.movementPoints hero = 10%Q
  /\ Hero.maxMovementPoints hero = 10%Q
  /\ (Hero.level hero, Hero.experience hero, Hero.experienceToNext hero)
     = (1, 0, 100)
  /\ (fun u => (Unit.type u, Unit.count u)) <$> Hero.crew hero
     = [(UnitType.warrior, 10); (UnitType.archer, 5)]
  /\ exists id, Hero.id hero = "hero_" +:+ id.
Proof.
  unfold createInitialHero. run_rand. cbn. repeat split; try done. by eexists.
Qed.

(** The two factions a game starts with *)
Lemma createInitialFactions_shape worldMap g :
  let playerTown :=
    find (isTownOf FactionId.player) (WorldMap.pointsOfInterest worldMap) in
  let enemyTowns :=
    filter (fun poi => isTownOf FactionId.neutral poi = true)
      (WorldMap.pointsOfInterest worldMap) in
  exists g',
    fst (createInitialFactions worldMap g)
    = [ Faction.mk FactionId.player "Kingdom of Light" "#4a90d9"
          (Resources.mk 1000 200 100 50)
          [fst (createInitialHero FactionId.player
                  (from_option PointOfInterest.position (Position.mk 10 10)
                     playerTown) g)]
          (from_option (fun t => [PointOfInterest.id t]) [] playerTown) false;
        Faction.mk FactionId.enemy_1 "Dark Legion" "#d94a4a"
          (Resources.mk 800 150 80 30)
          [fst (createInitialHero FactionId.enemy_1
                  (from_option PointOfInterest.position (Position.mk 50 50)
                     (head enemyTowns)) g')]
          [] true ].
Proof.
  unfold createInitialFactions. unfold mbind, mret, Rand_bind, Rand_ret.
  destruct (createInitialHero FactionId.player _ g) as [playerHero g1].
  exists g1. by destruct (createInitialHero FactionId.enemy_1 _ g1).
Qed.

Lemma createInitialFactions_fit worldMap g :
  Forall (fun f =>
            Forall (fun h =>
                      (0 <= Hero.movementPoints h)%Q
                      /\ (Hero.movementPoints h <= Hero.maxMovementPoints h)%Q)
                   (Faction.heroes f))
         (fst (createInitialFactions worldMap g)).
Proof.
  destruct (createInitialFactions_shape worldMap g) as [g' ->].
  apply Forall_cons; split;
    [|apply Forall_cons; split; [|by apply Forall_nil_2]].
  all: cbn [Faction.heroes]; apply Forall_singleton.
  all: match goal with
       | |- context [createInitialHero ?f ?p ?g] =>
           destruct (createInitialHero_fields f p g) as (_ & _ & -> & -> & _)
       end; done.
Qed.

Lemma moveHero_fit heroId target state :
  MapTabled state -> HeroesFit state ->
  HeroesFit (stateAfter (moveHero heroId target state)).
Proof.
  intros Hmap Hfit. unfold moveHero.
  destruct (getHero state heroId) as [hero|]; [|done].
  destruct (negb _); [done|].
  destruct (getTileAt state target) as [tile|] eqn:Htile; [|done].
  pose proof (getTileAt_Tabled _ _ _ Hmap Htile) as Htabled.
  destruct (list_find _ (GameState.factions state)) as [[fi faction]|] eqn:Hf;
    [|done].
  cbn [mbind option_bind].
  destruct (list_find _ (Faction.heroes faction)) as [[hi heroToMove]|] eqn:Hh;
    [|done].
  cbn [mbind option_bind].
  destruct (affordsMove _ _) eqn:Hpay; [|done].
  destruct (Tile.pointOfInterest tile); [done|].
  cbn [stateAfter]. unfold HeroesFit.
  cbn [GameState.factions GameState.set_factions].
  apply list_find_Some in Hf as (Hf & _). apply list_find_Some in Hh as (Hh & _).
  apply updateHero_heroes; [|done].
  intros g h Hg Hgh [H0 Hmax]. cbn.
  assert (g = faction) as -> by congruence.
  assert (h = heroToMove) as -> by congruence.
  destruct (Tile.movementCost tile) as [c|] eqn:Hcost; [|done].
  pose proof (Tabled_cost _ _ Htabled Hcost) as Hc. cbn in Hpay |- *.
  apply Qleb_le in Hpay. split; lra.
Qed.

Lemma endTurn_fit state :
  HeroesFit state -> HeroesFit (stateAfter (endTurn state)).
Proof.
  intros Hfit. unfold endTurn.
  destruct (GameState.factions state !! nextIndex state) as [nextFaction|];
    [|done].
  cbn [stateAfter]. unfold HeroesFit.
  cbn [GameState.factions GameState.set_selectedHeroId
       GameState.set_currentFaction GameState.set_factions].
  apply Forall_alter.
  - destruct (bool_decide _); [|done].
    apply Forall_fmap. eapply Forall_impl; [exact Hfit|]. by intros f Hf.
  - intros f _ Hf. unfold resetMovement. cbn.
    apply Forall_fmap. eapply Forall_impl; [exact Hf|].
    intros h [H0 Hmax]. cbn. split; lra.
Qed.

Lemma endCombat_fit result state :
  HeroesFit state -> HeroesFit (endCombat result state).
Proof.
  intros Hfit. unfold endCombat.
  destruct (GameState.combatState state) as [combatState|]; [|done].
  unfold HeroesFit.
  cbn [GameState.factions GameState.set_gamePhase GameState.set_combatState
       GameState.set_factions].
  destruct (heroPath _ _) as [[[fi hi] attacker]|]; [|done].
  destruct (bool_decide _); [|done].
  apply updateHero_heroes; [intros g h _ _ Hh; exact Hh|].
  apply updateFaction_heroes; [done|].
  apply updateHero_heroes; [|done].
  intros g h _ _ Hh. unfold gainExperience. destruct (_ >=? _); exact Hh.
Qed.

Lemma spendResources_fit factionId resources state :
  HeroesFit state -> HeroesFit (snd (spendResources factionId resources state)).
Proof.
  intros Hfit. unfold spendResources.
  destruct (getFaction _ _); [|done]. destruct (negb _); [done|].
  by apply updateFaction_heroes.
Qed.

Lemma recruitUnit_fit now townId unitType count state :
  HeroesFit state ->
  HeroesFit (snd (recruitUnit now townId unitType count state)).
Proof.
  intros Hs. unfold recruitUnit.
  repeat match goal with
         | |- context [match ?x with _ => _ end] =>
             lazymatch x with
             | spendResources _ _ _ => fail
             | _ => destruct x eqn:?
             end
         end; try exact Hs.
  all: match goal with
       | |- context [spendResources ?f ?r ?s] =>
           pose proof (spendResources_fit f r s Hs) as Hspent;
           destruct (spendResources f r s) as [[|] spent]
       end; cbn [snd] in *; try exact Hs.
  all: destruct (heroPath _ (GameState.factions spent)) as [[[fi hi] h]|];
    cbn [snd]; [|exact Hspent].
  all: apply updateHero_heroes; [|exact Hspent].
  all: intros g h' _ _ Hh; unfold enlist;
    destruct (list_find _ (Hero.crew h')) as [[? ?]|]; exact Hh.
Qed.

Lemma initGame_sound seedrandom now config state :
  MapTabled (initGame seedrandom now config state)
  /\ HeroesFit (initGame seedrandom now config state).
Proof.
  split.
  - unfold MapTabled, initGame. cbn [GameState.worldMap].
    match goal with |- context [generateWorld ?s ?c] =>
      destruct (generateWorld_anatomy s c)
        as (tiles & towns & camps & nodes & encounters & Hworld)
    end.
    by eapply anatomy_Tabled.
  - apply createInitialFactions_fit.
Qed.

Lemma execute_sound seedrandom command state :
  MapTabled state /\ HeroesFit state ->
  MapTabled (execute seedrandom command state)
  /\ HeroesFit (execute seedrandom command state).
Proof.
  intros [Hmap Hfit].
  destruct (decide (isInitGame command = true)) as [Hinit|Hinit].
  { destruct command; try discriminate Hinit. apply initGame_sound. }
  split.
  { pose proof (execute_map seedrandom command state) as Hframe.
    unfold MapTabled. destruct command; try done.
    all: apply mapFrame_fields in Hframe as (_ & _ & Htiles & _).
    all: by rewrite Htiles. }
  destruct command; cbn [execute]; try done.
  - by apply moveHero_fit.
  - by apply endTurn_fit.
  - unfold startCombat.
    repeat match goal with
           | |- context [match ?x with _ => _ end] => destruct x
           end; exact Hfit.
  - unfold HeroesFit. by rewrite (proj1 (combatStep_frame now action state)).
  - unfold HeroesFit. by rewrite (proj1 (runAutoBattle_frame env state)).
  - by apply endCombat_fit.
  - unfold enterTown. by destruct (find _ _).
  - by apply recruitUnit_fit.
  - unfold addResources. by apply updateFaction_heroes.
  - by apply spendResources_fit.
Qed.

(** X21 - in every state reached from [initGame] by commands of the store,
    every hero's movement points lie between 0 and the hero's maximum: no
    move costs more than the hero has, none gives points back, and the end
    of a turn refills them. *)
Theorem movement_points_stay_within
    (seedrandom : string -> nat -> Q) (now : Z) (config : PartialGameConfig.t)
    (commands : list Command.t) :
  HeroesFit
    (executeAll seedrandom commands
       (initGame seedrandom now config initialState)).
Proof.
  assert (H : forall state,
            MapTabled state /\ HeroesFit state ->
            MapTabled (executeAll seedrandom commands state)
            /\ HeroesFit (executeAll seedrandom commands state)).
  { induction commands as [|c commands IH]; intros state Hs; [done|].
    cbn [executeAll foldl]. apply IH. by apply execute_sound. }
  apply H, initGame_sound.
Qed.

(** *** Income *)

Lemma yieldOf_unowned nodes factionId kind :
  Forall (fun n => ResourceNode.isOwned n = false) nodes ->
  yieldOf nodes factionId kind = 0.
Proof.
  unfold yieldOf. induction 1 as [|n nodes Hn _ IH]; [done|].
  cbn [foldr]. by rewrite Hn.
Qed.

Lemma initGame_free seedrandom now config state :
  Forall (fun node =>
            ResourceNode.isOwned node = false
            /\ ResourceNode.ownedBy node = None)
         (WorldMap.resourceNodes
            (GameState.worldMap (initGame seedrandom now config state))).
Proof.
  unfold initGame. cbn [GameState.worldMap].
  match goal with
  | |- context [generateWorld seedrandom ?c] =>
      destruct (generateWorld_anatomy seedrandom c)
        as (tiles & towns & camps & nodes & encounters & Hworld);
      revert Hworld; generalize (generateWorld seedrandom c)
  end.
  intros world ((_ & -> & _) & _ & _ & _ & _ & (_ & _ & _ & Hnodes & _) & _).
  eapply Forall_impl; [exact Hnodes|].
  by intros node (_ & Howned & Hby & _).
Qed.

Lemma execute_free seedrandom command state :
  Forall (fun node =>
            ResourceNode.isOwned node = false
            /\ ResourceNode.ownedBy node = None)
         (WorldMap.resourceNodes (GameState.worldMap state)) ->
  Forall (fun node =>
            ResourceNode.isOwned node = false
            /\ ResourceNode.ownedBy node = None)
         (WorldMap.resourceNodes
            (GameState.worldMap (execute seedrandom command state))).
Proof.
  intros Hn.
  destruct (decide (isInitGame command = true)) as [Hinit|Hinit].
  { destruct command; try discriminate Hinit. apply initGame_free. }
  pose proof (execute_map seedrandom command state) as Hframe.
  destruct command; try done.
  all: apply mapFrame_fields in Hframe as (_ & _ & _ & Hnodes).
  all: by rewrite Hnodes.
Qed.

(** X22 - in every state reached from [initGame] by commands of the store
    no resource node has an owner: of every node [isOwned] is false and
    [ownedBy] is undefined.  So the nodes yield nothing to any faction, and
    [endTurn] leaves every faction's resources as they are. *)
Theorem endTurn_pays_nothing
    (seedrandom : string -> nat -> Q) (now : Z) (config : PartialGameConfig.t)
    (commands : list Command.t) :
  let state :=
    executeAll seedrandom commands
      (initGame seedrandom now config initialState) in
  Forall (fun node =>
            ResourceNode.isOwned node = false
            /\ ResourceNode.ownedBy node = None)
         (WorldMap.resourceNodes (GameState.worldMap state))
  /\ (forall factionId kind,
        yieldOf (WorldMap.resourceNodes (GameState.worldMap state))
          factionId kind
        = 0)
  /\ Faction.resources <$> GameState.factions (stateAfter (endTurn state))
     = Faction.resources <$> GameState.factions state.
Proof.
  assert (H : forall state,
            Forall (fun node =>
                      ResourceNode.isOwned node = false
                      /\ ResourceNode.ownedBy node = None)
                   (WorldMap.resourceNodes (GameState.worldMap state)) ->
            Forall (fun node =>
                      ResourceNode.isOwned node = false
                      /\ ResourceNode.ownedBy node = None)
                   (WorldMap.resourceNodes
                      (GameState.worldMap
                         (executeAll seedrandom commands state)))).
  { induction commands as [|c commands IH]; intros state Hs; [done|].
    cbn [executeAll foldl]. apply IH. by apply execute_free. }
  specialize (H _ (initGame_free seedrandom now config initialState)).
  cbn zeta. revert H.
  generalize (executeAll seedrandom commands
                (initGame seedrandom now config initialState)).
  intros state Hfree. split; [exact Hfree|].
  assert (Hn : NodesUnowned state).
  { eapply Forall_impl; [exact Hfree|]. by intros node [Howned _]. }
  split.
  { intros factionId kind. by apply yieldOf_unowned. }
  unfold endTurn.
  destruct (GameState.factions state !! nextIndex state) as [nextFaction|];
    [|done].
  cbn [stateAfter GameState.factions GameState.set_selectedHeroId
       GameState.set_currentFaction GameState.set_factions].
  rewrite fmap_alter_frame by done.
  destruct (bool_decide _); [|done].
  rewrite <- list_fmap_compose. apply list_fmap_ext.
  intros i f _. unfold compose. by rewrite (collect_unowned _ _ Hn).
Qed.

(** *** The start of a game *)

Lemma anatomy_start_towns unit config world tiles towns camps nodes encounters :
  Anatomy unit config world tiles towns camps nodes encounters ->
  find (isTownOf FactionId.player) (WorldMap.pointsOfInterest world)
  = townsOf world !! 0%nat
  /\ head (filter (fun poi => isTownOf FactionId.neutral poi = true)
             (WorldMap.pointsOfInterest world))
     = townsOf world !! 1%nat.
Proof.
  intros ((-> & _) & (-> & _) & _ & (_ & Ht & _ & Hfirst) & (_ & _ & Hc & _) & _
          & (_ & _ & _ & _ & He & _) & _).
  assert (Hrest : Forall (fun poi =>
            PointOfInterest.type poi <> PointOfInterestType.town)
            (camps ++ encounters)).
  { apply Forall_app. split.
    - eapply Forall_impl; [exact Hc|]. intros t (_ & -> & _). done.
    - eapply Forall_impl; [exact He|]. intros t (_ & -> & _). done. }
  assert (Hfind : forall f, find (isTownOf f) (camps ++ encounters) = None).
  { intros f. induction Hrest as [|poi l Hpoi _ IH]; [done|]. cbn.
    unfold isTownOf at 1. by rewrite bool_decide_eq_false_2. }
  assert (Hfilter : forall f,
            filter (fun poi => isTownOf f poi = true) (camps ++ encounters) = []).
  { intros f. apply filter_none. eapply Forall_impl; [exact Hrest|].
    intros poi Hpoi. unfold isTownOf. by rewrite bool_decide_eq_false_2. }
  assert (Htown : forall i t, towns !! i = Some t ->
            isTownOf FactionId.player t = bool_decide (i = 0%nat)
            /\ isTownOf FactionId.neutral t = negb (bool_decide (i = 0%nat))).
  { intros i t Hi. destruct (Hfirst i t Hi) as (_ & Hfaction & _).
    rewrite Forall_forall in Ht.
    destruct (Ht t ltac:(by eapply list_elem_of_lookup_2)) as [_ Hty].
    unfold isTownOf. rewrite Hty, Hfaction.
    by destruct (bool_decide (i = 0%nat)). }
  destruct towns as [|t0 ts].
  { cbn [app]. by rewrite Hfind, Hfilter. }
  destruct (Htown 0%nat t0 eq_refl) as [Hp Hn]. cbn in Hp, Hn.
  cbn [app find]. rewrite Hp. split; [done|].
  rewrite filter_cons_False by (by rewrite Hn).
  destruct ts as [|t1 ts].
  { cbn [app]. by rewrite Hfilter. }
  destruct (Htown 1%nat t1 eq_refl) as [_ Hn1]. cbn in Hn1.
  cbn [app]. by rewrite filter_cons_True.
Qed.

(** X23 - [initGame] starts a game of two factions, the player's and the
    enemy's, with one hero each; the player's hero is the selected one and
    [getHero] finds it.  The player's hero stands where the first town of
    the map is, the enemy's where the second is; without such a town they
    stand at (10, 10) and (50, 50), on the map or not.  A combat that was
    going on stays in the state. *)
Theorem initGame_sets_up
    (seedrandom : string -> nat -> Q) (now : Z) (config : PartialGameConfig.t)
    (state : GameState.t) :
  let after := initGame seedrandom now config state in
  let towns := townsOf (GameState.worldMap after) in
  exists playerHero enemyHero,
    GameState.factions after
    = [ Faction.mk FactionId.player "Kingdom of Light" "#4a90d9"
          (Resources.mk 1000 200 100 50) [playerHero]
          (from_option (fun t => [PointOfInterest.id t]) [] (towns !! 0%nat))
          false;
        Faction.mk FactionId.enemy_1 "Dark Legion" "#d94a4a"
          (Resources.mk 800 150 80 30) [enemyHero] [] true ]
    /\ GameState.selectedHeroId after = Some (Hero.id playerHero)
    /\ getHero after (Hero.id playerHero) = Some playerHero
    /\ Hero.factionId playerHero = FactionId.player
    /\ Hero.factionId enemyHero = FactionId.enemy_1
    /\ Hero.position playerHero
       = from_option PointOfInterest.position (Position.mk 10 10)
           (towns !! 0%nat)
    /\ Hero.position enemyHero
       = from_option PointOfInterest.position (Position.mk 50 50)
           (towns !! 1%nat)
    /\ (GameState.turn after, GameState.currentFaction after,
        GameState.gamePhase after, GameState.isGameOver after,
        GameState.winner after)
       = (1, FactionId.player, GamePhase.world_map, false, None)
    /\ GameState.combatState after = GameState.combatState state.
Proof.
  unfold initGame. cbn zeta.
  cbn [GameState.factions GameState.worldMap GameState.selectedHeroId
       GameState.turn GameState.currentFaction GameState.gamePhase
       GameState.isGameOver GameState.winner GameState.combatState].
  match goal with |- context [generateWorld ?s ?c] =>
    destruct (generateWorld_anatomy s c)
      as (tiles & towns & camps & nodes & encounters & Hworld);
    revert Hworld; generalize (generateWorld s c); intros world Hworld
  end.
  destruct (anatomy_start_towns _ _ _ _ _ _ _ _ Hworld) as [Hplayer Henemy].
  match goal with |- context [createInitialFactions world ?g] =>
    destruct (createInitialFactions_shape world g) as [g' ->];
    pose proof (createInitialHero_fields FactionId.player
                  (from_option PointOfInterest.position (Position.mk 10 10)
                     (find (isTownOf FactionId.player)
                        (WorldMap.pointsOfInterest world))) g)
      as (Hf1 & Hp1 & _);
    pose proof (createInitialHero_fields FactionId.enemy_1
                  (from_option PointOfInterest.position (Position.mk 50 50)
                     (head (filter (fun poi => isTownOf FactionId.neutral poi = true)
                              (WorldMap.pointsOfInterest world)))) g')
      as (Hf2 & Hp2 & _);
    revert Hf1 Hp1 Hf2 Hp2;
    generalize (fst (createInitialHero FactionId.player
                  (from_option PointOfInterest.position (Position.mk 10 10)
                     (find (isTownOf FactionId.player)
                        (WorldMap.pointsOfInterest world))) g));
    generalize (fst (createInitialHero FactionId.enemy_1
                  (from_option PointOfInterest.position (Position.mk 50 50)
                     (head (filter (fun poi => isTownOf FactionId.neutral poi = true)
                              (WorldMap.pointsOfInterest world)))) g'))
  end.
  intros enemyHero playerHero Hf1 Hp1 Hf2 Hp2.
  exists playerHero, enemyHero. split; [by rewrite Hplayer|].
  split; [done|]. split.
  { unfold getHero. cbn. by rewrite decide_True. }
  split; [exact Hf1|]. split; [exact Hf2|].
  split; [by rewrite Hp1, Hplayer|]. split; [by rewrite Hp2, Henemy|]. done.
Qed.

(** *** The movement range *)

Lemma moved_iff pos origin :
  negb (Position.x pos =? Position.x origin)
  || negb (Position.y pos =? Position.y origin) = true
  <-> pos <> origin.
Proof.
  destruct pos as [px py], origin as [ox oy]. cbn.
  destruct (Z.eqb_spec px ox), (Z.eqb_spec py oy); cbn; split;
    try done; try congruence.
Qed.

Lemma searchLoop_progress state hero fuel :
  forall queue visited reachable result,
    SearchProgress hero queue visited reachable ->
    searchLoop fuel state hero queue visited reachable = Some result ->
    NoDup result
    /\ (forall r, r ∈ reachable -> r ∈ result)
    /\ (forall q c, (q, c) ∈ queue -> q <> Hero.position hero -> q ∈ result).
Proof.
  induction fuel as [|fuel IH];
    intros queue visited reachable result (Hnd & Hsub & Hcost & Hvis).
  { destruct queue as [|[pos cost] queue]; cbn; [|done].
    intros [= <-]. split; [done|]. split; [done|]. by intros q c ?%elem_of_nil. }
  destruct queue as [|[pos cost] queue]; cbn [searchLoop].
  { intros [= <-]. split; [done|]. split; [done|]. by intros q c ?%elem_of_nil. }
  assert (Hrest : forall q c, (q, c) ∈ queue ->
                    (c <= Hero.movementPoints hero)%Q).
  { intros q c Hin. apply (Hcost q). by apply elem_of_cons; right. }
  destruct (bool_decide (pos ∈ visited)) eqn:Hseen.
  { apply bool_decide_eq_true in Hseen. intros Hresult.
    destruct (IH queue visited reachable result ltac:(by repeat split) Hresult)
      as (Hnd' & Hreach & Hqueue).
    split; [done|]. split; [done|].
    intros q c [[= -> ->]|Hin]%elem_of_cons Hne; [|by eapply Hqueue].
    by apply Hreach, Hvis. }
  apply bool_decide_eq_false in Hseen.
  assert (Hle : Qleb cost (Hero.movementPoints hero) = true).
  { apply Qleb_le, (Hcost pos). by apply elem_of_cons; left. }
  rewrite Hle. intros Hresult.
  apply IH in Hresult as (Hnd' & Hreach & Hqueue).
  - split; [done|]. split.
    { intros r Hr. apply Hreach.
      destruct (_ || _); [|done]. by apply elem_of_app; left. }
    intros q c [[= -> ->]|Hin]%elem_of_cons Hne.
    + apply Hreach. rewrite (proj2 (moved_iff _ _) Hne).
      apply elem_of_app; right. by apply list_elem_of_singleton.
    + apply (Hqueue q c); [|done]. by apply elem_of_app; left.
  - split.
    { destruct (_ || _); [|done]. apply NoDup_app. split; [done|].
      split; [|apply NoDup_singleton].
      intros r Hr ->%list_elem_of_singleton. by apply Hseen, Hsub. }
    split.
    { intros r Hr. destruct (_ || _).
      - apply elem_of_app in Hr as [Hr| ->%list_elem_of_singleton].
        + apply elem_of_cons; right. by apply Hsub.
        + by apply elem_of_cons; left.
      - apply elem_of_cons; right. by apply Hsub. }
    split.
    { intros q c [Hin|Hin]%elem_of_app; [by eapply Hrest|].
      apply list_elem_of_In, in_flat_map in Hin as (neighbor & _ & Hin).
      apply list_elem_of_In in Hin.
      by apply enqueue_spec in Hin as (_ & ? & _). }
    intros v [->|Hv]%elem_of_cons Hne.
    + rewrite (proj2 (moved_iff _ _) Hne).
      apply elem_of_app; right. by apply list_elem_of_singleton.
    + destruct (_ || _); [apply elem_of_app; left|]; by apply Hvis.
Qed.

Lemma searchFuel_positive state : exists fuel, searchFuel state = S fuel.
Proof.
  unfold searchFuel.
  exists (5 * (Z.to_nat (WorldMap.width (GameState.worldMap state))
               * Z.to_nat (WorldMap.height (GameState.worldMap state)) + 1)
          + 1)%nat.
  lia.
Qed.

(** The search after its first round: the hero's position is visited and
    the neighbours the hero can afford are queued. *)
Lemma getMovementRange_first_round state heroId hero :
  getHero state heroId = Some hero ->
  exists fuel,
    (if Qleb 0 (Hero.movementPoints hero)
     then searchLoop fuel state hero
            (flat_map (enqueue state (Hero.movementPoints hero) 0)
               (neighbors (Hero.position hero)))
            [Hero.position hero] []
     else Some [])
    = Some (getMovementRange state heroId).
Proof.
  intros Hhero.
  pose proof (getMovementRange_searchLoop state heroId hero Hhero) as Hsearch.
  destruct (searchFuel_positive state) as [fuel Hfuel]. rewrite Hfuel in Hsearch.
  cbn [searchLoop] in Hsearch.
  rewrite bool_decide_eq_false_2 in Hsearch by apply not_elem_of_nil.
  rewrite !Z.eqb_refl in Hsearch. cbn [negb orb app] in Hsearch.
  destruct (Qleb 0 (Hero.movementPoints hero)); [by exists fuel|].
  exists fuel. by destruct fuel.
Qed.

Lemma first_round_progress state hero :
  SearchProgress hero
    (flat_map (enqueue state (Hero.movementPoints hero) 0)
       (neighbors (Hero.position hero)))
    [Hero.position hero] [].
Proof.
  split; [apply NoDup_nil_2|]. split; [by intros r ?%elem_of_nil|]. split.
  - intros q c Hin.
    apply list_elem_of_In, in_flat_map in Hin as (neighbor & _ & Hin).
    apply list_elem_of_In in Hin.
    by apply enqueue_spec in Hin as (_ & ? & _).
  - by intros v ->%list_elem_of_singleton Hne.
Qed.

(** X24 - [getMovementRange] lists no position twice. *)
Theorem movement_range_has_no_duplicates
    (state : GameState.t) (heroId : string) :
  NoDup (getMovementRange state heroId).
Proof.
  destruct (getHero state heroId) as [hero|] eqn:Hhero.
  2:{ unfold getMovementRange. rewrite Hhero. apply NoDup_nil_2. }
  destruct (getMovementRange_first_round state heroId hero Hhero)
    as [fuel Hsearch].
  destruct (Qleb 0 (Hero.movementPoints hero)).
  - apply searchLoop_progress in Hsearch as [Hnd _]; [done|].
    apply first_round_progress.
  - injection Hsearch as <-. apply NoDup_nil_2.
Qed.

Lemma canMoveTo_elem_of state heroId position :
  canMoveTo state heroId position = true
  <-> position ∈ getMovementRange state heroId.
Proof.
  unfold canMoveTo. rewrite existsb_exists. split.
  - intros (p & Hp%list_elem_of_In & Heq).
    apply andb_true_iff in Heq as [Hx%Z.eqb_eq Hy%Z.eqb_eq].
    destruct p, position. cbn in *. by subst.
  - intros Hp. exists position. split; [by apply list_elem_of_In|].
    by rewrite !Z.eqb_refl.
Qed.

Lemma neighbors_differ pos q : q ∈ neighbors pos -> q <> pos.
Proof.
  intros Hq%neighbors_adjacent ->. unfold manhattanDistance in Hq. lia.
Qed.

(** A neighbour of the hero's tile that the hero can afford is in range. *)
Lemma neighbor_in_range state heroId hero target tile cost :
  getHero state heroId = Some hero ->
  target ∈ neighbors (Hero.position hero) ->
  getTileAt state target = Some tile ->
  Tile.isPassable tile = true ->
  Tile.movementCost tile = Cost.Finite cost ->
  (0 <= Hero.movementPoints hero)%Q ->
  (cost <= Hero.movementPoints hero)%Q ->
  target ∈ getMovementRange state heroId.
Proof.
  intros Hhero Hnear Htile Hpass Hcost Hmp Hle.
  destruct (getMovementRange_first_round state heroId hero Hhero)
    as [fuel Hsearch].
  rewrite (proj2 (Qleb_le _ _) Hmp) in Hsearch.
  apply searchLoop_progress in Hsearch as (_ & _ & Hqueue);
    [|apply first_round_progress].
  apply (Hqueue target (0 + cost)%Q); [|by apply neighbors_differ].
  apply list_elem_of_In, in_flat_map. exists target.
  split; [by apply list_elem_of_In|]. apply list_elem_of_In.
  unfold enqueue. rewrite Htile, Hpass, Hcost.
  assert (Hfits : Qleb (0 + cost) (Hero.movementPoints hero) = true)
    by (apply Qleb_le; lra).
  rewrite Hfits. by apply list_elem_of_singleton.
Qed.

(** X25 - a hero whose movement points are not negative can move to every
    4-neighbour of its tile that is on the map, passable and costs no more
    than the hero's points: [getMovementRange] lists it and [canMoveTo]
    says yes. *)
Theorem adjacent_tile_is_in_range
    (state : GameState.t) (heroId : string) (hero : Hero.t)
    (target : Position.t) (tile : Tile.t) (cost : Q) :
  getHero state heroId = Some hero ->
  target ∈ neighbors (Hero.position hero) ->
  getTileAt state target = Some tile ->
  Tile.isPassable tile = true ->
  Tile.movementCost tile = Cost.Finite cost ->
  (0 <= Hero.movementPoints hero)%Q ->
  (cost <= Hero.movementPoints hero)%Q ->
  target ∈ getMovementRange state heroId
  /\ canMoveTo state heroId target = true.
Proof.
  intros Hhero Hnear Htile Hpass Hcost Hmp Hle.
  assert (Hin : target ∈ getMovementRange state heroId)
    by by eapply neighbor_in_range.
  split; [exact Hin|]. by apply canMoveTo_elem_of.
Qed.

(** In [demoState] the hero at (0, 0) has two points; the road tile at
    (1, 0) costs one half. *)
Lemma adjacent_tile_is_in_range_witness :
  Position.mk 1 0 ∈ getMovementRange demoState "hero_a"
  /\ canMoveTo demoState "hero_a" (Position.mk 1 0) = true.
Proof.
  apply (adjacent_tile_is_in_range demoState "hero_a" demoHero
           (Position.mk 1 0) (demoTile 1 0 TerrainType.road None) (1 # 2)).
  - reflexivity.
  - apply elem_of_cons; left; reflexivity.
  - reflexivity.
  - reflexivity.
  - reflexivity.
  - cbn. discriminate.
  - cbn. discriminate.
Defined.

(** *** A step of a hero *)

Lemma list_find_alter {A} (P : A -> Prop) `{!forall x, Decision (P x)}
    (f : A -> A) (l : list A) (i : nat) (x : A) :
  (forall y, P (f y) <-> P y) ->
  list_find P l = Some (i, x) ->
  list_find P (alter f i l) = Some (i, f x).
Proof.
  intros Hf (Hi & Hx & Hbefore)%list_find_Some. apply list_find_Some.
  split; [by rewrite list_lookup_alter_eq, Hi|]. split; [by apply Hf|].
  intros j y Hj Hlt. rewrite list_lookup_alter_ne in Hj by lia.
  by apply (Hbefore j).
Qed.

Lemma heroPath_Some heroId factions fi hi hero :
  heroPath heroId factions = Some (fi, hi, hero) ->
  exists faction,
    factions !! fi = Some faction
    /\ list_find (fun h => Hero.id h = heroId) (Faction.heroes faction)
       = Some (hi, hero).
Proof.
  revert fi. induction factions as [|f rest IH]; intros fi; [done|].
  cbn [heroPath].
  destruct (list_find _ (Faction.heroes f)) as [[hi' h']|] eqn:Hf.
  - intros [= <- <- <-]. by exists f.
  - destruct (heroPath heroId rest) as [[[fi' hi'] h']|]; [|done].
    intros [= <- <- <-]. by apply IH.
Qed.

Lemma heroPath_updateHero heroId f factions fi hi hero :
  (forall h, Hero.id (f h) = Hero.id h) ->
  heroPath heroId factions = Some (fi, hi, hero) ->
  heroPath heroId (updateHero fi hi f factions) = Some (fi, hi, f hero).
Proof.
  intros Hid. revert fi. induction factions as [|g rest IH]; intros fi; [done|].
  cbn [heroPath].
  destruct (list_find _ (Faction.heroes g)) as [[hi' h']|] eqn:Hg.
  - intros [= <- -> ->]. unfold updateHero. cbn [alter list_alter heroPath].
    cbn [Faction.heroes Faction.set_heroes].
    erewrite list_find_alter; [done| |exact Hg].
    intros y. cbn. by rewrite Hid.
  - destruct (heroPath heroId rest) as [[[fi' hi'] h']|] eqn:Hrest; [|done].
    intros [= <- -> ->]. unfold updateHero. cbn [alter list_alter heroPath].
    rewrite Hg. fold (updateHero fi' hi f rest). by rewrite (IH fi').
Qed.

Lemma roster_faction state heroId fi hi hero faction :
  RosterOK state ->
  GameState.factions state !! fi = Some faction ->
  list_find (fun h => Hero.id h = heroId) (Faction.heroes faction)
  = Some (hi, hero) ->
  list_find (fun f => Faction.id f = Hero.factionId hero)
    (GameState.factions state) = Some (fi, faction).
Proof.
  intros [Hnd Hfit] Hfi Hh. apply list_find_Some.
  rewrite Forall_lookup in Hfit. specialize (Hfit fi faction Hfi).
  apply list_find_Some in Hh as (Hh & _). rewrite Forall_lookup in Hfit.
  specialize (Hfit hi hero Hh). cbn in Hfit.
  split; [done|]. split; [done|].
  intros j g Hj Hlt Heq. rewrite NoDup_alt in Hnd.
  assert (j = fi); [|lia].
  apply (Hnd j fi (Faction.id g)).
  - by rewrite list_lookup_fmap, Hj.
  - rewrite list_lookup_fmap, Hfi. cbn. congruence.
Qed.

(** X26 - a step onto a free neighbouring tile.  In a state whose factions
    have distinct ids and list their own heroes, a hero with points that
    are not negative moves onto a 4-neighbour of its tile that is on the
    map, passable, holds no point of interest and costs no more than the
    hero has: [moveHero] returns [true]; the hero [getHero] then finds
    stands on the tile, has its points down by the tile's cost and is
    otherwise the hero it was; no field of the state but the factions has
    changed, and no faction's resources have. *)
Theorem moveHero_steps
    (state : GameState.t) (heroId : string) (hero : Hero.t)
    (target : Position.t) (tile : Tile.t) (cost : Q) :
  RosterOK state ->
  getHero state heroId = Some hero ->
  target ∈ neighbors (Hero.position hero) ->
  getTileAt state target = Some tile ->
  Tile.isPassable tile = true ->
  Tile.movementCost tile = Cost.Finite cost ->
  Tile.pointOfInterest tile = None ->
  (0 <= Hero.movementPoints hero)%Q ->
  (cost <= Hero.movementPoints hero)%Q ->
  exists after moved,
    moveHero heroId target state = Returns true after
    /\ getHero after heroId = Some moved
    /\ Hero.position moved = target
    /\ Hero.movementPoints moved = (Hero.movementPoints hero - cost)%Q
    /\ (Hero.id moved, Hero.name moved, Hero.level moved,
        Hero.experience moved, Hero.experienceToNext moved,
        Hero.maxMovementPoints moved, Hero.crew moved, Hero.bonuses moved,
        Hero.factionId moved)
       = (Hero.id hero, Hero.name hero, Hero.level hero,
          Hero.experience hero, Hero.experienceToNext hero,
          Hero.maxMovementPoints hero, Hero.crew hero, Hero.bonuses hero,
          Hero.factionId hero)
    /\ (GameState.turn after, GameState.currentFaction after,
        GameState.worldMap after, GameState.combatState after,
        GameState.selectedHeroId after, GameState.gamePhase after,
        GameState.victoryCondition after, GameState.isGameOver after,
        GameState.winner after)
       = (GameState.turn state, GameState.currentFaction state,
          GameState.worldMap state, GameState.combatState state,
          GameState.selectedHeroId state, GameState.gamePhase state,
          GameState.victoryCondition state, GameState.isGameOver state,
          GameState.winner state)
    /\ Faction.resources <$> GameState.factions after
       = Faction.resources <$> GameState.factions state.
Proof.
  intros Hroster Hhero Hnear Htile Hpass Hcost Hfree Hmp Hle.
  pose proof (neighbor_in_range _ _ _ _ _ _ Hhero Hnear Htile Hpass Hcost Hmp Hle)
    as Hrange%canMoveTo_elem_of.
  pose proof Hhero as Hpath. rewrite getHero_heroPath in Hpath.
  destruct (heroPath heroId (GameState.factions state)) as [[[fi hi] hero']|]
    eqn:Epath; [|done].
  injection Hpath as ->.
  destruct (heroPath_Some _ _ _ _ _ Epath) as (faction & Hfi & Hfind).
  pose proof (roster_faction _ _ _ _ _ _ Hroster Hfi Hfind) as Hfaction.
  unfold moveHero. rewrite Hhero, Hrange, Htile. cbn [negb].
  rewrite Hfaction. cbn [mbind option_bind]. rewrite Hfind.
  cbn [mbind option_bind]. rewrite Hcost. cbn [affordsMove payMove].
  rewrite (proj2 (Qleb_le _ _) Hle), Hfree.
  eexists _, _. split; [reflexivity|]. split.
  { rewrite getHero_heroPath. cbn [GameState.factions GameState.set_factions].
    erewrite heroPath_updateHero; [done|done|exact Epath]. }
  do 4 (split; [reflexivity|]).
  cbn [GameState.factions GameState.set_factions]. unfold updateHero.
  by apply fmap_alter_frame.
Qed.

Lemma demoState_roster : RosterOK demoState.
Proof.
  split.
  - cbn. apply NoDup_cons. split.
    + by intros [?|[]%elem_of_nil]%elem_of_cons.
    + apply NoDup_singleton.
  - by repeat constructor.
Qed.

(** In [demoState] the hero at (0, 0), with 2 points, steps onto the road
    tile at (1, 0), which costs half a point. *)
Lemma moveHero_steps_witness :
  exists after moved,
    moveHero "hero_a" (Position.mk 1 0) demoState = Returns true after
    /\ getHero after "hero_a" = Some moved
    /\ Hero.position moved = Position.mk 1 0
    /\ Hero.movementPoints moved = (2 - (1 # 2))%Q
    /\ Hero.crew moved = Hero.crew demoHero.
Proof.
  destruct (moveHero_steps demoState "hero_a" demoHero (Position.mk 1 0)
              (demoTile 1 0 TerrainType.road None) (1 # 2))
    as (after & moved & Hmove & Hhero & Hposition & Hpoints & Hsame & _).
  - apply demoState_roster.
  - reflexivity.
  - apply elem_of_cons; left; reflexivity.
  - reflexivity.
  - reflexivity.
  - reflexivity.
  - reflexivity.
  - cbn. discriminate.
  - cbn. discriminate.
  - exists after, moved. repeat split; try assumption. congruence.
Defined.

(** *** The turn order of a battle *)

Lemma Qleb_false a b : Qleb a b = false -> (b < a)%Q.
Proof.
  intros Hf. destruct (Qlt_le_dec b a) as [?|Hle]; [done|].
  apply Qleb_le in Hle. congruence.
Qed.

Lemma insertBySpeed_Permutation u sorted :
  insertBySpeed u sorted ≡ₚ u :: sorted.
Proof.
  induction sorted as [|v rest IH]; [done|]. cbn [insertBySpeed].
  destruct (Qleb _ _); [done|]. rewrite IH. apply Permutation_swap.
Qed.

Lemma sortBySpeed_Permutation units : sortBySpeed units ≡ₚ units.
Proof.
  induction units as [|u rest IH]; [done|]. unfold sortBySpeed in *.
  cbn [foldr]. by rewrite insertBySpeed_Permutation, IH.
Qed.

Lemma insertBySpeed_sorted u sorted :
  StronglySorted fasterFirst sorted ->
  StronglySorted fasterFirst (insertBySpeed u sorted).
Proof.
  induction 1 as [|v rest Hrest IH Hv]; cbn [insertBySpeed].
  - constructor; [constructor|]. apply Forall_nil_2.
  - destruct (Qleb _ _) eqn:Hcmp.
    + apply Qleb_le in Hcmp. constructor; [by constructor|].
      apply Forall_cons. split; [exact Hcmp|].
      eapply Forall_impl; [exact Hv|]. intros w Hw. unfold fasterFirst in *.
      exact (Qle_trans _ _ _ Hw Hcmp).
    + apply Qleb_false in Hcmp. constructor; [exact IH|].
      rewrite insertBySpeed_Permutation. apply Forall_cons. split; [|exact Hv].
      unfold fasterFirst. by apply Qlt_le_weak.
Qed.

Lemma sortBySpeed_sorted units : StronglySorted fasterFirst (sortBySpeed units).
Proof.
  induction units as [|u rest IH]; [constructor|].
  by apply insertBySpeed_sorted.
Qed.

Lemma insertBySpeed_ofSpeed s u sorted :
  ofSpeed s (insertBySpeed u sorted) = ofSpeed s (u :: sorted).
Proof.
  induction sorted as [|v rest IH]; [done|]. cbn [insertBySpeed].
  destruct (Qleb _ _) eqn:Hcmp; [done|]. apply Qleb_false in Hcmp.
  unfold ofSpeed in *. cbn [List.filter] in *. rewrite IH.
  destruct (Qeq_bool (UnitStats.speed (CombatUnit.stats u)) s) eqn:Hu; [|done].
  destruct (Qeq_bool (UnitStats.speed (CombatUnit.stats v)) s) eqn:Hv; [|done].
  apply Qeq_bool_iff in Hu, Hv. rewrite Hu, Hv in Hcmp.
  by apply Qlt_irrefl in Hcmp.
Qed.

Lemma sortBySpeed_ofSpeed s units :
  ofSpeed s (sortBySpeed units) = ofSpeed s units.
Proof.
  induction units as [|u rest IH]; [done|]. unfold sortBySpeed in *.
  cbn [foldr]. rewrite insertBySpeed_ofSpeed. unfold ofSpeed in *.
  cbn [List.filter]. by rewrite IH.
Qed.

Lemma toCombatUnits_units column units :
  CombatUnit.unit <$> toCombatUnits column units = units.
Proof.
  unfold toCombatUnits. apply list_eq. intros i.
  rewrite list_lookup_fmap, list_lookup_imap.
  by destruct (units !! i).
Qed.

(** X27 - [startCombat] with an attacker the state knows and, where the
    defender is named by a hero id, a defender it knows, opens a battle:
    the two rosters are the attacker's crew and the defender's crew or
    garrison, unit by unit; the turn order holds the units of both rosters,
    each once, the faster before the slower, units of equal speed in roster
    order with the attackers first. *)
Theorem startCombat_turn_order
    (state : GameState.t) (attackerId : string) (attacker : Hero.t)
    (defenderId : string + PointOfInterest.t) :
  getHero state attackerId = Some attacker ->
  match defenderId with
  | inl heroId => is_Some (getHero state heroId)
  | inr _ => True
  end ->
  exists combat,
    GameState.combatState (startCombat attackerId defenderId state)
    = Some combat
    /\ GameState.gamePhase (startCombat attackerId defenderId state)
       = GamePhase.combat
    /\ CombatUnit.unit <$> CombatState.attackerUnits combat
       = Hero.crew attacker
    /\ CombatUnit.unit <$> CombatState.defenderUnits combat
       = match defenderId with
         | inl heroId => from_option Hero.crew [] (getHero state heroId)
         | inr poi => default [] (PointOfInterest.garrison poi)
         end
    /\ CombatState.turnOrder combat
       ≡ₚ CombatState.attackerUnits combat ++ CombatState.defenderUnits combat
    /\ StronglySorted fasterFirst (CombatState.turnOrder combat)
    /\ forall s,
         ofSpeed s (CombatState.turnOrder combat)
         = ofSpeed s (CombatState.attackerUnits combat
                      ++ CombatState.defenderUnits combat).
Proof.
  intros Hattacker Hdefender. unfold startCombat. rewrite Hattacker.
  destruct defenderId as [heroId|poi].
  - destruct Hdefender as [defender Hd]. rewrite Hd. cbn.
    eexists. split; [reflexivity|]. cbn.
    rewrite !toCombatUnits_units.
    repeat split; auto using sortBySpeed_Permutation, sortBySpeed_sorted.
    intros s. apply (sortBySpeed_ofSpeed s).
  - cbn. eexists. split; [reflexivity|]. cbn.
    rewrite !toCombatUnits_units.
    repeat split; auto using sortBySpeed_Permutation, sortBySpeed_sorted.
    intros s. apply (sortBySpeed_ofSpeed s).
Qed.

(** The battle of the two heroes of [demoState]: the cavalry and the
    archers of the defender act before the warriors and the mages of the
    attacker. *)
Lemma startCombat_turn_order_witness :
  exists combat,
    GameState.combatState demoBattle = Some combat
    /\ CombatUnit.id <$> CombatState.turnOrder combat = ["unit_c"; "unit_a"; "unit_w"; "unit_m"]
    /\ StronglySorted fasterFirst (CombatState.turnOrder combat).
Proof.
  destruct (startCombat_turn_order demoState "hero_a" demoHero (inl "hero_b"))
    as (combat & Hcombat & _ & _ & _ & _ & Hsorted & _).
  - reflexivity.
  - by eexists.
  - exists combat. split; [exact Hcombat|]. split; [|exact Hsorted].
    unfold demoBattle in *. vm_compute in Hcombat.
    injection Hcombat as <-. reflexivity.
Defined.

(** *** The end of a battle *)

Lemma heroPath_alter heroId (f : Faction.t -> Faction.t) factions i :
  (forall g, Faction.heroes (f g) = Faction.heroes g) ->
  heroPath heroId (alter f i factions) = heroPath heroId factions.
Proof.
  intros Hf. revert i. induction factions as [|g rest IH]; intros [|i]; [done..| |].
  - cbn [alter list_alter heroPath]. by rewrite Hf.
  - cbn [alter list_alter heroPath]. fold (alter f i rest). by rewrite IH.
Qed.

Lemma gainExperience_id gained hero :
  Hero.id (gainExperience gained hero) = Hero.id hero.
Proof. unfold gainExperience. by destruct (_ >=? _). Qed.

(** X28 - [endCombat] in a battle closes it: the combat state is gone, the
    phase is the world map and the map is as before.  Unless the attacker
    has won, the factions are as before too.  If the attacker has won and
    is still a hero of the state, whose factions have distinct ids and list
    their own heroes, then the crew of the hero becomes the attacking units
    left in the battle and the hero gains the experience of the result:
    where none of the numbers is rounded, a hero whose experience reaches
    [experienceToNext] goes up a level, keeps the experience beyond it,
    needs [floor (1.5 * experienceToNext)] for the next and gets one more
    of attack and of defense bonus, and any other hero only adds the
    experience.  The faction of the hero gets the loot of the result. *)
Theorem endCombat_settles
    (state : GameState.t) (result : CombatResult.t) (combat : CombatState.t) :
  GameState.combatState state = Some combat ->
  let after := endCombat result state in
  let heroId := Hero.id (CombatState.attacker combat) in
  let looted := CombatResult.resourcesLooted result in
  let gained := CombatResult.experienceGained result in
  GameState.combatState after = None
  /\ GameState.gamePhase after = GamePhase.world_map
  /\ GameState.worldMap after = GameState.worldMap state
  /\ (CombatResult.winner result <> Side.attacker ->
      GameState.factions after = GameState.factions state)
  /\ (CombatResult.winner result = Side.attacker ->
      RosterOK state ->
      forall hero, getHero state heroId = Some hero ->
        (exists settled,
           getHero after heroId = Some settled
           /\ Hero.crew settled
              = map CombatUnit.unit (CombatState.attackerUnits combat)
           /\ (Hero.id settled, Hero.name settled, Hero.position settled,
               Hero.movementPoints settled, Hero.maxMovementPoints settled,
               Hero.factionId settled)
              = (Hero.id hero, Hero.name hero, Hero.position hero,
                 Hero.movementPoints hero, Hero.maxMovementPoints hero,
                 Hero.factionId hero)
           /\ (ExperienceExact gained hero ->
               let experience := Hero.experience hero + gained in
               let next := Hero.experienceToNext hero in
               (next <= experience ->
                  Hero.level settled = Hero.level hero + 1
                  /\ Hero.experience settled = experience - next
                  /\ Hero.experienceToNext settled = 3 * next / 2
                  /\ Hero.bonuses settled
                     = HeroBonuses.mk
                         (HeroBonuses.attackBonus (Hero.bonuses hero) + 1)
                         (HeroBonuses.defenseBonus (Hero.bonuses hero) + 1)
                         (HeroBonuses.movementBonus (Hero.bonuses hero))
                         (HeroBonuses.moraleBonus (Hero.bonuses hero)))
               /\ (experience < next ->
                     Hero.level settled = Hero.level hero
                     /\ Hero.experience settled = experience
                     /\ Hero.experienceToNext settled = next
                     /\ Hero.bonuses settled = Hero.bonuses hero)))
        /\ exists faction,
             getFaction state (Hero.factionId hero) = Some faction
             /\ (SumsExact looted (Faction.resources faction) ->
                 Faction.resources
                 <$> getFaction after (Hero.factionId hero)
                 = Some (Resources.mk
                           (Resources.gold (Faction.resources faction)
                            + Resources.gold looted)
                           (Resources.wood (Faction.resources faction)
                            + Resources.wood looted)
                           (Resources.stone (Faction.resources faction)
                            + Resources.stone looted)
                           (Resources.crystals (Faction.resources faction)
                            + Resources.crystals looted)))).
Proof.
  intros Hcombat after heroId looted gained. subst after. unfold endCombat.
  rewrite Hcombat. fold heroId. cbn [GameState.combatState GameState.gamePhase
    GameState.worldMap GameState.factions GameState.set_gamePhase
    GameState.set_combatState GameState.set_factions].
  do 3 (split; [reflexivity|]). split.
  { intros Hwinner. destruct (heroPath heroId _) as [[[fi hi] attacker]|]; [|done].
    by rewrite bool_decide_eq_false_2. }
  intros Hwinner Hroster hero Hhero.
  rewrite getHero_heroPath in Hhero.
  destruct (heroPath heroId (GameState.factions state))
    as [[[fi hi] attacker]|] eqn:Epath; [|done].
  injection Hhero as ->.
  destruct (heroPath_Some _ _ _ _ _ Epath) as (faction & Hfi & Hfind).
  pose proof (roster_faction _ _ _ _ _ _ Hroster Hfi Hfind) as Hfaction.
  rewrite (bool_decide_eq_true_2 _ Hwinner).
  fold gained.
  set (gain := gainExperience gained).
  set (crew := map CombatUnit.unit (CombatState.attackerUnits combat)).
  assert (Hfind1 :
    list_find (fun f => Faction.id f = Hero.factionId hero)
      (updateHero fi hi gain (GameState.factions state))
    = Some (fi, Faction.set_heroes (alter gain hi (Faction.heroes faction))
                  faction)).
  { unfold updateHero.
    apply (list_find_alter (fun f => Faction.id f = Hero.factionId hero)
             (fun f => Faction.set_heroes
                         (alter gain hi (Faction.heroes f)) f));
      [done|exact Hfaction]. }
  split.
  - exists (Hero.set_crew crew (gain hero)). split.
    { unfold updateFaction. rewrite Hfind1. rewrite getHero_heroPath.
      cbn [GameState.factions GameState.set_factions GameState.set_gamePhase
           GameState.set_combatState].
      erewrite heroPath_updateHero; [done|done|].
      rewrite heroPath_alter by done.
      apply heroPath_updateHero; [|exact Epath].
      intros h. apply gainExperience_id. }
    split; [reflexivity|]. subst gain. unfold gainExperience. split.
    { by destruct (_ >=? _). }
    intros (Hsum & Hrest & Hnext & Hlevel & Hattack & Hdefense).
    cbv zeta. unfold floorTimesOneAndAHalf.
    rewrite (add_exact _ _ Hsum), (sub_exact _ _ Hrest),
      (round_exact _ Hnext), (add_exact _ _ Hlevel),
      (add_exact _ _ Hattack), (add_exact _ _ Hdefense).
    split; intros Hcmp.
    + by rewrite (proj2 (Z.geb_le _ _) Hcmp).
    + destruct (Z.geb_spec (Hero.experience hero + gained)
                  (Hero.experienceToNext hero)) as [Hge|_]; [lia|done].
  - exists faction. split; [unfold getFaction; by rewrite Hfaction|].
    intros Hexact. unfold getFaction.
    cbn [GameState.factions GameState.set_factions GameState.set_gamePhase
         GameState.set_combatState].
    unfold updateFaction. rewrite Hfind1. unfold updateHero at 1.
    erewrite list_find_alter; [|done|].
    2:{ erewrite list_find_alter; [reflexivity|done|exact Hfind1]. }
    cbn [fmap option_fmap option_map snd]. unfold loot.
    cbn [Faction.resources Faction.set_resources Faction.set_heroes].
    pose proof (Hexact ResourceType.gold) as Hgold.
    pose proof (Hexact ResourceType.wood) as Hwood.
    pose proof (Hexact ResourceType.stone) as Hstone.
    pose proof (Hexact ResourceType.crystals) as Hcrystals.
    cbn [Resources.get] in Hgold, Hwood, Hstone, Hcrystals.
    fold looted.
    by rewrite (add_exact _ _ Hgold), (add_exact _ _ Hwood),
      (add_exact _ _ Hstone), (add_exact _ _ Hcrystals).
Qed.

(** The attacker of [demoBattle] wins 120 experience and 100 gold: its
    hero, of level 1 with 100 to gain, is of level 2 with 20 of 150 and a
    bonus of 1 on attack and defense, and leads the units of the battle;
    its faction, which had 100 gold, has 200. *)
Lemma endCombat_settles_witness :
  let result :=
    CombatResult.mk Side.attacker [] [] 120 (Resources.mk 100 20 10 5) in
  GameState.combatState (endCombat result demoBattle) = None
  /\ GameState.gamePhase (endCombat result demoBattle) = GamePhase.world_map
  /\ (exists settled,
        getHero (endCombat result demoBattle) "hero_a" = Some settled
        /\ Hero.level settled = 2
        /\ Hero.experience settled = 20
        /\ Hero.experienceToNext settled = 150
        /\ Hero.bonuses settled = HeroBonuses.mk 1 1 0 0
        /\ Unit.id <$> Hero.crew settled = ["unit_w"; "unit_m"])
  /\ Faction.resources
     <$> getFaction (endCombat result demoBattle) FactionId.player
     = Some (Resources.mk 200 220 110 55).
Proof.
  intros result.
  destruct (endCombat_settles demoBattle result
              (default (CombatState.mk true demoHero (inl demoEnemy) [] []
                          Side.attacker 0 [] [] 8 6)
                 (GameState.combatState demoBattle)))
    as (Hnone & Hphase & _ & _ & Hwon).
  - reflexivity.
  - destruct (Hwon eq_refl demoState_roster demoHero eq_refl)
      as ((settled & Hhero & Hcrew & _ & Hgain) & faction & Hbefore & Hafter).
    split; [exact Hnone|]. split; [exact Hphase|]. split.
    + exists settled. split; [exact Hhero|].
      destruct Hgain as [Hup _]; [repeat split; by vm_compute|].
      destruct Hup as (Hlevel & Hexperience & Hnext & Hbonuses);
        [by vm_compute|].
      repeat split; try assumption. by rewrite Hcrew.
    + injection Hbefore as <-. apply Hafter.
      intros []; by vm_compute.
Defined.

(** *** Recruiting *)

Lemma alter_insert {A} (f : A -> A) (l : list A) (i : nat) (x : A) :
  l !! i = Some x -> alter f i l = <[i := f x]> l.
Proof.
  revert i. induction l as [|y l IH]; intros [|i] Hi; try done.
  - by injection Hi as ->.
  - cbn [alter list_alter]. fold (alter f i l). cbn. f_equal. by apply IH.
Qed.

Lemma find_list_find {A} (P : A -> Prop) `{!forall x, Decision (P x)}
    (l : list A) (i : nat) (x : A) :
  list_find P l = Some (i, x) ->
  find (fun y => bool_decide (P y)) l = Some x.
Proof.
  revert i. induction l as [|y l IH]; intros i; [done|]. cbn.
  destruct (decide (P y)) as [Hy|Hy].
  - rewrite (bool_decide_eq_true_2 _ Hy). by intros [= _ ->].
  - rewrite (bool_decide_eq_false_2 _ Hy).
    destruct (list_find P l) as [[j z]|]; [|done].
    intros [= _ <-]. by apply (IH j).
Qed.

Lemma headcount_app ty crew more :
  headcount ty (crew ++ more) = headcount ty crew + headcount ty more.
Proof.
  induction crew as [|u crew IH]; [done|]. cbn.
  fold (headcount ty (crew ++ more)). fold (headcount ty crew).
  destruct (decide _); lia.
Qed.

Lemma headcount_alter ty count crew i u :
  crew !! i = Some u ->
  headcount ty (alter (fun u => Unit.set_count (Unit.count u + count) u) i crew)
  = headcount ty crew
    + (if decide (Unit.type u = ty) then count else 0).
Proof.
  revert i. induction crew as [|v crew IH]; intros [|i] Hi; try done.
  - injection Hi as ->. cbn. fold (headcount ty crew).
    destruct (decide _); lia.
  - cbn [alter list_alter]. cbn [headcount foldr].
    fold (alter (fun u => Unit.set_count (Unit.count u + count) u) i crew).
    fold (headcount ty crew).
    fold (headcount ty
            (alter (fun u => Unit.set_count (Unit.count u + count) u) i crew)).
    rewrite (IH i Hi). destruct (decide (Unit.type v = ty)); lia.
Qed.

Lemma headcount_joined ty count crew i u :
  crew !! i = Some u ->
  Double.exact (Unit.count u + count) ->
  headcount ty
    (alter (fun u => Unit.set_count (Double.add (Unit.count u) count) u) i crew)
  = headcount ty crew
    + (if decide (Unit.type u = ty) then count else 0).
Proof.
  intros Hi Hexact. rewrite <- (headcount_alter ty count crew i u Hi).
  rewrite !(alter_insert _ _ _ _ Hi). by rewrite (add_exact _ _ Hexact).
Qed.

Lemma UNIT_TEMPLATES_type ty : Unit.type (UNIT_TEMPLATES ty) = ty.
Proof. by destruct ty. Qed.

Lemma enlist_headcount now ty count hero ty' :
  (forall u, u ∈ Hero.crew hero -> Unit.type u = ty ->
             Double.exact (Unit.count u + count)) ->
  headcount ty' (Hero.crew (enlist now ty count hero))
  = headcount ty' (Hero.crew hero) + (if decide (ty = ty') then count else 0).
Proof.
  intros Hexact. unfold enlist.
  destruct (list_find _ (Hero.crew hero)) as [[i u]|] eqn:Hfind.
  - apply list_find_Some in Hfind as (Hi & Hu & _). cbn [Hero.crew Hero.set_crew].
    rewrite (headcount_joined _ _ _ _ _ Hi).
    + by rewrite Hu.
    + apply Hexact; [|exact Hu]. by apply (list_elem_of_lookup_2 _ i).
  - cbn [Hero.crew Hero.set_crew]. rewrite headcount_app. f_equal.
    cbn. rewrite UNIT_TEMPLATES_type. destruct (decide _); lia.
Qed.

Lemma covers_ge have cost : have >= cost -> covers have (Some cost) = true.
Proof. intros Hge. cbn. by apply Z.geb_le, Z.ge_le. Qed.

Lemma deduct_resources cost count faction :
  (forall kind,
     Double.exact
       (Resources.get (Faction.resources faction) kind
        - Resources.get cost kind * count)) ->
  Faction.resources
    (deduct (PartialResources.ofResources
               (Resources.mk (Resources.gold cost * count)
                  (Resources.wood cost * count)
                  (Resources.stone cost * count)
                  (Resources.crystals cost * count)))
       faction)
  = Resources.mk
      (Resources.gold (Faction.resources faction) - Resources.gold cost * count)
      (Resources.wood (Faction.resources faction) - Resources.wood cost * count)
      (Resources.stone (Faction.resources faction)
       - Resources.stone cost * count)
      (Resources.crystals (Faction.resources faction)
       - Resources.crystals cost * count).
Proof.
  intros Hexact.
  pose proof (Hexact ResourceType.gold) as Hgold.
  pose proof (Hexact ResourceType.wood) as Hwood.
  pose proof (Hexact ResourceType.stone) as Hstone.
  pose proof (Hexact ResourceType.crystals) as Hcrystals.
  cbn [Resources.get] in Hgold, Hwood, Hstone, Hcrystals.
  unfold deduct. cbn.
  rewrite (sub_exact _ _ Hgold), (sub_exact _ _ Hwood),
    (sub_exact _ _ Hstone), (sub_exact _ _ Hcrystals).
  f_equal;
    match goal with |- context [?a =? 0] => destruct (Z.eqb_spec a 0) end; lia.
Qed.

(** X29 - recruiting.  In a state whose factions have distinct ids and list
    their own heroes, with a hero selected, [recruitUnit] for a town of the
    map, a unit type its pool offers, a count the offer has available and a
    treasury that covers count times the offer's cost in every kind returns
    [true], where none of the products, differences and sums is rounded.
    Afterwards the hero's crew holds that many more units of the type and
    as many of every other type as before, and the hero is otherwise the
    same; its faction has paid count times the cost; in the town's pool
    the offer for the type has [available] down by the count and is
    otherwise the same, as are the other offers, the rest of the town and
    the other points of interest; no other field of the state has
    changed. *)
Theorem recruitUnit_accounts
    (now : Z) (townId unitType : string) (count : Z) (state : GameState.t)
    (heroId : string) (hero : Hero.t) (faction : Faction.t)
    (ti : nat) (town : PointOfInterest.t)
    (pool : list UnitRecruitOption.t) (buildings : list Building.t)
    (stock : Resources.t) (ty : UnitType.t)
    (ri : nat) (offer : UnitRecruitOption.t) :
  RosterOK state ->
  GameState.selectedHeroId state = Some heroId ->
  heroId <> EmptyString ->
  getHero state heroId = Some hero ->
  getFaction state (Hero.factionId hero) = Some faction ->
  list_find (fun poi => PointOfInterest.id poi = townId)
    (WorldMap.pointsOfInterest (GameState.worldMap state)) = Some (ti, town) ->
  PointOfInterest.variant town = PoiVariant.Town pool buildings stock ->
  unitTypeOfString unitType = Some ty ->
  list_find (fun r => UnitRecruitOption.unitType r = ty) pool
  = Some (ri, offer) ->
  count <= UnitRecruitOption.available offer ->
  (forall kind,
     Resources.get (UnitRecruitOption.cost offer) kind * count
     <= Resources.get (Faction.resources faction) kind) ->
  (forall kind,
     Double.exact (Resources.get (UnitRecruitOption.cost offer) kind * count)
     /\ Double.exact
          (Resources.get (Faction.resources faction) kind
           - Resources.get (UnitRecruitOption.cost offer) kind * count)) ->
  Double.exact (UnitRecruitOption.available offer - count) ->
  (forall u, u ∈ Hero.crew hero -> Unit.type u = ty ->
             Double.exact (Unit.count u + count)) ->
  exists after recruiter,
    recruitUnit now townId unitType count state = (true, after)
    /\ getHero after heroId = Some recruiter
    /\ (Hero.id recruiter, Hero.name recruiter, Hero.level recruiter,
        Hero.experience recruiter, Hero.experienceToNext recruiter,
        Hero.position recruiter, Hero.movementPoints recruiter,
        Hero.maxMovementPoints recruiter, Hero.bonuses recruiter,
        Hero.factionId recruiter)
       = (Hero.id hero, Hero.name hero, Hero.level hero,
          Hero.experience hero, Hero.experienceToNext hero,
          Hero.position hero, Hero.movementPoints hero,
          Hero.maxMovementPoints hero, Hero.bonuses hero,
          Hero.factionId hero)
    /\ (forall ty',
          headcount ty' (Hero.crew recruiter)
          = headcount ty' (Hero.crew hero)
            + (if decide (ty = ty') then count else 0))
    /\ Faction.resources <$> getFaction after (Hero.factionId hero)
       = Some (Resources.mk
                 (Resources.gold (Faction.resources faction)
                  - Resources.gold (UnitRecruitOption.cost offer) * count)
                 (Resources.wood (Faction.resources faction)
                  - Resources.wood (UnitRecruitOption.cost offer) * count)
                 (Resources.stone (Faction.resources faction)
                  - Resources.stone (UnitRecruitOption.cost offer) * count)
                 (Resources.crystals (Faction.resources faction)
                  - Resources.crystals (UnitRecruitOption.cost offer) * count))
    /\ (exists town' pool' offer',
          WorldMap.pointsOfInterest (GameState.worldMap after) !! ti
          = Some town'
          /\ PointOfInterest.variant town'
             = PoiVariant.Town pool' buildings stock
          /\ pool' !! ri = Some offer'
          /\ UnitRecruitOption.available offer'
             = UnitRecruitOption.available offer - count
          /\ (UnitRecruitOption.unitType offer', UnitRecruitOption.cost offer',
              UnitRecruitOption.maxPerWeek offer')
             = (UnitRecruitOption.unitType offer, UnitRecruitOption.cost offer,
                UnitRecruitOption.maxPerWeek offer)
          /\ length pool' = length pool
          /\ (forall j, j <> ri -> pool' !! j = pool !! j)
          /\ (PointOfInterest.id town', PointOfInterest.name town',
              PointOfInterest.position town', PointOfInterest.factionId town',
              PointOfInterest.garrison town',
              PointOfInterest.isDiscovered town')
             = (PointOfInterest.id town, PointOfInterest.name town,
                PointOfInterest.position town, PointOfInterest.factionId town,
                PointOfInterest.garrison town,
                PointOfInterest.isDiscovered town))
    /\ length (WorldMap.pointsOfInterest (GameState.worldMap after))
       = length (WorldMap.pointsOfInterest (GameState.worldMap state))
    /\ (forall j, j <> ti ->
          WorldMap.pointsOfInterest (GameState.worldMap after) !! j
          = WorldMap.pointsOfInterest (GameState.worldMap state) !! j)
    /\ (GameState.turn after, GameState.currentFaction after,
        GameState.combatState after, GameState.selectedHeroId after,
        GameState.gamePhase after, GameState.victoryCondition after,
        GameState.isGameOver after, GameState.winner after)
       = (GameState.turn state, GameState.currentFaction state,
          GameState.combatState state, GameState.selectedHeroId state,
          GameState.gamePhase state, GameState.victoryCondition state,
          GameState.isGameOver state, GameState.winner state).
Proof.
  intros Hroster Hselected Hnamed Hhero Hfaction Htown Hvariant Hty Hoffer
    Havailable Hcovers Hexact Hleft Hstack.
  pose proof Hhero as Hpath. rewrite getHero_heroPath in Hpath.
  destruct (heroPath heroId (GameState.factions state)) as [[[fi hi] hero']|]
    eqn:Epath; [|done].
  injection Hpath as ->.
  destruct (heroPath_Some _ _ _ _ _ Epath) as (faction' & Hfi & Hfind).
  pose proof (roster_faction _ _ _ _ _ _ Hroster Hfi Hfind) as Hfound.
  assert (faction' = faction) as ->.
  { unfold getFaction in Hfaction. rewrite Hfound in Hfaction.
    by injection Hfaction. }
  assert (Hid : Hero.id hero = heroId)
    by by apply list_find_Some in Hfind as (_ & ? & _).
  assert (Hfid : Faction.id faction = Hero.factionId hero)
    by by apply list_find_Some in Hfound as (_ & ? & _).
  unfold recruitUnit. rewrite Hselected.
  destruct heroId as [|c heroId]; [done|]. rewrite Hhero.
  cbn [mbind option_bind]. rewrite Hfaction, Htown, Hvariant, Hty.
  rewrite (find_list_find _ _ _ _ Hoffer).
  destruct (Z.ltb_spec (UnitRecruitOption.available offer) count) as [?|_];
    [lia|].
  pose proof (proj1 (Hexact ResourceType.gold)) as Hgold.
  pose proof (proj1 (Hexact ResourceType.wood)) as Hwood.
  pose proof (proj1 (Hexact ResourceType.stone)) as Hstone.
  pose proof (proj1 (Hexact ResourceType.crystals)) as Hcrystals.
  cbn [Resources.get] in Hgold, Hwood, Hstone, Hcrystals.
  rewrite (mul_exact _ _ Hgold), (mul_exact _ _ Hwood),
    (mul_exact _ _ Hstone), (mul_exact _ _ Hcrystals).
  unfold spendResources. rewrite Hfid, Hfaction.
  assert (Hafford :
    canAfford (Faction.resources faction)
      (PartialResources.ofResources
         (Resources.mk
            (Resources.gold (UnitRecruitOption.cost offer) * count)
            (Resources.wood (UnitRecruitOption.cost offer) * count)
            (Resources.stone (UnitRecruitOption.cost offer) * count)
            (Resources.crystals (UnitRecruitOption.cost offer) * count)))
    = true).
  { unfold canAfford, PartialResources.ofResources.
    cbn [PartialResources.gold PartialResources.wood PartialResources.stone
         PartialResources.crystals Resources.gold Resources.wood
         Resources.stone Resources.crystals].
    pose proof (Hcovers ResourceType.gold).
    pose proof (Hcovers ResourceType.wood).
    pose proof (Hcovers ResourceType.stone).
    pose proof (Hcovers ResourceType.crystals).
    cbn [Resources.get] in *.
    rewrite !covers_ge by lia. done. }
  rewrite Hafford. cbn [negb].
  cbn [GameState.factions GameState.set_factions GameState.worldMap
       GameState.set_worldMap].
  unfold updateFaction. rewrite Hfound. rewrite Hid.
  rewrite heroPath_alter by done. rewrite Epath.
  eexists. exists (enlist now ty count hero). split; [reflexivity|].
  cbn [GameState.factions GameState.set_factions GameState.worldMap
       GameState.set_worldMap WorldMap.pointsOfInterest
       WorldMap.set_pointsOfInterest].
  split.
  { rewrite getHero_heroPath.
    cbn [GameState.factions GameState.set_factions GameState.worldMap
         GameState.set_worldMap].
    erewrite heroPath_updateHero;
      [| |rewrite heroPath_alter by done; exact Epath]; [done|].
    intros h. unfold enlist.
    by destruct (list_find _ (Hero.crew h)) as [[? ?]|]. }
  split.
  { unfold enlist.
    destruct (list_find _ (Hero.crew hero)) as [[? ?]|];
      cbn [Hero.id Hero.set_crew]; by rewrite Hid. }
  split; [intros ty'; by apply enlist_headcount|].
  split.
  { unfold getFaction.
    cbn [GameState.factions GameState.set_factions GameState.worldMap
         GameState.set_worldMap].
    unfold updateHero.
    erewrite list_find_alter; [|done|].
    2:{ erewrite list_find_alter; [reflexivity|done|exact Hfound]. }
    cbn [fmap option_fmap option_map snd]. f_equal.
    cbn [Faction.resources Faction.set_heroes]. apply deduct_resources.
    intros kind. apply Hexact. }
  apply list_find_Some in Htown as (Hti & _).
  pose proof Hoffer as Hri. apply list_find_Some in Hri as (Hri & _).
  split.
  { eexists _, _, _. split.
    { rewrite list_lookup_alter_eq, Hti. cbn [fmap option_fmap option_map].
      unfold drawFromPool. rewrite Hvariant, Hoffer. reflexivity. }
    split; [reflexivity|]. split.
    { rewrite list_lookup_alter_eq, Hri. reflexivity. }
    split; [cbn; by apply sub_exact|]. split; [reflexivity|].
    split; [apply length_alter|].
    split; [|reflexivity].
    intros j Hj. by apply list_lookup_alter_ne. }
  split; [apply length_alter|]. split.
  { intros j Hj. by apply list_lookup_alter_ne. }
  cbn [GameState.turn GameState.currentFaction GameState.combatState
       GameState.selectedHeroId GameState.gamePhase
       GameState.victoryCondition GameState.isGameOver GameState.winner
       GameState.set_worldMap GameState.set_factions].
  by rewrite Hselected.
Qed.

(** In [demoState] the selected hero recruits one warrior at Ironhold for
    the 100 gold of its faction: it now leads eleven, and Ironhold offers
    four warriors where it offered five. *)
Lemma recruitUnit_accounts_witness :
  exists after recruiter town' pool' stock' offer',
    recruitUnit 0 "town_a" "warrior" 1 demoState = (true, after)
    /\ getHero after "hero_a" = Some recruiter
    /\ headcount UnitType.warrior (Hero.crew recruiter) = 11
    /\ Faction.resources <$> getFaction after FactionId.player
       = Some (Resources.mk 0 200 100 50)
    /\ WorldMap.pointsOfInterest (GameState.worldMap after) !! 0%nat
       = Some town'
    /\ PointOfInterest.variant town' = PoiVariant.Town pool' [] stock'
    /\ pool' !! 0%nat = Some offer'
    /\ UnitRecruitOption.available offer' = 4.
Proof.
  destruct (recruitUnit_accounts 0 "town_a" "warrior" 1 demoState "hero_a"
              demoHero
              (Faction.mk FactionId.player "Kingdom of Light" "#4a90d9"
                 (Resources.mk 100 200 100 50) [demoHero] [] false)
              0 demoTown
              [UnitRecruitOption.mk UnitType.warrior (Resources.mk 100 0 0 0)
                 5 10]
              [] (Resources.mk 0 0 0 0) UnitType.warrior 0
              (UnitRecruitOption.mk UnitType.warrior (Resources.mk 100 0 0 0)
                 5 10))
    as (after & recruiter & Hrecruit & Hhero & _ & Hcount & Hpaid
        & (town' & pool' & offer' & Htown & Hvariant & Hoffer & Hleft & _)
        & _).
  - apply demoState_roster.
  - reflexivity.
  - discriminate.
  - reflexivity.
  - reflexivity.
  - reflexivity.
  - reflexivity.
  - reflexivity.
  - reflexivity.
  - cbn. lia.
  - intros []; cbn; lia.
  - intros []; split; by vm_compute.
  - by vm_compute.
  - intros u Hu _. cbn in Hu.
    apply elem_of_cons in Hu as [->|Hu]; [by vm_compute|].
    apply elem_of_cons in Hu as [->|Hu]; [by vm_compute|].
    by apply elem_of_nil in Hu.
  - exists after, recruiter, town', pool', (Resources.mk 0 0 0 0), offer'.
    split; [exact Hrecruit|]. split; [exact Hhero|].
    split; [by rewrite (Hcount UnitType.warrior)|].
    split; [exact Hpaid|]. split; [exact Htown|]. split; [exact Hvariant|].
    split; [exact Hoffer|]. exact Hleft.
Defined.

(** *** Treasuries *)

(** X30 - spending what was just added.  For a faction of the state whose
    treasury has no negative entry, and where neither the treasury nor its
    sums with the amounts are rounded, [spendResources] of the amounts that
    [addResources] has just added succeeds and gives back the state from
    before the two calls, whatever the amounts are and whichever of them
    are left out. *)
Theorem spend_after_add
    (factionId : FactionId.t) (resources : PartialResources.t)
    (state : GameState.t) (faction : Faction.t) :
  getFaction state factionId = Some faction ->
  NonNegative (Faction.resources faction) ->
  (forall kind,
     Double.exact (Resources.get (Faction.resources faction) kind)) ->
  (forall kind a,
     PartialResources.get resources kind = Some a ->
     Double.exact (Resources.get (Faction.resources faction) kind + a)) ->
  spendResources factionId resources (addResources factionId resources state)
  = (true, state).
Proof.
  intros Hfaction (Hgold & Hwood & Hstone & Hcrystals) Hhave Hsum.
  unfold getFaction in Hfaction.
  destruct (list_find (fun f => Faction.id f = factionId)
              (GameState.factions state)) as [[i faction']|] eqn:Hfind;
    [|done].
  injection Hfaction as ->.
  unfold addResources, updateFaction. rewrite Hfind.
  set (add := fun f : Faction.t => Faction.set_resources _ f).
  assert (Hfound :
    list_find (fun f => Faction.id f = factionId)
      (alter add i (GameState.factions state)) = Some (i, add faction))
    by by apply list_find_alter.
  unfold spendResources, getFaction, updateFaction.
  cbn [GameState.factions GameState.set_factions]. rewrite Hfound.
  cbn [fmap option_fmap option_map snd].
  assert (Hadded : forall kind a,
            PartialResources.get resources kind = Some a ->
            Double.add (Resources.get (Faction.resources faction) kind) a
            = Resources.get (Faction.resources faction) kind + a).
  { intros kind a Ha. apply add_exact. by apply Hsum. }
  assert (Hspent : forall kind a,
            Double.sub (Resources.get (Faction.resources faction) kind + a) a
            = Resources.get (Faction.resources faction) kind).
  { intros kind a. unfold Double.sub.
    replace (Resources.get (Faction.resources faction) kind + a - a)
      with (Resources.get (Faction.resources faction) kind) by lia.
    apply round_exact, Hhave. }
  pose proof (Hadded ResourceType.gold) as Hg.
  pose proof (Hadded ResourceType.wood) as Hw.
  pose proof (Hadded ResourceType.stone) as Hs.
  pose proof (Hadded ResourceType.crystals) as Hc.
  pose proof (Hspent ResourceType.gold) as Hg'.
  pose proof (Hspent ResourceType.wood) as Hw'.
  pose proof (Hspent ResourceType.stone) as Hs'.
  pose proof (Hspent ResourceType.crystals) as Hc'.
  clear Hadded Hspent Hsum Hhave.
  cbn [Resources.get] in Hg, Hw, Hs, Hc, Hg', Hw', Hs', Hc'.
  assert (Hafford :
    canAfford (Faction.resources (add faction)) resources = true).
  { unfold canAfford, covers. subst add. cbn [Faction.resources Faction.set_resources
      Resources.gold Resources.wood Resources.stone Resources.crystals].
    destruct resources as [[gold|] [wood|] [stone|] [crystals|]];
      cbn [PartialResources.gold PartialResources.wood PartialResources.stone
           PartialResources.crystals PartialResources.get] in *;
      rewrite ?(Hg _ eq_refl), ?(Hw _ eq_refl), ?(Hs _ eq_refl),
        ?(Hc _ eq_refl);
      repeat match goal with
             | |- context [?a =? 0] => destruct (Z.eqb_spec a 0)
             end;
      rewrite ?andb_true_iff; repeat split; try done; apply Z.geb_le; lia. }
  rewrite Hafford. cbn [negb]. f_equal.
  assert (Hback : deduct resources (add faction) = faction).
  { unfold deduct. subst add. destruct faction as [id name color have heroes towns ai].
    destruct have as [g w s c].
    cbn [Faction.resources Faction.set_resources Resources.gold Resources.wood
         Resources.stone Resources.crystals Faction.id Faction.name
         Faction.color Faction.heroes Faction.ownedTowns Faction.isAI] in *.
    destruct resources as [[gold|] [wood|] [stone|] [crystals|]];
      cbn [PartialResources.gold PartialResources.wood PartialResources.stone
           PartialResources.crystals PartialResources.get] in *;
      rewrite ?(Hg _ eq_refl), ?(Hw _ eq_refl), ?(Hs _ eq_refl),
        ?(Hc _ eq_refl);
      repeat match goal with
             | |- context [?a =? 0] => destruct (Z.eqb_spec a 0)
             end;
      unfold Faction.set_resources;
      cbn [Faction.resources Resources.gold Resources.wood Resources.stone
           Resources.crystals Faction.id Faction.name Faction.color
           Faction.heroes Faction.ownedTowns Faction.isAI];
      rewrite ?Hg', ?Hw', ?Hs', ?Hc'; reflexivity. }
  apply list_find_Some in Hfind as (Hi & _).
  rewrite (alter_insert _ _ _ _ Hi).
  rewrite (alter_insert (deduct resources)
             (<[i := add faction]> (GameState.factions state)) i
             (add faction)).
  2:{ apply list_lookup_insert_eq. by apply lookup_lt_Some in Hi. }
  rewrite Hback, list_insert_insert_eq, list_insert_id by done.
  by destruct state.
Qed.

(** The player of [demoState] is given 5 gold and 7 stone, and spends
    them. *)
Lemma spend_after_add_witness :
  spendResources FactionId.player
    (PartialResources.mk (Some 5) None (Some 7) None)
    (addResources FactionId.player
       (PartialResources.mk (Some 5) None (Some 7) None) demoState)
  = (true, demoState).
Proof.
  apply (spend_after_add FactionId.player
           (PartialResources.mk (Some 5) None (Some 7) None) demoState
           (Faction.mk FactionId.player "Kingdom of Light" "#4a90d9"
              (Resources.mk 100 200 100 50) [demoHero] [] false)).
  - reflexivity.
  - unfold NonNegative. cbn. lia.
  - intros []; by vm_compute.
  - intros [] a [= <-]; by vm_compute.
Defined.
